(* ===== verification/_CoqProject ===== *)
-Q . S2P
Prelude.v
JsString.v
JsObject.v
Json.v
JsonParse.v
Listeners.v
Utf8.v
Base64.v
Hmac.v
HmacFips.v
Codec.v
TokenIssue.v
TokenWire.v
RTCClient.v
App.v
