(* ===== verification/Prelude.v ===== *)
(** * A verification development of the access-token codec of expo-ai-chat-demo

    The repository is a React Native demo that joins a real-time
    communication (RTC) room.  Its one piece of original logic is the
    access-token scheme of [src/rtc/RTCTokenHelper.ts]: a token class
    [AccessToken] that accumulates an identity (app id, room id, user
    id), a creation time, a random nonce, an envelope expiry and a map
    of privileges, packs them canonically with [JSON.stringify], signs
    the text with HMAC-SHA256, and puts the result on the wire as
    [VERSION ++ appId ++ base64(utf8(JSON {msg, signature}))]; [parse]
    slices the string positionally and decodes it again, and [verify]
    checks the expiry against the clock and recomputes the signature.
    [src/rtc/RTCHelper.ts] wraps the external RTC engine in a client
    object [RTCClient] whose [joinRoom] issues a token through
    [tokenWithAppID]; [src/App.tsx] drives that client once the video
    view is loaded, with the logging callbacks of [src/rtc/RCTHandler.ts]
    as the SDK's event handlers.

    ** Files, in dependency order, and what they model

    - [Prelude] (this file): the result monad shared by every
      component ([Ok]/[Err] over the JavaScript exceptions the code can
      raise), its notation scope [res_scope], the hint database
      [tokdb], the tactics of the development ([res_simpl], [zbool])
      and generic lemmas on lists and integers.
    - [JsString]: JavaScript strings as lists of UTF-16 code units
      ([jstr]), [String.prototype.substring] ([js_substring],
      [js_substring_from]), the decimal printing of integers
      ([num_units]), [Number(string)] ([string_to_number]) and the
      array-index test on property keys.
    - [JsObject]: JSON values ([jsval]); ordinary objects as property
      lists with the order of [[OwnPropertyKeys]] (array indices
      ascending, then other keys in creation order: [obj_set]); the
      insertion-ordered [Map<number, number>] ([map_set]), with the
      equivalence [map_equiv] (same lookups) as a setoid relation for
      which [map_set] and [map_get] are morphisms;
      [Object.fromEntries], [Object.entries], property access and
      [ToString] on any value.
    - [Json]: [JSON.stringify] ([stringify], escaping lone surrogates)
      and [JSON.parse] ([json_parse]) with the round trip.
      [JsonParse]: what [JSON.parse] returns (well-formed values, the
      rest a suffix of the input), and that its fuel [1 + length] is
      enough: any larger fuel gives the same result
      ([parse_value_enough]), because every nested call first consumes a
      code unit.
    - [Listeners]: [src/rtc/RCTHandler.ts].  Run-time JavaScript values
      ([rv]: [null], functions, arrays, objects with data and accessor
      properties, enumerable flags and a prototype), the [[Set]] of
      [result[prop] = v] with the [__proto__] setter ([assign_prop]),
      [convertObjectForPrinting], [JSON.stringify] with the [toJSON]
      lookup along the prototype chain, the [console.log] line of a
      handler ([log_line]) with [Array.prototype.join], the [logger]
      factory (whose [f.name = fnName] fails in strict mode and is
      ignored in sloppy mode), and the two handler tables
      [useRTCVideoListeners] and [useRTCRoomListeners]; a call of a
      handler ([call_listener]) yields the console events in order.
    - [Utf8], [Base64]: [CryptoJS.enc.Utf8] (encodeURIComponent-based
      encoder, strict decoder) and [CryptoJS.enc.Base64] (its parser is
      lenient: it stops at the first [=] and ignores the unused bits of
      the last digit).
    - [Hmac]: the class [HmacSha256] that states what the token code
      needs of [CryptoJS.HmacSHA256] (32 bytes in [0, 256)); module
      [Sha256] computes FIPS 180-4 SHA-256 and RFC 2104 HMAC, checked
      on the RFC 4231 vector.  [HmacFips] makes it an instance.
    - [Codec]: the composed wire layers: [JSON.stringify] always prints
      well-formed UTF-16, and UTF-8 then base64 decode back to it.
    - [TokenIssue]: the issuing half of [RTCTokenHelper.ts]: the record
      [AccessToken] of the class's fields, [new_AccessToken] (the
      constructor, with [Date.now()] and [Math.random()] as inputs),
      [addPrivilege], [expireTime], [packMsg], [hmacSign], [serialize]
      and [issue_token].  Every method is a function from the token and
      the environment to the new token, its result, or the exception it
      throws.  The definitions that use the HMAC take the class as a
      section variable; the theorems hold for every instance.
    - [TokenWire]: the reading half: [parse] (through [parse_with],
      which takes the [JSON.parse] it calls as an argument), [verify]
      and [tokenWithAppID], with the round trip against [serialize].
    - [RTCClient]: [RTCHelper.ts]: the client's state ([manager],
      [engine] and [room], each possibly [undefined] or [null], and the
      log of SDK calls) threaded through a state-and-exception monad
      [M] in which an exception keeps the mutations made before it;
      every method ([createEngine], [destroyEngine], [joinRoom],
      [createRoom], ...) is a definition; the SDK is the class
      [RtcSdk]; [rctClient] is the exported instance.  [op] and [exec]
      make the client a state machine with [reachable] states;
      [session] is the abstract machine the App relies on (is an engine
      live, is a room live) and [abstract] the map from client states
      to it; [exec_slots] summarises what one call does to the two
      references, and the invariant, the refinement and the liveness
      are proved from it.
    - [App]: [src/App.tsx]: [requestDevicePermission] (the platform's
      two permissions, in order, a rejection stopping it),
      [initialize], the effect [view_effect], the render with its
      listener tables ([render]), the element tree the page returns
      ([page_view], with [Platform.select] as [platform_select]) and
      the mount of the page ([mount_page]): the tree's native view
      fires [onLoad] ([handleViewLoad]), which starts the second
      render and its effect, over the client of [RTCClient].  The
      effect's [try]/[catch] ([try_catch]) guards the call of the
      [async] function [initialize] ([call_async]), which returns a
      promise instead of throwing.

    ** What the theorems show (claims C1-C36)

    - The defect of the program (C1-C3): [RTCHelper.joinRoom] calls
      [tokenWithAppID('', '', '123456', '123456')]; since [parse]
      slices a 24-character [appId] that [serialize] never enforces,
      [tokenWithAppID] with the empty [appId] throws [SyntaxError] for
      every clock, random draw, key, room and user
      ([TokenWire.tokenWithAppID_empty_appId]).  Consequently
      [initialize] stops at [joinRoom] and never starts the capture
      ([App.initialize_fails]), and the [try]/[catch] of the effect
      never catches anything, because the statement it guards is a call
      of an [async] function: the rejection stays unhandled
      ([App.view_effect_unhandled]).
    - The token scheme when used as intended (24-character [appId],
      C4-C11, C14-C16, C18, C24, C25): [parse] inverts [serialize]
      ([parse_serialize]); the parsed token verifies with the signing
      key until it expires and not after ([verify_parse_serialize],
      [verify_expired], [verify_no_expiry]); another key whose HMAC
      differs is refused ([verify_wrong_key]); [verify] never throws on
      a parsed token ([verify_parsed_total]); the packed message is
      canonical, independent of the insertion order of the privileges
      ([packMsg_canonical]); the publish cascade of [addPrivilege]
      ([addPrivilege_publish_cascade], [addPrivilege_single]); two
      grants commute, up to the setoid [map_equiv], exactly when their
      expiries agree or they set no common code
      ([addPrivilege_commute]); [serialize] and [tokenWithAppID]
      succeed ([serialize_ok], [tokenWithAppID_ok]); bounds of the
      nonce; the version check ([parse_invalid_version]).
    - Where the code departs from the specification (C12, C13, C17):
      every serialized token that ends in [=] has a second string, its
      last base64 digit changed in an unused bit, that parses to the
      same token ([tamper_low_bits]), and any token string followed by
      [=] and arbitrary text parses as the string alone
      ([parse_ignores_after_pad]); [verify] throws [URIError] on a key
      with a lone surrogate ([verify_bad_key_throws]).
    - The client (C19-C23, C33, C36): every reachable state keeps its
      manager and has an engine whenever it has a room
      ([reachable_inv], by rule induction on [reachable]); every run of
      calls refines the session machine ([client_refines_session], a
      simulation proved one step at a time); creating an engine and a
      room makes both live, and they stay live until [destroyEngine]
      ([session_live]); [destroyEngine], [setLocalVideoCanvas],
      [createRoom] and the [{token, ...params}] spread behave as
      stated.
    - The listeners (C26-C30): a [null] argument makes the handler
      throw [TypeError] before anything is printed
      ([listener_null_arg]); an object with plain properties is printed
      by its own properties alone, whatever its prototype, so an
      inherited [toJSON] is never called ([format_plain_object]); an
      own property named ['__proto__'] is never printed, its value
      becoming the copy's prototype ([proto_key_dropped]); a throwing
      getter is dropped only at the top level ([getter_errors]); a room
      handler prints its line and then runs its executer
      ([room_listener_call]).
    - The page (C31, C32, C34, C35): a rejected permission stops
      [initialize] before any SDK call ([permission_rejected]); in
      strict mode the first render throws, in sloppy mode the effect
      ends in the unhandled [SyntaxError] ([mount_page_outcome]); the
      [kind] prop the [!] assertion types as a string is [undefined]
      off iOS and Android ([native_view_kind]); the canvas set by
      [initialize] names the view the page renders
      ([canvas_names_page_view]).
    - The libraries: the UTF-8, base64 and JSON round trips
      ([utf8_roundtrip], [b64_roundtrip], [json_parse_stringify],
      [text_codec_roundtrip]), the digit flip of [Base64]
      ([b64_stringify_flip]), the fuel of [JSON.parse]
      ([parse_value_enough]) and [fromEntries_equiv] are the lemmas the
      token theorems are built from.

    ** Bounds and assumptions

    Numbers are integers ([Z]): the token's numbers are integral, and
    [JSON.stringify] prints them exactly when they are safe integers
    ([|n| <= 2^53 - 1]), which [token_ok] requires; clock readings are
    non-negative safe integers ([clock_ok]), which makes every time the
    token holds (at most [now/1000 + 7200]) safe.  [Math.random()] is
    [r / 2^53] with [0 <= r < 2^53].  The map's keys are array indices,
    as every [Privileges] code is; for other keys [Object.fromEntries]
    orders by insertion and canonicity would not hold.  Nothing is
    assumed about the HMAC beyond its shape; theorems that need two
    digests to differ take it as a hypothesis.  In [Listeners] a number
    is printed by its decimal digits when [|n| < 10^21], as
    [Number.prototype.toString] does, and the others are [Unsupported];
    whether the bundle runs in strict mode is the parameter [strict] of
    [logger] and [render], both outcomes being stated.  [JSON.parse]
    runs with fuel [1 + length], which [parse_value_enough] shows is the
    unbounded parser.

    ** Not modelled

    The internals of the Volcengine SDK, of which only the interface
    ([RtcSdk]) is stated; the layout of the native views, of which the
    tree keeps the props the code sets; the [console.log] of [App.tsx]
    line 22, which reads fields and changes nothing; the import
    statements.  Every definition is total: recursion is structural
    except in [JSON.parse], whose fuel is shown enough.  [parse] on a
    message whose fields have other types than declared returns
    [Unsupported]: the code would build a token with such fields.  In
    [Listeners], a [toJSON] method and a setter that [result[prop] = v]
    would run on a prototype installed through ['__proto__'] are
    outside the model ([Unsupported]); [Object.prototype] is kept only
    for what the code reads of it (no [toJSON]). *)

From Stdlib Require Import ZArith List Lia.
Import ListNotations.

(** ** Results: values or the exception a JavaScript call throws *)

(** The exceptions the modelled code can raise.  [Unsupported] is not
    an exception of the program: it marks an input on which the code
    would go on with a value outside the domain of this model (a
    non-integral number, an integer beyond [2^53], a field of the wrong
    JavaScript type); no theorem treats it as an error of the code. *)
Inductive js_error :=
| InvalidVersion   (** [new Error('Invalid version')] of [parse] *)
| SyntaxError      (** thrown by [JSON.parse] *)
| TypeError        (** a property read on [null] or [undefined] *)
| URIError         (** [encodeURIComponent] on a lone surrogate *)
| MalformedUtf8    (** [new Error('Malformed UTF-8 data')] of crypto-js *)
| Unsupported.

Inductive result (A : Type) :=
| Ok (a : A)
| Err (e : js_error).
Arguments Ok {A} a.
Arguments Err {A} e.

Definition bind {A B} (r : result A) (f : A -> result B) : result B :=
  match r with Ok a => f a | Err e => Err e end.

Declare Scope res_scope.
Delimit Scope res_scope with res.
Notation "x <- r ;; k" := (bind r (fun x => k))
  (at level 61, r at next level, right associativity) : res_scope.
Notation "' p <- r ;; k" := (bind r (fun x => match x with p => k end))
  (at level 61, p pattern, r at next level, right associativity) : res_scope.

Definition is_ok {A} (r : result A) : bool :=
  match r with Ok _ => true | Err _ => false end.

Lemma bind_ok {A B} (a : A) (f : A -> result B) : bind (Ok a) f = f a.
Proof. reflexivity. Qed.

Lemma bind_err {A B} (e : js_error) (f : A -> result B) : bind (Err e) f = Err e.
Proof. reflexivity. Qed.

Lemma bind_inv {A B} (r : result A) (f : A -> result B) (b : B) :
  bind r f = Ok b -> exists a, r = Ok a /\ f a = Ok b.
Proof. destruct r; simpl; [eauto | discriminate]. Qed.

Lemma bind_assoc {A B C} (r : result A) (f : A -> result B) (g : B -> result C) :
  bind (bind r f) g = bind r (fun a => bind (f a) g).
Proof. destruct r; reflexivity. Qed.

Create HintDb tokdb.
Create Rewrite HintDb tokdb.
#[export] Hint Rewrite @bind_ok @bind_err @bind_assoc : tokdb.

(** [res_simpl] pushes the monad through known [Ok]/[Err] values. *)
Ltac res_simpl := autorewrite with tokdb in *; cbn beta iota in *.

(** [bind_ok_inv] splits a hypothesis [bind r f = Ok b] into its parts. *)
Ltac bind_ok_inv H :=
  let a := fresh "a" in let Ha := fresh "Ha" in
  apply bind_inv in H; destruct H as [a [Ha H]].

(** ** Generic lemmas on lists *)

Lemma firstn_app_exact {A} (l1 l2 : list A) : firstn (length l1) (l1 ++ l2) = l1.
Proof. rewrite firstn_app, Nat.sub_diag, firstn_all. simpl. apply app_nil_r. Qed.

Lemma skipn_app_exact {A} (l1 l2 : list A) : skipn (length l1) (l1 ++ l2) = l2.
Proof. rewrite skipn_app, Nat.sub_diag, skipn_all. reflexivity. Qed.

Lemma last_app_nonempty {A} (l m : list A) (d : A) : m <> [] -> last (l ++ m) d = last m d.
Proof.
  intros Hm. destruct m as [|x m] using rev_ind; [contradiction|].
  rewrite app_assoc, !last_last. reflexivity.
Qed.

#[export] Hint Rewrite @firstn_app_exact @skipn_app_exact : tokdb.

(** ** Integers *)

Local Open Scope Z_scope.

(** [zbool] rewrites every comparison [x <? y], [x <=? y], [x =? y]
    whose value [lia] settles from the context. *)
Ltac zbool :=
  repeat match goal with
  | |- context [?x <? ?y] =>
      first [ rewrite (proj2 (Z.ltb_lt x y)) by lia | rewrite (proj2 (Z.ltb_ge x y)) by lia ]
  | |- context [?x <=? ?y] =>
      first [ rewrite (proj2 (Z.leb_le x y)) by lia | rewrite (proj2 (Z.leb_gt x y)) by lia ]
  | |- context [?x =? ?y] =>
      first [ rewrite (proj2 (Z.eqb_eq x y)) by lia | rewrite (proj2 (Z.eqb_neq x y)) by lia ]
  end; cbn [andb orb negb].

(** A number in base [b], split into its digit of weight [b] and the
    rest: [x = x / (b * a) * (b * a) + (x / b mod a) * b + x mod b]. *)
Lemma Z_split_digit (x a b : Z) :
  0 < a -> 0 < b -> x = x / (b * a) * (b * a) + x / b mod a * b + x mod b.
Proof.
  intros Ha Hb. rewrite <- Z.div_div by lia.
  pose proof (Z.div_mod x b ltac:(lia)) as E1.
  pose proof (Z.div_mod (x / b) a ltac:(lia)) as E2. nia.
Qed.
