(* ===== verification/JsString.v ===== *)
(** * JavaScript strings, integral numbers and property keys

    A JavaScript string is a sequence of UTF-16 code units; it is
    modelled as a [list Z] whose elements are in [0, 65536).  This
    file holds what [RTCTokenHelper.ts] does with strings directly:
    [String.prototype.substring] (lines 86, 90, 91), the decimal
    numeral of an integral number (the [ToString] that [JSON.stringify]
    and [Object.fromEntries] apply to numbers), [Number(k)] on a key
    (line 104), and the array-index test that decides where a key goes
    in an object's property order.  Numbers are integers of magnitude
    below [2^53] ("safe integers"), the only numbers the token holds. *)

From Stdlib Require Import ZArith List Lia String Ascii Decimal DecimalFacts DecimalN.
From S2P Require Import Prelude.
Import ListNotations.
Local Open Scope Z_scope.

Definition jstr := list Z.

(** String literals of the source, written with Rocq's ASCII strings. *)
Definition js (s : string) : jstr :=
  map (fun a => Z.of_N (N_of_ascii a)) (list_ascii_of_string s).

Definition code_unit_ok (c : Z) : bool := (0 <=? c) && (c <? 65536).
Definition jstr_ok (s : jstr) : bool := forallb code_unit_ok s.

(** ** [String.prototype.substring(start, end)] *)

Definition clamp (len i : Z) : Z := Z.max 0 (Z.min i len).

Definition js_substring (s : jstr) (start end_ : Z) : jstr :=
  let len := Z.of_nat (List.length s) in
  let a := clamp len start in
  let b := clamp len end_ in
  let from := Z.min a b in
  let to := Z.max a b in
  firstn (Z.to_nat (to - from)) (skipn (Z.to_nat from) s).

(** [s.substring(start)]: the end defaults to the length. *)
Definition js_substring_from (s : jstr) (start : Z) : jstr :=
  js_substring s start (Z.of_nat (List.length s)).

(** ** Decimal numerals *)

Definition is_digit (c : Z) : bool := (48 <=? c) && (c <=? 57).

Fixpoint uint_units (d : uint) : jstr :=
  match d with
  | Nil => []
  | D0 d => 48 :: uint_units d | D1 d => 49 :: uint_units d
  | D2 d => 50 :: uint_units d | D3 d => 51 :: uint_units d
  | D4 d => 52 :: uint_units d | D5 d => 53 :: uint_units d
  | D6 d => 54 :: uint_units d | D7 d => 55 :: uint_units d
  | D8 d => 56 :: uint_units d | D9 d => 57 :: uint_units d
  end.

Definition cons_digit (c : Z) (d : uint) : uint :=
  match c - 48 with
  | 0 => D0 d | 1 => D1 d | 2 => D2 d | 3 => D3 d | 4 => D4 d
  | 5 => D5 d | 6 => D6 d | 7 => D7 d | 8 => D8 d | _ => D9 d
  end.

(** The digits of a string made of decimal digits only. *)
Fixpoint units_uint (s : jstr) : option uint :=
  match s with
  | [] => Some Nil
  | c :: r =>
      if is_digit c then option_map (cons_digit c) (units_uint r) else None
  end.

Definition nat_units (n : N) : jstr := uint_units (N.to_uint n).

(** [Number::toString] on an integral number: an optional minus sign
    and the digits without leading zeros ([-0] prints as [0]). *)
Definition num_units (z : Z) : jstr :=
  if z <? 0 then 45 :: nat_units (Z.to_N (- z)) else nat_units (Z.to_N z).

Definition MAX_SAFE_INTEGER : Z := 2 ^ 53 - 1.
Definition safe_int (z : Z) : bool := Z.abs z <=? MAX_SAFE_INTEGER.

(** ** Array indices *)

(** A property key is an array index when it is the canonical numeral of
    an integer below [2^32 - 1]; such keys come first in an object's
    property order, in ascending numeric order. *)
Definition index_value (k : jstr) : option N :=
  match k with
  | [] => None
  | _ => match units_uint k with
         | Some d =>
             let n := N.of_uint d in
             if list_eq_dec Z.eq_dec (nat_units n) k then
               if (n <? 4294967295)%N then Some n else None
             else None
         | None => None
         end
  end.

Definition is_array_index (k : jstr) : bool :=
  match index_value k with Some _ => true | None => false end.

(** ** [Number(k)] on a property key *)

(** The modelled part of StringToNumber: an optional sign and one or
    more decimal digits, leading zeros allowed, denoting a safe integer.
    Other keys ([""], ["1.5"], ["0x10"], ["abc"], ...) give non-integral
    numbers, [NaN] or [0] in JavaScript and are outside the model. *)
Definition string_to_number (k : jstr) : result Z :=
  let '(sign, digits) :=
    match k with
    | c :: r => if c =? 45 then (-1, r) else if c =? 43 then (1, r) else (1, k)
    | [] => (1, k)
    end in
  match digits with
  | [] => Err Unsupported
  | _ => match units_uint digits with
         | Some d =>
             let z := sign * Z.of_N (N.of_uint d) in
             if safe_int z then Ok z else Err Unsupported
         | None => Err Unsupported
         end
  end.

(** ** Lemmas on numerals *)

Lemma units_uint_uint_units (d : uint) : units_uint (uint_units d) = Some d.
Proof. induction d; simpl; rewrite ?IHd; reflexivity. Qed.

Lemma uint_units_digits (d : uint) : forallb is_digit (uint_units d) = true.
Proof. induction d; simpl; rewrite ?IHd; reflexivity. Qed.

Lemma nat_units_of_uint (n : N) : N.of_uint (N.to_uint n) = n.
Proof. apply DecimalN.Unsigned.of_to. Qed.

Lemma units_uint_nat_units (n : N) :
  option_map N.of_uint (units_uint (nat_units n)) = Some n.
Proof. unfold nat_units. rewrite units_uint_uint_units. simpl. f_equal. apply nat_units_of_uint. Qed.

Lemma nat_units_inj (n m : N) : nat_units n = nat_units m -> n = m.
Proof.
  intros H. pose proof (units_uint_nat_units n) as Hn.
  rewrite H, units_uint_nat_units in Hn. congruence.
Qed.

Lemma nat_units_nonempty (n : N) : nat_units n <> [].
Proof.
  unfold nat_units. intros H.
  pose proof (DecimalPos.Unsigned.to_uint_nonnil).
  destruct n as [|p]; [discriminate|]. simpl in H.
  destruct (Pos.to_uint p) eqn:E; try discriminate. now apply (H0 p).
Qed.

(** A numeral starts with the digit [0] only when it is [0] itself:
    numerals have no leading zeros. *)
Lemma nat_units_leading_zero (n : N) (r : jstr) :
  nat_units n = 48 :: r -> n = 0%N /\ r = [].
Proof.
  unfold nat_units. intros H.
  assert (Hn : N.to_uint n = unorm (N.to_uint n)).
  { rewrite <- DecimalN.Unsigned.to_of, nat_units_of_uint. reflexivity. }
  destruct (N.to_uint n) as [|d|d|d|d|d|d|d|d|d|d] eqn:E; try discriminate.
  simpl in H. injection H as <-.
  rewrite unorm_D0 in Hn. unfold unorm in Hn.
  destruct (nzhead d) eqn:Ez; try discriminate Hn.
  - injection Hn as ->. split; [|reflexivity].
    rewrite <- (nat_units_of_uint n), E. reflexivity.
  - exfalso. eapply nzhead_nonzero. eassumption.
Qed.

Lemma index_value_nat_units (n : N) :
  (n < 4294967295)%N -> index_value (nat_units n) = Some n.
Proof.
  intros Hlt. unfold index_value.
  pose proof (units_uint_nat_units n) as Hu. pose proof (nat_units_nonempty n).
  destruct (nat_units n) as [|c r] eqn:E; [congruence|].
  destruct (units_uint (c :: r)) as [d|]; [|discriminate].
  injection Hu as Hd. rewrite Hd, <- E.
  destruct (list_eq_dec Z.eq_dec (nat_units n) (nat_units n)); [|congruence].
  apply N.ltb_lt in Hlt. now rewrite Hlt.
Qed.

Lemma index_value_some (k : jstr) (n : N) :
  index_value k = Some n -> k = nat_units n /\ (n < 4294967295)%N.
Proof.
  unfold index_value. destruct k; [discriminate|].
  destruct (units_uint _); [|discriminate].
  destruct (list_eq_dec _ _ _) as [E|]; [|discriminate].
  destruct (N.ltb_spec (N.of_uint u) 4294967295); [|discriminate].
  intros Hs; injection Hs as <-. auto.
Qed.

Lemma num_units_nonneg (z : Z) : 0 <= z -> num_units z = nat_units (Z.to_N z).
Proof. intros H. unfold num_units. destruct (Z.ltb_spec z 0); [lia | reflexivity]. Qed.

Lemma nat_units_no_sign (n : N) (r : jstr) : nat_units n <> 45 :: r /\ nat_units n <> 43 :: r.
Proof.
  pose proof (uint_units_digits (N.to_uint n)) as H. unfold nat_units.
  split; intros E; rewrite E in H; discriminate.
Qed.

(** [Number(String(z)) = z] on safe integers: the keys that
    [Object.fromEntries] writes are read back by [parse]. *)
Lemma string_to_number_num_units (z : Z) :
  safe_int z = true -> string_to_number (num_units z) = Ok z.
Proof.
  intros Hs. unfold string_to_number, num_units.
  destruct (Z.ltb_spec z 0).
  - pose proof (units_uint_nat_units (Z.to_N (- z))) as Hu.
    pose proof (nat_units_nonempty (Z.to_N (- z))).
    destruct (nat_units (Z.to_N (- z))) as [|c r] eqn:E; [congruence|].
    cbn [Z.eqb Pos.eqb]. destruct (units_uint (c :: r)); [|discriminate].
    injection Hu as ->. rewrite Z2N.id by lia.
    replace (-1 * - z) with z by lia. now rewrite Hs.
  - pose proof (units_uint_nat_units (Z.to_N z)) as Hu.
    pose proof (nat_units_no_sign (Z.to_N z)) as Hns.
    pose proof (nat_units_nonempty (Z.to_N z)).
    destruct (nat_units (Z.to_N z)) as [|c r] eqn:E; [congruence|].
    assert (Hd : (c =? 45) = false /\ (c =? 43) = false).
    { split; apply Z.eqb_neq; intros ->; destruct (Hns r); congruence. }
    destruct Hd as [-> ->].
    destruct (units_uint (c :: r)); [|discriminate].
    injection Hu as ->. rewrite Z2N.id by lia. rewrite Z.mul_1_l. now rewrite Hs.
Qed.

Lemma num_units_inj (z1 z2 : Z) : num_units z1 = num_units z2 -> z1 = z2.
Proof.
  unfold num_units. intros H.
  destruct (Z.ltb_spec z1 0), (Z.ltb_spec z2 0).
  - injection H as H. apply nat_units_inj in H. lia.
  - symmetry in H. now apply nat_units_no_sign in H.
  - now apply nat_units_no_sign in H.
  - apply nat_units_inj in H. lia.
Qed.

(** [substring] inside the bounds: the code units from [a] to [b]. *)
Lemma js_substring_range (s : jstr) (a b : Z) :
  0 <= a <= b -> b <= Z.of_nat (List.length s) ->
  js_substring s a b = firstn (Z.to_nat (b - a)) (skipn (Z.to_nat a) s).
Proof.
  intros Hab Hb. unfold js_substring, clamp.
  rewrite (Z.min_l a), (Z.min_l b), (Z.max_r 0 a), (Z.max_r 0 b), Z.min_l, Z.max_r by lia.
  reflexivity.
Qed.

Lemma js_substring_middle (p x r : jstr) :
  js_substring (p ++ x ++ r) (Z.of_nat (List.length p)) (Z.of_nat (List.length p + List.length x)) = x.
Proof.
  rewrite js_substring_range by (rewrite ?length_app; lia).
  rewrite Nat2Z.id, skipn_app_exact. replace (Z.to_nat _) with (List.length x) by lia.
  apply firstn_app_exact.
Qed.

Lemma js_substring_from_app (p r : jstr) :
  js_substring_from (p ++ r) (Z.of_nat (List.length p)) = r.
Proof.
  unfold js_substring_from. rewrite js_substring_range by (rewrite ?length_app; lia).
  rewrite Nat2Z.id, skipn_app_exact. replace (Z.to_nat _) with (List.length r) by (rewrite length_app; lia).
  rewrite firstn_all. reflexivity.
Qed.

Lemma js_substring_app_l (p x : jstr) (a b : Z) :
  0 <= a <= b -> b <= Z.of_nat (List.length p) -> js_substring (p ++ x) a b = js_substring p a b.
Proof.
  intros Hab Hb. rewrite !js_substring_range by (rewrite ?length_app; lia).
  rewrite skipn_app, firstn_app, length_skipn.
  replace (Z.to_nat (b - a) - (List.length p - Z.to_nat a))%nat with 0%nat by lia.
  now rewrite firstn_O, List.app_nil_r.
Qed.

Lemma js_substring_from_app_l (p x : jstr) (n : Z) :
  0 <= n <= Z.of_nat (List.length p) -> js_substring_from (p ++ x) n = skipn (Z.to_nat n) p ++ x.
Proof.
  intros Hn. unfold js_substring_from. rewrite js_substring_range by (rewrite ?length_app; lia).
  rewrite skipn_app. replace (Z.to_nat n - List.length p)%nat with 0%nat by lia. cbn [skipn].
  apply firstn_all2. rewrite length_app, length_skipn, length_app. lia.
Qed.
