(* ===== verification/JsObject.v ===== *)
(** * JavaScript values, ordinary objects and [Map]

    [RTCTokenHelper.ts] builds objects ([packMsg], line 55; the envelope,
    line 78), turns its [Map<number, number>] of privileges into an
    object with [Object.fromEntries] (line 61) and back with
    [new Map(Object.entries(...))] (lines 103-105).  The order in which
    [JSON.stringify] writes an object's properties is the order of the
    object's [[OwnPropertyKeys]]: the array-index keys in ascending
    numeric order, then the other string keys in creation order.  An
    object is therefore modelled as its list of properties in that order;
    [obj_set] (CreateDataProperty) keeps the list in that order.  A [Map]
    is the list of its entries in insertion order; [map_set] overwrites
    an existing key in place and appends a new one. *)

From Stdlib Require Import ZArith List Lia Permutation String Setoid Morphisms.
From S2P Require Import Prelude JsString.
Import ListNotations.
Local Open Scope Z_scope.

(** ** Values *)

#[local] Set Warnings "-register-all".
Inductive jsval :=
| JNull
| JBool (b : bool)
| JNum (n : Z)
| JStr (s : jstr)
| JArr (l : list jsval)
| JObj (props : list (jstr * jsval)).

Definition props := list (jstr * jsval).

(** Induction with hypotheses on the elements of arrays and objects. *)
Definition jsval_ind' (P : jsval -> Prop)
  (fnull : P JNull) (fbool : forall b, P (JBool b)) (fnum : forall n, P (JNum n))
  (fstr : forall s, P (JStr s))
  (farr : forall l, Forall P l -> P (JArr l))
  (fobj : forall o, Forall (fun kv => P (snd kv)) o -> P (JObj o)) : forall v, P v :=
  fix F v :=
    match v with
    | JNull => fnull
    | JBool b => fbool b
    | JNum n => fnum n
    | JStr s => fstr s
    | JArr l => farr l ((fix G l : Forall P l :=
                           match l with
                           | [] => Forall_nil _
                           | x :: r => Forall_cons _ (F x) (G r)
                           end) l)
    | JObj o => fobj o ((fix G o : Forall (fun kv => P (snd kv)) o :=
                           match o with
                           | [] => Forall_nil _
                           | kv :: r => Forall_cons _ (F (snd kv)) (G r)
                           end) o)
    end.

Definition key_eqb (a b : jstr) : bool :=
  if list_eq_dec Z.eq_dec a b then true else false.

(** ** Ordinary objects *)

(** [[Get]] of a data property ([None] is [undefined]). *)
Fixpoint obj_get (o : props) (k : jstr) : option jsval :=
  match o with
  | [] => None
  | (k', v') :: r => if key_eqb k' k then Some v' else obj_get r k
  end.

Fixpoint obj_replace (o : props) (k : jstr) (v : jsval) : props :=
  match o with
  | [] => []
  | (k', v') :: r => if key_eqb k' k then (k', v) :: r else (k', v') :: obj_replace r k v
  end.

(** A new array-index key [k] of value [n] goes after the smaller indices. *)
Fixpoint insert_index (n : N) (k : jstr) (v : jsval) (o : props) : props :=
  match o with
  | [] => [(k, v)]
  | (k', v') :: r =>
      match index_value k' with
      | Some n' => if (n' <? n)%N then (k', v') :: insert_index n k v r else (k, v) :: o
      | None => (k, v) :: o
      end
  end.

(** CreateDataProperty on an ordinary extensible object: an existing
    property keeps its place and takes the new value; a new array index
    goes among the indices in ascending order; any other new key goes
    last. *)
Definition obj_set (o : props) (k : jstr) (v : jsval) : props :=
  match obj_get o k with
  | Some _ => obj_replace o k v
  | None =>
      match index_value k with
      | Some n => insert_index n k v o
      | None => o ++ [(k, v)]
      end
  end.

(** ** [Map<number, number>] *)

Definition jsmap := list (Z * Z).

Fixpoint map_get (m : jsmap) (k : Z) : option Z :=
  match m with
  | [] => None
  | (k', v') :: r => if k' =? k then Some v' else map_get r k
  end.

(** [Map.prototype.set]: overwrite in place, or append a new entry. *)
Fixpoint map_set (m : jsmap) (k v : Z) : jsmap :=
  match m with
  | [] => [(k, v)]
  | (k', v') :: r => if k' =? k then (k', v) :: r else (k', v') :: map_set r k v
  end.

(** [new Map(entries)] calls [set] on each entry in order. *)
Definition map_of_entries (l : list (Z * Z)) : jsmap :=
  fold_left (fun m kv => map_set m (fst kv) (snd kv)) l [].

(** [Object.fromEntries(map)]: each entry, in the map's order, becomes
    a property whose key is [String(k)]. *)
Definition fromEntries (m : jsmap) : props :=
  fold_left (fun o kv => obj_set o (num_units (fst kv)) (JNum (snd kv))) m [].

(** [Object.entries(o)]: the own enumerable string-keyed properties, in
    [[OwnPropertyKeys]] order, which is the order of the model. *)
Definition entries (o : props) : list (jstr * jsval) := o.

(** ** The property order invariant *)

(** [follows k k'] holds when a property [k'] may come after [k] in
    [[OwnPropertyKeys]] order. *)
Definition follows (k k' : jstr) : Prop :=
  match index_value k, index_value k' with
  | Some n, Some n' => (n < n')%N
  | None, Some _ => False
  | _, None => True
  end.

Fixpoint ordered (o : props) : Prop :=
  match o with
  | [] => True
  | (k, _) :: r => Forall (fun kv => follows k (fst kv)) r /\ ordered r
  end.

Definition obj_wf (o : props) : Prop := ordered o /\ NoDup (map fst o).

Definition all_index (o : props) : Prop :=
  Forall (fun kv => is_array_index (fst kv) = true) o.

Definition map_wf (m : jsmap) : Prop := NoDup (map fst m).

(** Two maps are equivalent when they have the same entries, whatever
    the order in which they were inserted. *)
Definition map_equiv (m1 m2 : jsmap) : Prop := forall k, map_get m1 k = map_get m2 k.

(** The value of the entry whose key prints as [s]. *)
Fixpoint lookup_str (m : jsmap) (s : jstr) : option Z :=
  match m with
  | [] => None
  | (k, v) :: r => if key_eqb (num_units k) s then Some v else lookup_str r s
  end.

(** The keys a [Map] of privileges may hold and still print as array
    indices: integers in [0, 2^32 - 1). *)
Definition index_keys (m : jsmap) : Prop :=
  Forall (fun kv => 0 <= fst kv < 4294967295) m.

(** ** Property access, [Object.entries] and [ToString] on any value *)

(** An object literal: its properties are created in the order written. *)
Definition obj_literal (l : list (jstr * jsval)) : props :=
  fold_left (fun o kv => obj_set o (fst kv) (snd kv)) l [].

(** The index keys of the first [n] elements of an array or string. *)
Definition index_keys_upto (n : nat) : list jstr :=
  map (fun i => num_units (Z.of_nat i)) (seq 0 n).

(** [v[k]] for a JSON value [v]: [TypeError] on [null]; [undefined]
    ([None]) for a missing property.  Arrays and strings have their
    elements under index keys and a [length]. *)
Definition js_get (v : jsval) (k : jstr) : result (option jsval) :=
  let indexed (l : list jsval) :=
    if key_eqb k (js "length"%string) then Some (JNum (Z.of_nat (List.length l)))
    else obj_get (combine (index_keys_upto (List.length l)) l) k in
  match v with
  | JNull => Err TypeError
  | JObj o => Ok (obj_get o k)
  | JArr l => Ok (indexed l)
  | JStr s => Ok (indexed (map (fun c => JStr [c]) s))
  | JNum _ | JBool _ => Ok None
  end.

(** [Object.entries(v)]: [TypeError] on [undefined] and [null]; a
    number or boolean has no own enumerable property. *)
Definition js_entries (v : option jsval) : result (list (jstr * jsval)) :=
  match v with
  | None | Some JNull => Err TypeError
  | Some (JObj o) => Ok (entries o)
  | Some (JArr l) => Ok (combine (index_keys_upto (List.length l)) l)
  | Some (JStr s) => Ok (combine (index_keys_upto (List.length s)) (map (fun c => JStr [c]) s))
  | Some (JNum _) | Some (JBool _) => Ok []
  end.

(** [ToString(v)], which [JSON.parse] applies to its argument; an array
    prints as its elements joined by commas, [null] and [undefined]
    elements as the empty string. *)
Fixpoint to_string_val (v : jsval) : jstr :=
  match v with
  | JNull => js "null"%string
  | JBool true => js "true"%string
  | JBool false => js "false"%string
  | JNum n => num_units n
  | JStr s => s
  | JObj _ => js "[object Object]"%string
  | JArr l =>
      (fix elems (l : list jsval) : jstr :=
         let one x := match x with JNull => [] | _ => to_string_val x end in
         match l with
         | [] => []
         | [x] => one x
         | x :: r => one x ++ [44] ++ elems r
         end) l
  end.

Definition js_to_string (v : option jsval) : jstr :=
  match v with None => js "undefined"%string | Some x => to_string_val x end.

(** ** Lemmas on objects *)

Lemma key_eqb_spec (a b : jstr) : reflect (a = b) (key_eqb a b).
Proof. unfold key_eqb. destruct (list_eq_dec Z.eq_dec a b); constructor; auto. Qed.

Lemma key_eqb_refl (a : jstr) : key_eqb a a = true.
Proof. destruct (key_eqb_spec a a); congruence. Qed.

Lemma key_eqb_neq (a b : jstr) : a <> b -> key_eqb a b = false.
Proof. destruct (key_eqb_spec a b); congruence. Qed.

Lemma follows_trans (a b c : jstr) : follows a b -> follows b c -> follows a c.
Proof.
  unfold follows.
  destruct (index_value a), (index_value b), (index_value c); intuition lia.
Qed.

Lemma obj_get_in (o : props) (k : jstr) (v : jsval) : obj_get o k = Some v -> In (k, v) o.
Proof.
  induction o as [|[k' v'] r IH]; simpl; [discriminate|].
  destruct (key_eqb_spec k' k); [intros H; injection H as <-; subst; auto | auto].
Qed.

Lemma obj_get_none (o : props) (k : jstr) : obj_get o k = None <-> ~ In k (map fst o).
Proof.
  induction o as [|[k' v'] r IH]; simpl; [tauto|].
  destruct (key_eqb_spec k' k); [split; [discriminate | tauto] | rewrite IH; intuition].
Qed.

Lemma obj_get_app (o1 o2 : props) (k : jstr) :
  obj_get (o1 ++ o2) k = match obj_get o1 k with Some v => Some v | None => obj_get o2 k end.
Proof. induction o1 as [|[k' v'] r IH]; simpl; [reflexivity|]. now destruct (key_eqb k' k). Qed.

Lemma obj_replace_keys (o : props) (k : jstr) (v : jsval) :
  map fst (obj_replace o k v) = map fst o.
Proof. induction o as [|[k' v'] r IH]; simpl; [reflexivity|]. destruct (key_eqb k' k); simpl; congruence. Qed.

Lemma obj_get_replace (o : props) (k k' : jstr) (v : jsval) :
  obj_get (obj_replace o k v) k' =
  if key_eqb k k' then (match obj_get o k with Some _ => Some v | None => None end)
  else obj_get o k'.
Proof.
  induction o as [|[k0 v0] r IH]; simpl; [now destruct (key_eqb k k')|].
  destruct (key_eqb_spec k0 k) as [->|Hne]; simpl.
  - destruct (key_eqb k k'); reflexivity.
  - rewrite IH. destruct (key_eqb_spec k k'), (key_eqb_spec k0 k'); congruence.
Qed.

Lemma insert_index_in (n : N) (k : jstr) (v : jsval) (o : props) (x : jstr * jsval) :
  In x (insert_index n k v o) <-> x = (k, v) \/ In x o.
Proof.
  induction o as [|[k' v'] r IH]; simpl; [intuition congruence|].
  destruct (index_value k') as [m|]; [destruct (m <? n)%N|]; simpl; rewrite ?IH; intuition congruence.
Qed.

Lemma insert_index_keys (n : N) (k : jstr) (v : jsval) (o : props) :
  Permutation (map fst (insert_index n k v o)) (k :: map fst o).
Proof.
  induction o as [|[k' v'] r IH]; simpl; [reflexivity|].
  destruct (index_value k') as [m|]; [destruct (m <? n)%N|]; simpl; try reflexivity.
  rewrite IH. apply perm_swap.
Qed.

Lemma obj_get_insert_index (n : N) (k k' : jstr) (v : jsval) (o : props) :
  obj_get o k = None ->
  obj_get (insert_index n k v o) k' = if key_eqb k k' then Some v else obj_get o k'.
Proof.
  induction o as [|[k0 v0] r IH]; simpl; intros Hk; [reflexivity|].
  destruct (key_eqb_spec k0 k) as [|Hne]; [discriminate|].
  destruct (index_value k0) as [m|]; [destruct (m <? n)%N|]; simpl; rewrite ?IH by assumption;
    destruct (key_eqb_spec k k'), (key_eqb_spec k0 k'); congruence.
Qed.

(** [[Get]] after CreateDataProperty. *)
Lemma obj_get_set (o : props) (k k' : jstr) (v : jsval) :
  obj_get (obj_set o k v) k' = if key_eqb k k' then Some v else obj_get o k'.
Proof.
  unfold obj_set. destruct (obj_get o k) eqn:Hk.
  - rewrite obj_get_replace, Hk. reflexivity.
  - destruct (index_value k).
    + now apply obj_get_insert_index.
    + rewrite obj_get_app. destruct (key_eqb_spec k k') as [<-|].
      * now rewrite Hk; simpl; rewrite key_eqb_refl.
      * destruct (obj_get o k'); simpl; [reflexivity|].
        destruct (key_eqb_spec k k'); congruence.
Qed.

Lemma obj_set_keys (o : props) (k x : jstr) (v : jsval) :
  In x (map fst (obj_set o k v)) -> x = k \/ In x (map fst o).
Proof.
  unfold obj_set. destruct (obj_get o k).
  - rewrite obj_replace_keys. auto.
  - destruct (index_value k).
    + intros H. eapply Permutation_in in H; [|apply insert_index_keys]. simpl in H. intuition.
    + rewrite map_app, in_app_iff. simpl. intuition.
Qed.

(** ** CreateDataProperty keeps the invariant *)

Lemma ordered_keys (o o' : props) :
  map fst o = map fst o' -> ordered o -> ordered o'.
Proof.
  revert o'. induction o as [|[k v] r IH]; intros [|[k' v'] r'] Hk; simpl in *;
    try discriminate; [auto|].
  injection Hk as <- Hr. intros [Hf Ho]. split; [|now apply (IH r')].
  apply Forall_forall. intros [x y] Hin.
  assert (Hx : In x (map fst r)) by (rewrite Hr; apply (in_map fst _ (x, y)), Hin).
  apply in_map_iff in Hx as [[x' y'] [Hx' Hin']]. simpl in Hx'. subst x'.
  exact (proj1 (Forall_forall _ _) Hf _ Hin').
Qed.

Lemma index_value_inj (k k' : jstr) (n : N) :
  index_value k = Some n -> index_value k' = Some n -> k = k'.
Proof. intros H H'. apply index_value_some in H, H'. destruct H, H'. congruence. Qed.

Lemma ordered_insert_index (n : N) (k : jstr) (v : jsval) (o : props) :
  index_value k = Some n -> ~ In k (map fst o) -> ordered o ->
  ordered (insert_index n k v o).
Proof.
  intros Hn. induction o as [|[k' v'] r IH]; simpl; intros Hk Ho; [auto|].
  destruct Ho as [Hf Ho].
  destruct (index_value k') as [m|] eqn:Hm; [destruct (N.ltb_spec m n)|].
  - split; [|apply IH; tauto].
    apply Forall_forall. intros x Hx. apply insert_index_in in Hx as [->|Hx].
    + unfold follows. simpl. now rewrite Hm, Hn.
    + exact (proj1 (Forall_forall _ _) Hf _ Hx).
  - assert (Hfk : follows k k').
    { unfold follows. rewrite Hn, Hm.
      destruct (N.eq_dec m n) as [->|]; [|lia].
      destruct Hk. left. eapply index_value_inj; eauto. }
    simpl. split; [|split; auto].
    constructor; [exact Hfk|].
    eapply Forall_impl; [|exact Hf]. intros x Hx. eapply follows_trans; eauto.
  - simpl. split; [|split; auto].
    constructor; [unfold follows; simpl; now rewrite Hn, Hm|].
    eapply Forall_impl; [|exact Hf]. intros x Hx.
    eapply follows_trans; [|exact Hx]. unfold follows. now rewrite Hn, Hm.
Qed.

Lemma ordered_snoc_none (o : props) (k : jstr) (v : jsval) :
  index_value k = None -> ordered o -> ordered (o ++ [(k, v)]).
Proof.
  intros Hk. induction o as [|[k' v'] r IH]; simpl; [auto|].
  intros [Hf Ho]. split; [|auto].
  apply Forall_app. split; [exact Hf|]. constructor; [|constructor].
  unfold follows. simpl. rewrite Hk. now destruct (index_value k').
Qed.

Lemma obj_set_wf (o : props) (k : jstr) (v : jsval) : obj_wf o -> obj_wf (obj_set o k v).
Proof.
  intros [Ho Hd]. unfold obj_set. destruct (obj_get o k) eqn:Hk.
  - split; [eapply ordered_keys; [symmetry; apply obj_replace_keys | exact Ho]|].
    now rewrite obj_replace_keys.
  - apply obj_get_none in Hk. destruct (index_value k) eqn:Hn.
    + split; [now apply ordered_insert_index|].
      eapply Permutation_NoDup; [symmetry; apply insert_index_keys|]. now constructor.
    + split; [now apply ordered_snoc_none|].
      rewrite map_app. simpl. apply NoDup_app; auto using NoDup_cons, NoDup_nil.
      intros x Hx [<-|[]]. contradiction.
Qed.

Lemma obj_set_all_index (o : props) (k : jstr) (v : jsval) :
  is_array_index k = true -> all_index o -> all_index (obj_set o k v).
Proof.
  intros Hk Ho. unfold all_index in *. rewrite Forall_forall in *.
  intros [x y] Hin. apply (in_map fst) in Hin. apply obj_set_keys in Hin as [->|Hin]; [exact Hk|].
  apply in_map_iff in Hin as [[x' y'] [Hx Hin]]. simpl in Hx. subst x'. exact (Ho _ Hin).
Qed.

Lemma obj_replace_in (o : props) (k : jstr) (v : jsval) (x : jstr * jsval) :
  In x (obj_replace o k v) -> x = (k, v) \/ In x o.
Proof.
  induction o as [|[k' v'] r IH]; simpl; [tauto|].
  destruct (key_eqb_spec k' k) as [->|]; simpl; intuition.
Qed.

(** Every property of [obj_set o k v] is the new one or one of [o]. *)
Lemma obj_set_Forall (Q : jstr * jsval -> Prop) (o : props) (k : jstr) (v : jsval) :
  Forall Q o -> Q (k, v) -> Forall Q (obj_set o k v).
Proof.
  intros Ho Hq. rewrite Forall_forall in *. intros x Hin. unfold obj_set in Hin.
  destruct (obj_get o k); [apply obj_replace_in in Hin|destruct (index_value k)];
    [| apply insert_index_in in Hin | apply in_app_iff in Hin; simpl in Hin];
    intuition (subst; auto).
Qed.

(** Creating the properties of a well-formed object in its own order
    rebuilds it: [JSON.parse] gives back the object that was printed. *)
Lemma obj_set_snoc (p : props) (k : jstr) (v : jsval) :
  obj_wf (p ++ [(k, v)]) -> obj_set p k v = p ++ [(k, v)].
Proof.
  intros [Ho Hd]. unfold obj_set.
  rewrite map_app in Hd. simpl in Hd. apply NoDup_remove_2 in Hd. rewrite app_nil_r in Hd.
  replace (obj_get p k) with (@None jsval) by (symmetry; now apply obj_get_none).
  destruct (index_value k) as [n|] eqn:Hn; [|reflexivity].
  clear Hd. induction p as [|[k' v'] r IH]; simpl in *; [reflexivity|].
  destruct Ho as [Hf Ho]. apply Forall_app in Hf as [_ Hf]. inversion Hf as [|? ? Hk' _]; subst.
  unfold follows in Hk'. simpl in Hk'. rewrite Hn in Hk'.
  destruct (index_value k') as [m|]; [|contradiction].
  apply N.ltb_lt in Hk'. rewrite Hk', IH by exact Ho. reflexivity.
Qed.

Lemma obj_wf_prefix (p q : props) : obj_wf (p ++ q) -> obj_wf p.
Proof.
  intros [Ho Hd]. split.
  - clear Hd. induction p as [|[k v] r IH]; simpl in *; [auto|].
    destruct Ho as [Hf Ho]. apply Forall_app in Hf. tauto.
  - rewrite map_app in Hd. eapply NoDup_app_remove_r. exact Hd.
Qed.

Lemma fold_obj_set_self (p q : props) :
  obj_wf (p ++ q) ->
  fold_left (fun o kv => obj_set o (fst kv) (snd kv)) q p = p ++ q.
Proof.
  revert p. induction q as [|[k v] q IH]; intros p Hw; simpl; [now rewrite app_nil_r|].
  rewrite obj_set_snoc.
  - rewrite IH; [now rewrite <- app_assoc|]. now rewrite <- app_assoc.
  - apply (obj_wf_prefix _ q). now rewrite <- app_assoc.
Qed.

(** ** [Map] lemmas *)

Lemma map_get_set (m : jsmap) (k k' v : Z) :
  map_get (map_set m k v) k' = if k =? k' then Some v else map_get m k'.
Proof.
  induction m as [|[k0 v0] r IH]; simpl; [reflexivity|].
  destruct (Z.eqb_spec k0 k) as [->|]; simpl.
  - now destruct (k =? k').
  - rewrite IH. destruct (Z.eqb_spec k k'), (Z.eqb_spec k0 k'); congruence.
Qed.

Lemma map_set_keys (m : jsmap) (k v : Z) (x : Z) :
  In x (map fst (map_set m k v)) <-> x = k \/ In x (map fst m).
Proof.
  induction m as [|[k0 v0] r IH]; simpl; [intuition congruence|].
  destruct (Z.eqb_spec k0 k) as [->|]; simpl; [intuition congruence|].
  rewrite IH. intuition congruence.
Qed.

Lemma map_set_wf (m : jsmap) (k v : Z) : map_wf m -> map_wf (map_set m k v).
Proof.
  unfold map_wf. induction m as [|[k0 v0] r IH]; simpl; intros Hd.
  - constructor; [intros []|constructor].
  - inversion Hd as [|? ? Hn Hr]; subst.
    destruct (Z.eqb_spec k0 k) as [->|]; simpl; constructor; auto.
    rewrite map_set_keys. intuition congruence.
Qed.

Lemma map_of_entries_wf (l : list (Z * Z)) : map_wf (map_of_entries l).
Proof.
  unfold map_of_entries. assert (H : map_wf []) by constructor. revert H.
  generalize (@nil (Z * Z)). induction l as [|kv l IH]; simpl; auto using map_set_wf.
Qed.

Lemma map_set_values (Q : Z -> Prop) (m : jsmap) (k v : Z) :
  Forall (fun kv => Q (snd kv)) m -> Q v -> Forall (fun kv => Q (snd kv)) (map_set m k v).
Proof.
  intros Hm Hv. induction Hm as [|[k' v'] r Hx Hr IH]; cbn; [repeat constructor; exact Hv|].
  destruct (k' =? k); constructor; auto.
Qed.

(** [new Map(entries)] holds only values of the entries. *)
Lemma map_of_entries_values (Q : Z -> Prop) (l : list (Z * Z)) :
  Forall (fun kv => Q (snd kv)) l -> Forall (fun kv => Q (snd kv)) (map_of_entries l).
Proof.
  unfold map_of_entries. intros Hl.
  assert (H0 : Forall (fun kv => Q (snd kv)) (@nil (Z * Z))) by constructor.
  revert H0. generalize (@nil (Z * Z)).
  induction Hl as [|x l Hx _ IH]; intros m Hm; cbn; [exact Hm|]. apply IH, map_set_values; assumption.
Qed.

Lemma map_set_index_keys (m : jsmap) (k v : Z) :
  0 <= k < 4294967295 -> index_keys m -> index_keys (map_set m k v).
Proof.
  intros Hkr Hm. unfold index_keys in *. rewrite Forall_forall in *.
  intros [x y] Hin. apply (in_map fst) in Hin. apply map_set_keys in Hin as [->|Hin]; [exact Hkr|].
  apply in_map_iff in Hin as [[x' y'] [Hx Hin]]. cbn in Hx. subst. exact (Hm _ Hin).
Qed.

#[export] Hint Resolve map_set_wf map_of_entries_wf obj_set_wf map_set_index_keys : tokdb.

(** ** [Object.fromEntries] *)

Lemma lookup_str_num_units (m : jsmap) (k : Z) : lookup_str m (num_units k) = map_get m k.
Proof.
  induction m as [|[k0 v0] r IH]; simpl; [reflexivity|].
  destruct (key_eqb_spec (num_units k0) (num_units k)) as [E|E].
  - apply num_units_inj in E. subst. now rewrite Z.eqb_refl.
  - destruct (Z.eqb_spec k0 k); [congruence | exact IH].
Qed.

Lemma lookup_str_some (m : jsmap) (s : jstr) (v : Z) :
  lookup_str m s = Some v -> exists k, s = num_units k /\ map_get m k = Some v.
Proof.
  intros H. induction m as [|[k0 v0] r IH]; simpl in *; [discriminate|].
  destruct (key_eqb_spec (num_units k0) s) as [<-|].
  - exists k0. now rewrite Z.eqb_refl.
  - destruct (IH H) as [k [-> Hk]]. exists k. split; [reflexivity|].
    destruct (Z.eqb_spec k0 k); [congruence | exact Hk].
Qed.

Lemma lookup_str_equiv (m1 m2 : jsmap) (s : jstr) :
  map_equiv m1 m2 -> lookup_str m1 s = lookup_str m2 s.
Proof.
  intros He. destruct (lookup_str m1 s) as [v|] eqn:H1.
  - apply lookup_str_some in H1 as [k [-> Hk]]. now rewrite lookup_str_num_units, <- He.
  - destruct (lookup_str m2 s) as [v|] eqn:H2; [|reflexivity].
    apply lookup_str_some in H2 as [k [-> Hk]].
    rewrite lookup_str_num_units, He in H1. congruence.
Qed.

Lemma fold_fromEntries_get (m : jsmap) (o : props) (s : jstr) :
  map_wf m ->
  obj_get (fold_left (fun o kv => obj_set o (num_units (fst kv)) (JNum (snd kv))) m o) s =
  match lookup_str m s with Some v => Some (JNum v) | None => obj_get o s end.
Proof.
  unfold map_wf. revert o. induction m as [|[k v] r IH]; intros o Hd; simpl; [reflexivity|].
  inversion Hd as [|? ? Hn Hr]; subst. rewrite IH by exact Hr. rewrite obj_get_set.
  destruct (key_eqb_spec (num_units k) s) as [<-|]; [|reflexivity].
  rewrite lookup_str_num_units.
  destruct (map_get r k) eqn:E; [|reflexivity].
  exfalso. apply Hn. clear -E. induction r as [|[k0 v0] r IH]; simpl in *; [discriminate|].
  destruct (Z.eqb_spec k0 k); auto.
Qed.

(** [[Get]] on [Object.fromEntries(m)] reads the map through [String]. *)
Lemma fromEntries_get (m : jsmap) (k : Z) :
  map_wf m -> obj_get (fromEntries m) (num_units k) = option_map JNum (map_get m k).
Proof.
  intros Hw. unfold fromEntries. rewrite fold_fromEntries_get by exact Hw.
  rewrite lookup_str_num_units. now destruct (map_get m k).
Qed.

Lemma is_array_index_num_units (k : Z) :
  0 <= k < 4294967295 -> is_array_index (num_units k) = true.
Proof.
  intros H. unfold is_array_index. rewrite num_units_nonneg by lia.
  rewrite index_value_nat_units; [reflexivity|]. lia.
Qed.

Lemma fromEntries_wf (m : jsmap) : obj_wf (fromEntries m).
Proof.
  unfold fromEntries. assert (H : obj_wf []) by (split; [exact I | constructor]).
  revert H. generalize (@nil (jstr * jsval)). induction m; simpl; auto using obj_set_wf.
Qed.

Lemma fromEntries_all_index (m : jsmap) : index_keys m -> all_index (fromEntries m).
Proof.
  unfold fromEntries, index_keys. assert (H : all_index []) by constructor.
  revert H. generalize (@nil (jstr * jsval)).
  induction m as [|[k v] r IH]; intros o Ho Hk; simpl; [exact Ho|].
  inversion Hk; subst. apply IH; [|assumption].
  apply obj_set_all_index; [now apply is_array_index_num_units | exact Ho].
Qed.

(** ** Objects whose keys are all array indices are determined by their
    properties: their order is the numeric order of the keys. *)

Lemma all_index_value (o : props) (k : jstr) (v : jsval) :
  all_index o -> In (k, v) o -> exists n, index_value k = Some n.
Proof.
  intros Ho Hin. apply (proj1 (Forall_forall _ _) Ho) in Hin. simpl in Hin.
  unfold is_array_index in Hin. destruct (index_value k); [eauto | discriminate].
Qed.

Lemma ordered_head_lt (k k' : jstr) (v v' : jsval) (r : props) (n n' : N) :
  ordered ((k, v) :: r) -> In (k', v') r ->
  index_value k = Some n -> index_value k' = Some n' -> (n < n')%N.
Proof.
  intros [Hf _] Hin Hn Hn'. apply (proj1 (Forall_forall _ _) Hf) in Hin.
  unfold follows in Hin. simpl in Hin. now rewrite Hn, Hn' in Hin.
Qed.

Lemma ordered_index_unique (o1 o2 : props) :
  ordered o1 -> ordered o2 -> all_index o1 -> all_index o2 ->
  (forall s, obj_get o1 s = obj_get o2 s) -> o1 = o2.
Proof.
  revert o2. induction o1 as [|[k1 v1] r1 IH]; intros [|[k2 v2] r2] H1 H2 I1 I2 Hg.
  - reflexivity.
  - specialize (Hg k2). simpl in Hg. rewrite key_eqb_refl in Hg. discriminate.
  - specialize (Hg k1). simpl in Hg. rewrite key_eqb_refl in Hg. discriminate.
  - destruct (all_index_value _ k1 v1 I1 (or_introl eq_refl)) as [n1 Hn1].
    destruct (all_index_value _ k2 v2 I2 (or_introl eq_refl)) as [n2 Hn2].
    (* the smaller head would have to occur after the larger one *)
    assert (Hlt : forall ka va kb vb ra rb na nb,
               ordered ((kb, vb) :: rb) -> all_index ((kb, vb) :: rb) ->
               index_value ka = Some na -> index_value kb = Some nb -> (na < nb)%N ->
               obj_get ((kb, vb) :: rb) ka = obj_get ((ka, va) :: ra) ka -> False).
    { intros ka va kb vb ra rb na nb Hob Iob Hna Hnb Hab E.
      simpl in E. rewrite key_eqb_refl in E.
      destruct (key_eqb_spec kb ka) as [<-|]; [rewrite Hna in Hnb; injection Hnb; lia|].
      apply obj_get_in in E. pose proof (ordered_head_lt _ _ _ _ _ _ _ Hob E Hnb Hna). lia. }
    destruct (N.lt_total n1 n2) as [Hc|[<-|Hc]].
    + exfalso. eapply (Hlt k1 v1 k2 v2 r1 r2); eauto.
    + assert (k1 = k2) as <- by (eapply index_value_inj; eauto).
      pose proof (Hg k1) as Hv. simpl in Hv. rewrite key_eqb_refl in Hv. injection Hv as <-.
      f_equal. apply IH; [apply H1 | apply H2 | now inversion I1 | now inversion I2 |].
      intros s. specialize (Hg s). simpl in Hg.
      destruct (key_eqb_spec k1 s) as [E|]; [subst s|exact Hg].
      destruct H1 as [F1 _], H2 as [F2 _].
      assert (Hnone : forall r, Forall (fun kv => follows k1 (fst kv)) r -> obj_get r k1 = None).
      { intros r F. apply obj_get_none. intros Hin. apply in_map_iff in Hin as [[x y] [Hx Hin]]. simpl in Hx. subst x.
        apply (proj1 (Forall_forall _ _) F) in Hin. unfold follows in Hin. simpl in Hin.
        rewrite Hn1 in Hin. lia. }
      now rewrite !Hnone.
    + exfalso. eapply (Hlt k2 v2 k1 v1 r2 r1); eauto.
Qed.

(** [Object.fromEntries] of two equivalent maps whose keys are array
    indices gives the same object, whatever the insertion history. *)
Lemma fromEntries_equiv (m1 m2 : jsmap) :
  map_wf m1 -> map_wf m2 -> index_keys m1 -> index_keys m2 ->
  map_equiv m1 m2 -> fromEntries m1 = fromEntries m2.
Proof.
  intros W1 W2 K1 K2 He. apply ordered_index_unique.
  - apply fromEntries_wf.
  - apply fromEntries_wf.
  - now apply fromEntries_all_index.
  - now apply fromEntries_all_index.
  - intros s. unfold fromEntries. rewrite !fold_fromEntries_get by assumption.
    now rewrite (lookup_str_equiv m1 m2 s He).
Qed.


(** ** Reading the properties of [Object.fromEntries] back *)

Lemma obj_get_nodup (o : props) (k : jstr) (v : jsval) :
  NoDup (map fst o) -> In (k, v) o -> obj_get o k = Some v.
Proof.
  induction o as [|[k' v'] r IH]; intros Hd Hin; [destruct Hin|].
  inversion_clear Hd as [|? ? Hn Hr]. cbn. destruct Hin as [E|Hin].
  - injection E as -> ->. now rewrite key_eqb_refl.
  - destruct (key_eqb_spec k' k) as [->|]; [|auto].
    exfalso. apply Hn. now apply (in_map fst) in Hin.
Qed.

(** A property of [Object.fromEntries(m)] is an entry of [m] with its
    key printed. *)
Lemma fromEntries_member (m : jsmap) (kv : jstr * jsval) :
  map_wf m -> In kv (fromEntries m) ->
  exists k v, kv = (num_units k, JNum v) /\ map_get m k = Some v.
Proof.
  intros Hw Hin. destruct kv as [s x].
  apply obj_get_nodup in Hin; [|apply fromEntries_wf].
  unfold fromEntries in Hin. rewrite fold_fromEntries_get in Hin by exact Hw.
  destruct (lookup_str m s) as [v|] eqn:E; [|discriminate]. injection Hin as <-.
  apply lookup_str_some in E as [k [-> Hk]]. eauto.
Qed.

Lemma map_get_in (m : jsmap) (k v : Z) : map_get m k = Some v -> In (k, v) m.
Proof.
  induction m as [|[k' v'] r IH]; cbn; [discriminate|].
  destruct (Z.eqb_spec k' k) as [->|]; intros H; [injection H as ->; now left | right; auto].
Qed.

Lemma map_set_new (m : jsmap) (k v : Z) : ~ In k (map fst m) -> map_set m k v = m ++ [(k, v)].
Proof.
  induction m as [|[k' v'] r IH]; intros Hn; [reflexivity|]. cbn in *.
  destruct (Z.eqb_spec k' k); [tauto|]. rewrite IH; tauto.
Qed.

(** [new Map(entries)] with distinct keys keeps the entries in order. *)
Lemma map_of_entries_nodup (l : list (Z * Z)) : NoDup (map fst l) -> map_of_entries l = l.
Proof.
  unfold map_of_entries. change (NoDup (map fst ([] ++ l)) -> fold_left
    (fun m kv => map_set m (fst kv) (snd kv)) l [] = [] ++ l).
  generalize (@nil (Z * Z)) as acc.
  induction l as [|[k v] l IH]; intros acc Hd; cbn; [now rewrite !app_nil_r|].
  rewrite map_set_new.
  - rewrite IH; [now rewrite <- app_assoc|]. now rewrite <- app_assoc.
  - intros Hin. rewrite map_app in Hd. cbn in Hd. apply NoDup_remove_2 in Hd.
    apply Hd, in_or_app. now left.
Qed.


(** ** [map_equiv] is a setoid equality on maps; [Map.prototype.set] and
    [Map.prototype.get] respect it *)

Lemma map_equiv_refl (m : jsmap) : map_equiv m m.
Proof. intros k. reflexivity. Qed.

Lemma map_equiv_sym (m1 m2 : jsmap) : map_equiv m1 m2 -> map_equiv m2 m1.
Proof. intros H k. symmetry. apply H. Qed.

Lemma map_equiv_trans (m1 m2 m3 : jsmap) : map_equiv m1 m2 -> map_equiv m2 m3 -> map_equiv m1 m3.
Proof. intros H1 H2 k. now rewrite H1. Qed.

Add Parametric Relation : jsmap map_equiv
  reflexivity proved by map_equiv_refl
  symmetry proved by map_equiv_sym
  transitivity proved by map_equiv_trans
  as map_equiv_rel.

Add Parametric Morphism : map_set with signature map_equiv ==> eq ==> eq ==> map_equiv as map_set_morph.
Proof. intros m1 m2 H k v x. rewrite !map_get_set. now rewrite H. Qed.

Add Parametric Morphism : map_get with signature map_equiv ==> eq ==> eq as map_get_morph.
Proof. intros m1 m2 H k. apply H. Qed.
