(* ===== verification/Json.v ===== *)
(** * [JSON.stringify] and [JSON.parse]

    [packMsg] (RTCTokenHelper.ts line 63) and [serialize] (line 78)
    print with [JSON.stringify]; [parse] (lines 96 and 98) reads with
    [JSON.parse].  Both are the ECMAScript built-ins, modelled from the
    standard (ECMA-262, "JSON Object"): QuoteJSONString escapes the
    quote, the backslash, the control characters and the lone
    surrogates; objects print their properties in [[OwnPropertyKeys]]
    order with no white space.  The parser follows the JSON grammar
    (ECMA-404) and builds objects with CreateDataProperty ([obj_set]).
    It is a fixpoint with fuel; [json_parse] gives it one unit per code
    unit of the text and one more, which is enough ([JsonParse.parse_value_enough]):
    every recursive call consumes at least one code unit.  A number with a fraction or an
    exponent, or an integer beyond [2^53 - 1], is a valid JSON number
    that this model does not represent: the parser answers
    [Err Unsupported] there. *)

From Stdlib Require Import ZArith List Lia String Bool.
From S2P Require Import Prelude JsString JsObject.
Import ListNotations.
Local Open Scope Z_scope.
Local Open Scope bool_scope.
Local Open Scope res_scope.

(** ** [JSON.stringify] *)

Definition hex_digit (d : Z) : Z := if d <? 10 then 48 + d else 87 + d.

(** UnicodeEscape(c): [\u] and four lower-case hexadecimal digits. *)
Definition unicode_escape (c : Z) : jstr :=
  [92; 117; hex_digit (c / 4096 mod 16); hex_digit (c / 256 mod 16);
   hex_digit (c / 16 mod 16); hex_digit (c mod 16)].

Definition is_high_surrogate (c : Z) : bool := (55296 <=? c) && (c <=? 56319).
Definition is_low_surrogate (c : Z) : bool := (56320 <=? c) && (c <=? 57343).

(** The escape of one code point that is not part of a surrogate pair. *)
Definition quote_unit (c : Z) : jstr :=
  if c =? 8 then [92; 98]            (* backspace *)
  else if c =? 9 then [92; 116]      (* tab *)
  else if c =? 10 then [92; 110]     (* line feed *)
  else if c =? 12 then [92; 102]     (* form feed *)
  else if c =? 13 then [92; 114]     (* carriage return *)
  else if c =? 34 then [92; 34]      (* quotation mark *)
  else if c =? 92 then [92; 92]      (* reverse solidus *)
  else if (c <? 32) || is_high_surrogate c || is_low_surrogate c then unicode_escape c
  else [c].

(** The body of QuoteJSONString: a surrogate pair is one code point and
    is copied; a lone surrogate is escaped. *)
Fixpoint quote_body (s : jstr) : jstr :=
  match s with
  | [] => []
  | c :: r =>
      match r with
      | d :: r' =>
          if is_high_surrogate c && is_low_surrogate d then c :: d :: quote_body r'
          else quote_unit c ++ quote_body r
      | [] => quote_unit c
      end
  end.

Definition quote (s : jstr) : jstr := 34 :: quote_body s ++ [34].

Fixpoint join (sep : jstr) (l : list jstr) : jstr :=
  match l with
  | [] => []
  | [x] => x
  | x :: r => x ++ sep ++ join sep r
  end.

Fixpoint stringify (v : jsval) : jstr :=
  match v with
  | JNull => js "null"
  | JBool true => js "true"
  | JBool false => js "false"
  | JNum n => num_units n
  | JStr s => quote s
  | JArr l => [91] ++ join [44] (map stringify l) ++ [93]
  | JObj o => [123] ++ join [44] (map (fun kv => quote (fst kv) ++ 58 :: stringify (snd kv)) o) ++ [125]
  end.

(** ** [JSON.parse] *)

Definition is_ws (c : Z) : bool := (c =? 32) || (c =? 9) || (c =? 10) || (c =? 13).

Fixpoint skip_ws (s : jstr) : jstr :=
  match s with
  | c :: r => if is_ws c then skip_ws r else s
  | [] => []
  end.

Definition hex_value (c : Z) : option Z :=
  if (48 <=? c) && (c <=? 57) then Some (c - 48)
  else if (97 <=? c) && (c <=? 102) then Some (c - 87)
  else if (65 <=? c) && (c <=? 70) then Some (c - 55)
  else None.

(** The code units of a string literal after its opening quote, and
    what follows the closing quote. *)
Fixpoint parse_string_body (s : jstr) : result (jstr * jstr) :=
  match s with
  | [] => Err SyntaxError
  | c :: r =>
      if c =? 34 then Ok ([], r)
      else if c =? 92 then
        match r with
        | [] => Err SyntaxError
        | e :: r =>
            let esc u := '(b, r') <- parse_string_body r ;; Ok (u :: b, r') in
            if e =? 34 then esc 34 else if e =? 92 then esc 92
            else if e =? 47 then esc 47 else if e =? 98 then esc 8
            else if e =? 102 then esc 12 else if e =? 110 then esc 10
            else if e =? 114 then esc 13 else if e =? 116 then esc 9
            else if e =? 117 then
              match r with
              | h1 :: h2 :: h3 :: h4 :: r' =>
                  match hex_value h1, hex_value h2, hex_value h3, hex_value h4 with
                  | Some a, Some b, Some c, Some d =>
                      '(bd, r'') <- parse_string_body r' ;;
                      Ok ((a * 4096 + b * 256 + c * 16 + d) :: bd, r'')
                  | _, _, _, _ => Err SyntaxError
                  end
              | _ => Err SyntaxError
              end
            else Err SyntaxError
        end
      else if c <? 32 then Err SyntaxError
      else '(b, r') <- parse_string_body r ;; Ok (c :: b, r')
  end.

Fixpoint span_digits (s : jstr) : jstr * jstr :=
  match s with
  | c :: r => if is_digit c then let '(d, r') := span_digits r in (c :: d, r') else ([], s)
  | [] => ([], [])
  end.

(** A fraction: [Some (present, rest)] when well formed. *)
Definition skip_frac (s : jstr) : option (bool * jstr) :=
  match s with
  | c :: r =>
      if c =? 46 then
        let '(d, r') := span_digits r in
        match d with [] => None | _ => Some (true, r') end
      else Some (false, s)
  | [] => Some (false, [])
  end.

(** An exponent: [Some (present, rest)] when well formed. *)
Definition skip_exp (s : jstr) : option (bool * jstr) :=
  match s with
  | e :: r =>
      if (e =? 101) || (e =? 69) then
        let r1 := match r with
                  | c :: r1 => if (c =? 43) || (c =? 45) then r1 else r
                  | [] => r
                  end in
        let '(d, r') := span_digits r1 in
        match d with [] => None | _ => Some (true, r') end
      else Some (false, s)
  | [] => Some (false, [])
  end.

Definition split_minus (s : jstr) : bool * jstr :=
  match s with
  | c :: r => if c =? 45 then (true, r) else (false, s)
  | [] => (false, [])
  end.

(** The integer part: [0] alone, or a non-zero digit and more digits. *)
Definition int_part (s : jstr) : option (jstr * jstr) :=
  match s with
  | c :: r => if c =? 48 then Some ([48], r) else if is_digit c then Some (span_digits s) else None
  | [] => None
  end.

(** [-]? ([0] | [1-9][0-9]* ) fraction? exponent? *)
Definition parse_number (s : jstr) : result (Z * jstr) :=
  let '(neg, s1) := split_minus s in
  match int_part s1 with
  | None => Err SyntaxError
  | Some (ds, r) =>
      match skip_frac r with
      | None => Err SyntaxError
      | Some (fr, r2) =>
          match skip_exp r2 with
          | None => Err SyntaxError
          | Some (ex, r3) =>
              if fr || ex then Err Unsupported
              else match units_uint ds with
                   | Some d =>
                       let z := if neg then - Z.of_N (N.of_uint d) else Z.of_N (N.of_uint d) in
                       if safe_int z then Ok (z, r3) else Err Unsupported
                   | None => Err SyntaxError
                   end
          end
      end
  end.

Definition starts_with (p s : jstr) : option jstr :=
  if list_eq_dec Z.eq_dec (firstn (List.length p) s) p then Some (skipn (List.length p) s) else None.

(** The elements of an array after its [[], given the value parser. *)
Fixpoint parse_elements (pv : jstr -> result (jsval * jstr)) (fuel : nat) (s : jstr)
  : result (list jsval * jstr) :=
  match fuel with
  | O => Err Unsupported
  | S f =>
      '(v, r) <- pv s ;;
      match skip_ws r with
      | c :: r' =>
          if c =? 44 then '(vs, r'') <- parse_elements pv f r' ;; Ok (v :: vs, r'')
          else if c =? 93 then Ok ([v], r')
          else Err SyntaxError
      | [] => Err SyntaxError
      end
  end.

(** The members of an object after its [{]; properties are created in
    the order of the text. *)
Fixpoint parse_members (pv : jstr -> result (jsval * jstr)) (fuel : nat) (o : props) (s : jstr)
  : result (props * jstr) :=
  match fuel with
  | O => Err Unsupported
  | S f =>
      match skip_ws s with
      | c :: r =>
          if c =? 34 then
            '(k, r1) <- parse_string_body r ;;
            match skip_ws r1 with
            | c1 :: r2 =>
                if c1 =? 58 then
                  '(v, r3) <- pv r2 ;;
                  let o' := obj_set o k v in
                  match skip_ws r3 with
                  | c3 :: r4 =>
                      if c3 =? 44 then parse_members pv f o' r4
                      else if c3 =? 125 then Ok (o', r4)
                      else Err SyntaxError
                  | [] => Err SyntaxError
                  end
                else Err SyntaxError
            | [] => Err SyntaxError
            end
          else Err SyntaxError
      | [] => Err SyntaxError
      end
  end.

(** The literals [null], [true] and [false]. *)
Definition parse_literal (s : jstr) : result (jsval * jstr) :=
  match starts_with (js "null") s with
  | Some r' => Ok (JNull, r')
  | None =>
      match starts_with (js "true") s with
      | Some r' => Ok (JBool true, r')
      | None =>
          match starts_with (js "false") s with
          | Some r' => Ok (JBool false, r')
          | None => Err SyntaxError
          end
      end
  end.

(** Closing bracket right after the opening one: the empty array or object. *)
Definition closes (c : Z) (s : jstr) : option jstr :=
  match skip_ws s with
  | d :: r => if d =? c then Some r else None
  | [] => None
  end.

Fixpoint parse_value (fuel : nat) (s : jstr) : result (jsval * jstr) :=
  match fuel with
  | O => Err Unsupported
  | S f =>
      let s := skip_ws s in
      match s with
      | c :: r =>
          if c =? 123 then
            match closes 125 r with
            | Some r' => Ok (JObj [], r')
            | None => '(o, r') <- parse_members (parse_value f) f [] r ;; Ok (JObj o, r')
            end
          else if c =? 91 then
            match closes 93 r with
            | Some r' => Ok (JArr [], r')
            | None => '(l, r') <- parse_elements (parse_value f) f r ;; Ok (JArr l, r')
            end
          else if c =? 34 then '(b, r') <- parse_string_body r ;; Ok (JStr b, r')
          else if (c =? 45) || is_digit c then '(n, r') <- parse_number s ;; Ok (JNum n, r')
          else parse_literal s
      | [] => Err SyntaxError
      end
  end.

(** [JSON.parse(text)]: one value, then only white space. *)
Definition json_parse (s : jstr) : result jsval :=
  '(v, r) <- parse_value (S (List.length s)) s ;;
  match skip_ws r with
  | [] => Ok v
  | _ => Err SyntaxError
  end.

(** ** Round trip of the printer and the parser *)

(** What may follow a value inside a JSON text: the end, a comma or a
    closing bracket. *)
Definition delim (r : jstr) : Prop :=
  match r with [] => True | c :: _ => c = 44 \/ c = 93 \/ c = 125 end.

(** Values that [JSON.stringify] prints and [JSON.parse] reads back
    unchanged: code units in range, safe integers, and objects in the
    property order of the model, without repeated keys. *)
Fixpoint json_ok (v : jsval) : Prop :=
  match v with
  | JNull | JBool _ => True
  | JNum n => safe_int n = true
  | JStr s => jstr_ok s = true
  | JArr l => (fix all (l : list jsval) : Prop :=
                 match l with [] => True | x :: r => json_ok x /\ all r end) l
  | JObj o => obj_wf o /\
              (fix all (o : props) : Prop :=
                 match o with
                 | [] => True
                 | (k, x) :: r => jstr_ok k = true /\ json_ok x /\ all r
                 end) o
  end.

Definition parses (pv : jstr -> result (jsval * jstr)) (v : jsval) : Prop :=
  forall rest, delim rest -> pv (stringify v ++ rest) = Ok (v, rest).

(** One property of a printed object: its quoted key, a colon, its value. *)
Definition member (kv : jstr * jsval) : jstr := quote (fst kv) ++ 58 :: stringify (snd kv).

(** The first code unit of a printed value opens it: it is not white
    space and closes nothing. *)
Definition opener (c : Z) : Prop :=
  is_ws c = false /\ c <> 44 /\ c <> 93 /\ c <> 125.

Lemma hex_value_hex_digit (d : Z) : 0 <= d < 16 -> hex_value (hex_digit d) = Some d.
Proof.
  intros H.
  assert (d = 0 \/ d = 1 \/ d = 2 \/ d = 3 \/ d = 4 \/ d = 5 \/ d = 6 \/ d = 7 \/ d = 8 \/
          d = 9 \/ d = 10 \/ d = 11 \/ d = 12 \/ d = 13 \/ d = 14 \/ d = 15) as Hd by lia.
  repeat (destruct Hd as [->|Hd]; [reflexivity|]). subst. reflexivity.
Qed.

Lemma parse_string_body_raw (c : Z) (r : jstr) :
  32 <= c -> c <> 34 -> c <> 92 ->
  parse_string_body (c :: r) = '(b, r') <- parse_string_body r ;; Ok (c :: b, r').
Proof.
  intros H1 H2 H3. simpl.
  destruct (Z.eqb_spec c 34); [lia|]. destruct (Z.eqb_spec c 92); [lia|].
  destruct (Z.ltb_spec c 32); [lia | reflexivity].
Qed.

Lemma unicode_escape_digits (c : Z) :
  0 <= c < 65536 ->
  (c / 4096 mod 16) * 4096 + (c / 256 mod 16) * 256 + (c / 16 mod 16) * 16 + c mod 16 = c.
Proof.
  intros H.
  rewrite (Z.mod_small (c / 4096) 16) by (split; [apply Z.div_pos | apply Z.div_lt_upper_bound]; lia).
  pose proof (Z.div_mod c 16 ltac:(lia)) as E1.
  pose proof (Z.div_mod (c / 16) 16 ltac:(lia)) as E2.
  pose proof (Z.div_mod (c / 256) 16 ltac:(lia)) as E3.
  rewrite Z.div_div in E2, E3 by lia. change (16 * 16) with 256 in E2.
  change (256 * 16) with 4096 in E3. lia.
Qed.

(** Each escape of QuoteJSONString reads back as the code unit. *)
Lemma parse_quote_unit (c : Z) (x : jstr) :
  code_unit_ok c = true ->
  parse_string_body (quote_unit c ++ x) = '(b, r) <- parse_string_body x ;; Ok (c :: b, r).
Proof.
  unfold code_unit_ok. intros Hc. apply andb_true_iff in Hc as [H0 H1].
  apply Z.leb_le in H0. apply Z.ltb_lt in H1. unfold quote_unit.
  destruct (Z.eqb_spec c 8) as [->|]; [reflexivity|].
  destruct (Z.eqb_spec c 9) as [->|]; [reflexivity|].
  destruct (Z.eqb_spec c 10) as [->|]; [reflexivity|].
  destruct (Z.eqb_spec c 12) as [->|]; [reflexivity|].
  destruct (Z.eqb_spec c 13) as [->|]; [reflexivity|].
  destruct (Z.eqb_spec c 34) as [->|]; [reflexivity|].
  destruct (Z.eqb_spec c 92) as [->|]; [reflexivity|].
  destruct ((c <? 32) || is_high_surrogate c || is_low_surrogate c) eqn:Hs.
  - unfold unicode_escape. simpl.
    rewrite !hex_value_hex_digit by (apply Z.mod_pos_bound; lia).
    rewrite unicode_escape_digits by lia. reflexivity.
  - apply orb_false_iff in Hs as [Hs _]. apply orb_false_iff in Hs as [Hs _].
    apply Z.ltb_ge in Hs. simpl app. now apply parse_string_body_raw.
Qed.

Lemma quote_body_cons2 (c d : Z) (r : jstr) :
  quote_body (c :: d :: r) =
  if is_high_surrogate c && is_low_surrogate d then c :: d :: quote_body r
  else quote_unit c ++ quote_body (d :: r).
Proof. reflexivity. Qed.

Lemma parse_quote_body (s x : jstr) :
  jstr_ok s = true -> parse_string_body (quote_body s ++ 34 :: x) = Ok (s, x).
Proof.
  remember (List.length s) as n eqn:Hn. assert (Hle : (List.length s <= n)%nat) by lia.
  clear Hn. revert s Hle. induction n as [|n IH]; intros s Hle Hok.
  - destruct s; [reflexivity | simpl in Hle; lia].
  - destruct s as [|c r]; [reflexivity|]. simpl in Hok. apply andb_true_iff in Hok as [Hc Hr].
    destruct r as [|d r'].
    + simpl quote_body. rewrite parse_quote_unit by exact Hc. reflexivity.
    + rewrite quote_body_cons2. destruct (is_high_surrogate c && is_low_surrogate d) eqn:Hp.
      * apply andb_true_iff in Hp as [Hh Hl]. unfold is_high_surrogate, is_low_surrogate in *.
        apply andb_true_iff in Hh as [Hh _], Hl as [Hl _]. apply Z.leb_le in Hh, Hl.
        simpl in Hr. apply andb_true_iff in Hr as [_ Hr'].
        simpl app. rewrite parse_string_body_raw by lia. rewrite parse_string_body_raw by lia.
        simpl in Hle. rewrite IH by (auto; lia). reflexivity.
      * rewrite <- app_assoc, parse_quote_unit by exact Hc.
        simpl in Hle. rewrite IH by (auto; simpl; lia). reflexivity.
Qed.

Lemma parse_quote (s x : jstr) :
  jstr_ok s = true -> parse_string_body (quote_body s ++ [34] ++ x) = Ok (s, x).
Proof. apply parse_quote_body. Qed.

Lemma delim_no_digit (c : Z) (r : jstr) : delim (c :: r) -> is_digit c = false.
Proof. intros [-> | [-> | ->]]; reflexivity. Qed.

Lemma skip_frac_delim (r : jstr) : delim r -> skip_frac r = Some (false, r).
Proof. destruct r as [|c r]; [reflexivity|]. intros [-> | [-> | ->]]; reflexivity. Qed.

Lemma skip_exp_delim (r : jstr) : delim r -> skip_exp r = Some (false, r).
Proof. destruct r as [|c r]; [reflexivity|]. intros [-> | [-> | ->]]; reflexivity. Qed.

Lemma span_digits_app (d r : jstr) :
  forallb is_digit d = true -> delim r -> span_digits (d ++ r) = (d, r).
Proof.
  intros Hd Hr. induction d as [|c d IH]; cbn [app forallb span_digits] in *.
  - destruct r as [|c r]; [reflexivity|]. cbn [span_digits]. now rewrite (delim_no_digit c r Hr).
  - apply andb_true_iff in Hd as [Hc Hd]. rewrite Hc, IH by exact Hd. reflexivity.
Qed.

Lemma int_part_nat_units (m : N) (r : jstr) :
  delim r -> int_part (nat_units m ++ r) = Some (nat_units m, r).
Proof.
  intros Hr. pose proof (nat_units_nonempty m) as Hne.
  pose proof (uint_units_digits (N.to_uint m)) as Hd. fold (nat_units m) in Hd.
  destruct (nat_units m) as [|c r0] eqn:E; [congruence|]. cbn [app int_part].
  destruct (Z.eqb_spec c 48) as [->|].
  - destruct (nat_units_leading_zero m r0 E) as [_ ->]. reflexivity.
  - cbn [forallb] in Hd. apply andb_true_iff in Hd as [Hc Hd']. rewrite Hc.
    change (c :: r0 ++ r) with ((c :: r0) ++ r). rewrite span_digits_app; [reflexivity| |exact Hr].
    cbn [forallb]. now rewrite Hc, Hd'.
Qed.

(** The numeral of a safe integer reads back as that integer. *)
Lemma parse_number_num_units (z : Z) (r : jstr) :
  safe_int z = true -> delim r -> parse_number (num_units z ++ r) = Ok (z, r).
Proof.
  intros Hs Hr. unfold parse_number, num_units.
  assert (Hdig : forall m, split_minus (nat_units m ++ r) = (false, nat_units m ++ r)).
  { intros m. pose proof (nat_units_nonempty m). pose proof (nat_units_no_sign m).
    destruct (nat_units m) as [|c r0]; [congruence|]. simpl.
    destruct (Z.eqb_spec c 45) as [->|]; [|reflexivity]. destruct (H0 r0); congruence. }
  assert (Hval : forall m, units_uint (nat_units m) = Some (N.to_uint m)).
  { intros m. apply units_uint_uint_units. }
  destruct (Z.ltb_spec z 0).
  - cbn [app split_minus]. rewrite Z.eqb_refl.
    rewrite int_part_nat_units, skip_frac_delim, skip_exp_delim, Hval by exact Hr. simpl.
    rewrite nat_units_of_uint, Z2N.id by lia. replace (- - z) with z by lia. now rewrite Hs.
  - rewrite Hdig, int_part_nat_units, skip_frac_delim, skip_exp_delim, Hval by exact Hr. simpl.
    rewrite nat_units_of_uint, Z2N.id by lia. now rewrite Hs.
Qed.

Lemma json_ok_arr (l : list jsval) : json_ok (JArr l) <-> Forall json_ok l.
Proof.
  simpl. induction l as [|x l IH]; [split; auto|].
  rewrite Forall_cons_iff, <- IH. reflexivity.
Qed.

Lemma json_ok_obj (o : props) :
  json_ok (JObj o) <-> obj_wf o /\ Forall (fun kv => jstr_ok (fst kv) = true /\ json_ok (snd kv)) o.
Proof.
  simpl. apply and_iff_compat_l. induction o as [|[k x] o IH]; [split; auto|].
  rewrite Forall_cons_iff, <- IH. simpl. tauto.
Qed.

Lemma stringify_arr (l : list jsval) :
  stringify (JArr l) = [91] ++ join [44] (map stringify l) ++ [93].
Proof. reflexivity. Qed.

Lemma member_length (kv : jstr * jsval) :
  (List.length (stringify (snd kv)) < List.length (member kv))%nat.
Proof. unfold member, quote. simpl. rewrite !length_app. simpl. lia. Qed.

Lemma stringify_obj (o : props) :
  stringify (JObj o) = [123] ++ join [44] (map member o) ++ [125].
Proof. reflexivity. Qed.

Lemma num_units_head (n : Z) :
  exists c r, num_units n = c :: r /\ (c = 45 \/ 48 <= c <= 57).
Proof.
  pose proof (uint_units_digits (N.to_uint (Z.to_N n))) as Hd.
  pose proof (nat_units_nonempty (Z.to_N n)) as Hne. unfold num_units.
  destruct (n <? 0); [eauto|]. unfold nat_units in *.
  destruct (uint_units _) as [|c r]; [congruence|]. exists c, r. split; [reflexivity|].
  cbn [forallb] in Hd. apply andb_true_iff in Hd as [Hc _].
  unfold is_digit in Hc. apply andb_true_iff in Hc as [H1 H2]. apply Z.leb_le in H1, H2. auto.
Qed.

Lemma stringify_head (v : jsval) : exists c r, stringify v = c :: r /\ opener c.
Proof.
  destruct v as [| [] | n | s | l | o];
    try solve [eexists _, _; split; [reflexivity | unfold opener; repeat split; discriminate]].
  destruct (num_units_head n) as [c [r [E Hc]]]. exists c, r. split; [exact E|].
  unfold opener, is_ws. repeat split;
    try (destruct (Z.eqb_spec c 32), (Z.eqb_spec c 9), (Z.eqb_spec c 10), (Z.eqb_spec c 13));
    try reflexivity; lia.
Qed.

Lemma skip_ws_stringify (v : jsval) (rest : jstr) :
  skip_ws (stringify v ++ rest) = stringify v ++ rest.
Proof.
  destruct (stringify_head v) as [c [r [E [Hc _]]]]. rewrite E. simpl. now rewrite Hc.
Qed.

Lemma join_length_in {A} (g : A -> jstr) (sep : jstr) (l : list A) (x : A) :
  In x l -> (List.length (g x) <= List.length (join sep (map g l)))%nat.
Proof.
  induction l as [|y l IH]; simpl; [tauto|]. intros [->|Hin].
  - destruct l; simpl; rewrite ?length_app; lia.
  - destruct l as [|z l]; [destruct Hin|]. specialize (IH Hin). simpl in *.
    rewrite !length_app. lia.
Qed.

Lemma join_length_count {A} (g : A -> jstr) (sep : jstr) (l : list A) :
  (forall x, In x l -> g x <> []) -> (List.length l <= List.length (join sep (map g l)))%nat.
Proof.
  induction l as [|y l IH]; simpl; intros H; [lia|].
  assert (Hy : (1 <= List.length (g y))%nat) by (destruct (g y) eqn:E; [now apply H in E; auto | simpl; lia]).
  destruct l as [|z l]; simpl; [lia|].
  rewrite !length_app. specialize (IH (fun x Hx => H x (or_intror Hx))). simpl in IH. lia.
Qed.

Lemma join_cons_ne (sep x : jstr) (l : list jstr) :
  l <> [] -> join sep (x :: l) = x ++ sep ++ join sep l.
Proof. destruct l; [congruence | reflexivity]. Qed.

(** Reduce the tests of the parser on the concrete code units of a
    printed value. *)
Ltac jred := repeat (cbn [skip_ws is_ws orb Z.eqb Pos.eqb]; rewrite ?bind_ok).

Lemma parse_elements_join (pv : jstr -> result (jsval * jstr)) (l : list jsval) (g : nat) (rest : jstr) :
  l <> [] -> Forall (parses pv) l -> (List.length l <= g)%nat ->
  parse_elements pv g (join [44] (map stringify l) ++ 93 :: rest) = Ok (l, rest).
Proof.
  revert g. induction l as [|x l IH]; intros g Hne Hp Hg; [congruence|].
  destruct g as [|g]; [simpl in Hg; lia|]. inversion Hp as [|? ? Hx Hl]; subst.
  destruct l as [|y l'].
  - cbn [map join parse_elements]. rewrite Hx by (simpl; auto). reflexivity.
  - rewrite map_cons, join_cons_ne by (simpl; discriminate).
    rewrite <- !app_assoc. cbn [parse_elements app].
    rewrite Hx by (simpl; auto). jred.
    rewrite IH by (simpl in *; auto; congruence || lia). reflexivity.
Qed.

Lemma parse_members_join (pv : jstr -> result (jsval * jstr)) (q p : props) (g : nat) (rest : jstr) :
  q <> [] -> obj_wf (p ++ q) ->
  Forall (fun kv => jstr_ok (fst kv) = true /\ parses pv (snd kv)) q ->
  (List.length q <= g)%nat ->
  parse_members pv g p
    (join [44] (map member q) ++ 125 :: rest)
  = Ok (p ++ q, rest).
Proof.
  revert p g. induction q as [|[k v] q IH]; intros p g Hne Hw Hp Hg; [congruence|].
  destruct g as [|g]; [simpl in Hg; lia|]. inversion Hp as [|? ? [Hk Hv] Hq]; subst. cbn [fst snd] in Hk, Hv.
  assert (Hset : obj_set p k v = p ++ [(k, v)]).
  { apply obj_set_snoc. apply (obj_wf_prefix _ q). now rewrite <- app_assoc. }
  destruct q as [|kv' q'].
  - cbn [map join]. unfold member, quote. cbn [app parse_members fst snd]. rewrite <- !app_assoc. cbn [app]. jred.
    rewrite parse_quote_body by exact Hk.
    jred. rewrite Hv by (simpl; auto).
    jred. cbn [fst snd]. now rewrite Hset.
  - rewrite map_cons, join_cons_ne by (simpl; discriminate). unfold member at 1, quote at 1.
    cbn [fst snd]. rewrite <- !app_assoc.
    cbn [app parse_members]. rewrite <- !app_assoc. cbn [app]. jred.
    rewrite parse_quote_body by exact Hk.
    jred. rewrite Hv by (simpl; auto).
    jred. cbn [fst snd]. rewrite Hset.
    rewrite IH by (simpl in *; auto; try congruence; try lia; now rewrite <- app_assoc).
    now rewrite <- app_assoc.
Qed.

Lemma closes_opener (c d : Z) (r : jstr) : opener d -> (c = 93 \/ c = 125) -> closes c (d :: r) = None.
Proof.
  intros [Hw [_ [H93 H125]]] Hc. unfold closes. cbn [skip_ws]. rewrite Hw.
  destruct (Z.eqb_spec d c); [lia | reflexivity].
Qed.

Lemma join_head {A} (g : A -> jstr) (l : list A) (x : A) (r : list A) (sep rest : jstr) :
  l = x :: r -> exists tl, join sep (map g l) ++ rest = g x ++ tl.
Proof.
  intros ->. destruct r as [|y r].
  - exists rest. reflexivity.
  - exists (sep ++ join sep (map g (y :: r)) ++ rest). cbn [map join]. now rewrite <- !app_assoc.
Qed.

Lemma parse_literal_ok (v : jsval) (rest : jstr) :
  (v = JNull \/ v = JBool true \/ v = JBool false) ->
  parse_literal (stringify v ++ rest) = Ok (v, rest).
Proof. intros [-> | [-> | ->]]; reflexivity. Qed.

(** JSON.parse reads back what JSON.stringify printed, whatever
    follows it up to a delimiter, given enough fuel. *)
Lemma parse_value_stringify (v : jsval) :
  json_ok v -> forall f rest, (List.length (stringify v) <= f)%nat -> delim rest ->
  parse_value (S f) (stringify v ++ rest) = Ok (v, rest).
Proof.
  induction v as [| b | n | s | l IH | o IH] using jsval_ind'; intros Hok f rest Hf Hr.
  - reflexivity.
  - destruct b; reflexivity.
  - destruct (num_units_head n) as [c [r [E Hc]]].
    assert (Hs : stringify (JNum n) ++ rest = c :: (r ++ rest)) by (simpl; now rewrite E).
    assert (Hw : is_ws c = false).
    { unfold is_ws. destruct (Z.eqb_spec c 32), (Z.eqb_spec c 9), (Z.eqb_spec c 10),
        (Z.eqb_spec c 13); simpl; try reflexivity; lia. }
    rewrite Hs. cbn [parse_value skip_ws]. rewrite Hw.
    replace (c =? 123) with false by (symmetry; apply Z.eqb_neq; lia).
    replace (c =? 91) with false by (symmetry; apply Z.eqb_neq; lia).
    replace (c =? 34) with false by (symmetry; apply Z.eqb_neq; lia).
    replace ((c =? 45) || is_digit c) with true.
    2:{ symmetry. destruct Hc as [->|Hc]; [reflexivity|]. apply orb_true_iff. right.
        unfold is_digit. apply andb_true_iff. split; apply Z.leb_le; lia. }
    rewrite <- Hs. simpl stringify. rewrite parse_number_num_units by assumption. reflexivity.
  - assert (Hs : stringify (JStr s) ++ rest = 34 :: (quote_body s ++ 34 :: rest)).
    { simpl. unfold quote. now rewrite <- app_assoc. }
    rewrite Hs. cbn [parse_value]. jred. rewrite parse_quote_body by exact Hok. reflexivity.
  - apply json_ok_arr in Hok. destruct l as [|x r].
    + reflexivity.
    + assert (Hs : stringify (JArr (x :: r)) ++ rest =
                   91 :: (join [44] (map stringify (x :: r)) ++ 93 :: rest)).
      { rewrite stringify_arr. cbn [app]. rewrite <- app_assoc. reflexivity. }
      rewrite Hs. cbn [parse_value]. jred.
      destruct (join_head stringify (x :: r) x r [44] (93 :: rest) eq_refl) as [tl Etl].
      destruct (stringify_head x) as [c [r' [Ex Hc]]].
      assert (Hcl : closes 93 (join [44] (map stringify (x :: r)) ++ 93 :: rest) = None).
      { rewrite Etl, Ex. apply closes_opener; auto. }
      rewrite Hcl.
      assert (Hlen := join_length_in stringify [44] (x :: r)).
      assert (Hcnt := join_length_count stringify [44] (x :: r)).
      rewrite stringify_arr, !length_app in Hf. simpl in Hf.
      destruct f as [|f]; [specialize (Hlen x (or_introl eq_refl)); rewrite Ex in Hlen; simpl in Hlen; lia|].
      rewrite parse_elements_join; [reflexivity | discriminate | | ].
      * rewrite Forall_forall in IH, Hok |- *. intros y Hy rest' Hr'.
        apply IH; auto. specialize (Hlen y Hy). simpl in Hlen |- *. lia.
      * assert (Hne : forall y, In y (x :: r) -> stringify y <> []).
        { intros y _. destruct (stringify_head y) as [? [? [-> _]]]. discriminate. }
        specialize (Hcnt Hne). simpl in Hcnt |- *. lia.
  - apply json_ok_obj in Hok as [Hw Hok]. destruct o as [|[k x] r].
    + reflexivity.
    + assert (Hs : stringify (JObj ((k, x) :: r)) ++ rest =
                   123 :: (join [44] (map member ((k, x) :: r)) ++ 125 :: rest)).
      { rewrite stringify_obj. cbn [app]. rewrite <- app_assoc. reflexivity. }
      rewrite Hs. cbn [parse_value]. jred.
      destruct (join_head member ((k, x) :: r) (k, x) r [44] (125 :: rest) eq_refl) as [tl Etl].
      assert (Hcl : closes 125 (join [44] (map member ((k, x) :: r)) ++ 125 :: rest) = None).
      { rewrite Etl. unfold member at 1, quote. apply closes_opener; [|auto].
        unfold opener. repeat split; discriminate. }
      rewrite Hcl.
      assert (Hlen := join_length_in member [44] ((k, x) :: r)).
      assert (Hcnt := join_length_count member [44] ((k, x) :: r)).
      rewrite stringify_obj, !length_app in Hf. cbn [List.length] in Hf.
      destruct f as [|f].
      { specialize (Hlen (k, x) (or_introl eq_refl)). pose proof (member_length (k, x)). lia. }
      rewrite (parse_members_join _ _ []); [reflexivity | discriminate | exact Hw | | ].
      * rewrite Forall_forall in IH, Hok |- *. intros [k' y] Hy. split; [apply (Hok _ Hy)|].
        intros rest' Hr'. apply (IH _ Hy); auto; [apply (Hok _ Hy)|].
        specialize (Hlen _ Hy). pose proof (member_length (k', y)). cbn [snd] in *. lia.
      * assert (Hne : forall y, In y ((k, x) :: r) -> member y <> []).
        { intros y _ E. pose proof (member_length y). rewrite E in *. simpl in *. lia. }
        specialize (Hcnt Hne). cbn [List.length] in Hcnt |- *. lia.
Qed.

(** [JSON.parse(JSON.stringify(v))] is [v] for every value the model
    prints faithfully. *)
Lemma json_parse_stringify (v : jsval) : json_ok v -> json_parse (stringify v) = Ok v.
Proof.
  intros Hok. unfold json_parse.
  pose proof (parse_value_stringify v Hok (List.length (stringify v)) [] (le_n _) I) as H.
  rewrite app_nil_r in H. rewrite H. reflexivity.
Qed.


(** A text that starts with a colon is not JSON. *)
Lemma json_parse_colon (x : jstr) : json_parse (58 :: x) = Err SyntaxError.
Proof. unfold json_parse. cbn. reflexivity. Qed.
