(* ===== verification/JsonParse.v ===== *)
(** * What [JSON.parse] produces, and how much fuel it needs

    The parser of [Json] reads a value and returns it with the rest of
    the text.  This file shows that every value it produces from text
    whose code units are in range is one [JSON.stringify] prints
    ([json_parse_ok]), which [TokenWire] uses to show that [verify]
    never throws on a parsed token, and that property reads and
    [Object.entries] on such values give such values again.  Last, the
    fuel [json_parse] gives the parser is enough: any larger fuel gives
    the same result ([parse_value_enough]). *)

From Stdlib Require Import ZArith List Lia String Bool.
From S2P Require Import Prelude JsString JsObject Json.
Import ListNotations.
Local Open Scope Z_scope.
Local Open Scope bool_scope.
Local Open Scope res_scope.

(** [r] is what is left of [s] once a prefix of it has been read. *)
Definition suffix (r s : jstr) : Prop := exists p, s = p ++ r.

(** A value parser that reads, from text whose code units are in range,
    a value [JSON.stringify] can print and leaves a suffix of the text. *)
Definition parser_ok (pv : jstr -> result (jsval * jstr)) : Prop :=
  forall s v r, jstr_ok s = true -> pv s = Ok (v, r) -> json_ok v /\ suffix r s.

(** ** [JSON.parse] produces values that [JSON.stringify] prints *)

Lemma suffix_refl (s : jstr) : suffix s s.
Proof. exists []. reflexivity. Qed.

Lemma suffix_trans (a b c : jstr) : suffix a b -> suffix b c -> suffix a c.
Proof. intros [p ->] [q ->]. exists (q ++ p). apply app_assoc. Qed.

Lemma suffix_cons (c : Z) (r s : jstr) : suffix r s -> suffix r (c :: s).
Proof. intros [p ->]. exists (c :: p). reflexivity. Qed.

Lemma suffix_tail (c : Z) (r s : jstr) : suffix (c :: r) s -> suffix r s.
Proof. intros [p ->]. exists (p ++ [c]). rewrite <- app_assoc. reflexivity. Qed.

Lemma suffix_ok (r s : jstr) : suffix r s -> jstr_ok s = true -> jstr_ok r = true.
Proof.
  intros [p ->] H. unfold jstr_ok in *. rewrite forallb_app in H. apply andb_true_iff in H. tauto.
Qed.

Lemma jstr_ok_cons (c : Z) (s : jstr) : jstr_ok (c :: s) = true <-> 0 <= c < 65536 /\ jstr_ok s = true.
Proof.
  unfold jstr_ok, code_unit_ok. cbn [forallb]. rewrite !andb_true_iff, Z.leb_le, Z.ltb_lt. tauto.
Qed.

Lemma skip_ws_suffix (s : jstr) : suffix (skip_ws s) s.
Proof.
  induction s as [|c s IH]; cbn; [apply suffix_refl|].
  destruct (is_ws c); [apply suffix_cons, IH | apply suffix_refl].
Qed.

Lemma span_digits_suffix (s : jstr) : suffix (snd (span_digits s)) s.
Proof.
  induction s as [|c s IH]; cbn; [apply suffix_refl|].
  destruct (is_digit c); [|apply suffix_refl].
  destruct (span_digits s) as [d r]. apply suffix_cons, IH.
Qed.

Lemma skip_frac_suffix (s r : jstr) (b : bool) : skip_frac s = Some (b, r) -> suffix r s.
Proof.
  unfold skip_frac. destruct s as [|c s]; [intros [= _ <-]; apply suffix_refl|].
  destruct (c =? 46); [|intros [= _ <-]; apply suffix_refl].
  pose proof (span_digits_suffix s) as Hs. destruct (span_digits s) as [d r']. destruct d; [discriminate|].
  intros [= _ <-]. apply suffix_cons, Hs.
Qed.

Lemma skip_exp_suffix (s r : jstr) (b : bool) : skip_exp s = Some (b, r) -> suffix r s.
Proof.
  unfold skip_exp. destruct s as [|e s]; [intros [= _ <-]; apply suffix_refl|].
  destruct ((e =? 101) || (e =? 69)); [|intros [= _ <-]; apply suffix_refl].
  match goal with |- context [span_digits ?r1] =>
    assert (H1 : suffix r1 s) by (destruct s as [|c s]; [apply suffix_refl|];
      destruct (_ || _); [apply suffix_cons, suffix_refl | apply suffix_refl]);
    pose proof (span_digits_suffix r1) as Hs; destruct (span_digits r1) as [d r'] end.
  destruct d; [discriminate|]. intros [= _ <-]. apply suffix_cons. eapply suffix_trans; eassumption.
Qed.

Lemma int_part_suffix (s d r : jstr) : int_part s = Some (d, r) -> suffix r s.
Proof.
  unfold int_part. destruct s as [|c s]; [discriminate|].
  pose proof (span_digits_suffix (c :: s)) as H. revert H.
  destruct (c =? 48); [intros _ [= _ <-]; apply suffix_cons, suffix_refl|].
  destruct (is_digit c); [|discriminate]. intros H [= E]. cbn [span_digits] in H. rewrite E in H. exact H.
Qed.

Lemma split_minus_suffix (s : jstr) : suffix (snd (split_minus s)) s.
Proof.
  destruct s as [|c s]; cbn; [apply suffix_refl|].
  destruct (c =? 45); [apply suffix_cons|]; apply suffix_refl.
Qed.

(** The numbers [JSON.parse] accepts are safe integers. *)
Lemma parse_number_ok (s r : jstr) (z : Z) :
  parse_number s = Ok (z, r) -> safe_int z = true /\ suffix r s.
Proof.
  unfold parse_number. pose proof (split_minus_suffix s) as H0.
  destruct (split_minus s) as [neg s1]. cbn [snd] in H0.
  destruct (int_part s1) as [[ds r0]|] eqn:Ei; [|discriminate]. apply int_part_suffix in Ei.
  destruct (skip_frac r0) as [[fr r2]|] eqn:Ef; [|discriminate]. apply skip_frac_suffix in Ef.
  destruct (skip_exp r2) as [[ex r3]|] eqn:Ee; [|discriminate]. apply skip_exp_suffix in Ee.
  destruct (fr || ex); [discriminate|]. destruct (units_uint ds); [|discriminate].
  destruct (safe_int _) eqn:Es; [|discriminate]. intros [= <- <-].
  split; [exact Es|]. eauto using suffix_trans.
Qed.

Lemma starts_with_suffix (p s r : jstr) : starts_with p s = Some r -> suffix r s.
Proof.
  unfold starts_with. destruct (list_eq_dec _ _ _); [|discriminate].
  intros [= <-]. exists (firstn (List.length p) s). symmetry. apply firstn_skipn.
Qed.

Lemma parse_literal_json_ok (s r : jstr) (v : jsval) :
  parse_literal s = Ok (v, r) -> json_ok v /\ suffix r s.
Proof.
  unfold parse_literal.
  repeat match goal with
  | |- context [match starts_with ?p s with _ => _ end] =>
      let E := fresh "E" in
      destruct (starts_with p s) eqn:E; [intros [= <- <-]; split; [exact I | eapply starts_with_suffix; eassumption]|]
  end. discriminate.
Qed.

Lemma closes_suffix (c : Z) (s r : jstr) : closes c s = Some r -> suffix r s.
Proof.
  unfold closes. pose proof (skip_ws_suffix s) as H. destruct (skip_ws s) as [|d r']; [discriminate|].
  destruct (d =? c); [|discriminate]. intros [= <-]. exact (suffix_tail _ _ _ H).
Qed.

Lemma hex_value_range (c a : Z) : hex_value c = Some a -> 0 <= a < 16.
Proof.
  unfold hex_value.
  repeat match goal with |- context [if ?b then _ else _] => let E := fresh "E" in destruct b eqn:E end;
    intros H; inversion H; subst; rewrite ?andb_true_iff, ?Z.leb_le in *; lia.
Qed.

(** The code units of a string literal are in range: those of the text,
    or an escape of at most four hexadecimal digits. *)
Lemma parse_string_body_ok (s b r : jstr) :
  jstr_ok s = true -> parse_string_body s = Ok (b, r) -> jstr_ok b = true /\ suffix r s.
Proof.
  remember (List.length s) as n eqn:E. revert s E b r.
  induction n as [n IH] using (well_founded_induction Wf_nat.lt_wf). intros s E b r Hs H.
  destruct s as [|c s]; [discriminate|]. apply jstr_ok_cons in Hs as [Hc Hs].
  assert (IHs : forall s' b' r', (List.length s' <= List.length s)%nat -> jstr_ok s' = true ->
                  parse_string_body s' = Ok (b', r') -> jstr_ok b' = true /\ suffix r' s')
    by (intros; eapply (IH (List.length s')); [subst n; cbn; lia | reflexivity | eassumption | eassumption]).
  clear IH E. cbn in H.
  destruct (c =? 34); [injection H as <- <-; split; [reflexivity | apply suffix_cons, suffix_refl]|].
  destruct (Z.eqb_spec c 92) as [->|_].
  - destruct s as [|e s]; [discriminate|]. apply jstr_ok_cons in Hs as [He Hs].
    assert (Esc : forall u, 0 <= u < 65536 ->
              ('(b0, r0) <- parse_string_body s ;; Ok (u :: b0, r0)) = Ok (b, r) ->
              jstr_ok b = true /\ suffix r (92 :: e :: s)).
    { intros u Hu H'. destruct (parse_string_body s) as [[b0 r0]|] eqn:Ep; [|discriminate].
      injection H' as <- <-. destruct (IHs s b0 r0 ltac:(cbn; lia) Hs Ep) as [Hb Hr].
      split; [apply jstr_ok_cons; auto | now apply suffix_cons, suffix_cons]. }
    repeat match type of H with context [if e =? ?k then _ else _] =>
      destruct (e =? k); [eapply Esc; [|exact H]; lia|] end.
    destruct (e =? 117); [|discriminate].
    destruct s as [|h1 [|h2 [|h3 [|h4 s']]]]; try discriminate.
    destruct (hex_value h1) as [a|] eqn:Ha; [|discriminate].
    destruct (hex_value h2) as [b2|] eqn:Hb2; [|discriminate].
    destruct (hex_value h3) as [c3|] eqn:Hc3; [|discriminate].
    destruct (hex_value h4) as [d4|] eqn:Hd4; [|discriminate].
    apply hex_value_range in Ha, Hb2, Hc3, Hd4.
    destruct (parse_string_body s') as [[b0 r0]|] eqn:Ep; [|discriminate]. injection H as <- <-.
    rewrite !jstr_ok_cons in Hs. destruct (IHs s' b0 r0 ltac:(cbn; lia) ltac:(tauto) Ep) as [Hb Hr].
    split; [apply jstr_ok_cons; split; [lia | exact Hb]|].
    destruct Hr as [p ->]. exists (92 :: e :: h1 :: h2 :: h3 :: h4 :: p). reflexivity.
  - destruct (c <? 32); [discriminate|].
    destruct (parse_string_body s) as [[b0 r0]|] eqn:Ep; [|discriminate]. injection H as <- <-.
    destruct (IHs s b0 r0 ltac:(lia) Hs Ep) as [Hb Hr].
    split; [apply jstr_ok_cons; auto | now apply suffix_cons].
Qed.

Lemma parse_elements_ok (pv : jstr -> result (jsval * jstr)) : parser_ok pv ->
  forall f s l r, jstr_ok s = true -> parse_elements pv f s = Ok (l, r) ->
  Forall json_ok l /\ suffix r s.
Proof.
  intros Hpv f. induction f as [|f IH]; intros s l r Hs H; cbn in H; [discriminate|].
  destruct (pv s) as [[v r0]|] eqn:Ev; [|discriminate]. cbn in H.
  destruct (Hpv _ _ _ Hs Ev) as [Hv Hr0].
  pose proof (skip_ws_suffix r0) as Hw. destruct (skip_ws r0) as [|c r1]; [discriminate|].
  assert (Hr1 : suffix r1 s) by (eapply suffix_trans; [exact (suffix_tail _ _ _ Hw) | exact Hr0]).
  destruct (c =? 44).
  - destruct (parse_elements pv f r1) as [[vs r2]|] eqn:Ee; [|discriminate]. injection H as <- <-.
    destruct (IH r1 vs r2 (suffix_ok _ _ Hr1 Hs) Ee) as [Hvs Hr2].
    split; [constructor; assumption | eapply suffix_trans; eassumption].
  - destruct (c =? 93); [|discriminate]. injection H as <- <-.
    split; [repeat constructor; assumption | exact Hr1].
Qed.

Lemma parse_members_ok (pv : jstr -> result (jsval * jstr)) : parser_ok pv ->
  forall f o s o' r, json_ok (JObj o) -> jstr_ok s = true ->
  parse_members pv f o s = Ok (o', r) -> json_ok (JObj o') /\ suffix r s.
Proof.
  intros Hpv f. induction f as [|f IH]; intros o s o' r Ho Hs H; cbn in H; [discriminate|].
  pose proof (skip_ws_suffix s) as Hw. destruct (skip_ws s) as [|c r0]; [discriminate|].
  destruct (c =? 34); [|discriminate]. pose proof (suffix_tail _ _ _ Hw) as Hr0.
  destruct (parse_string_body r0) as [[k r1]|] eqn:Ek; [|discriminate]. cbn in H.
  destruct (parse_string_body_ok r0 k r1 (suffix_ok _ _ Hr0 Hs) Ek) as [Hk Hr1].
  pose proof (skip_ws_suffix r1) as Hw1. destruct (skip_ws r1) as [|c1 r2]; [discriminate|].
  destruct (c1 =? 58); [|discriminate].
  assert (Hr2 : suffix r2 s) by eauto using suffix_trans, suffix_tail.
  destruct (pv r2) as [[v r3]|] eqn:Ev; [|discriminate]. cbn in H.
  destruct (Hpv _ _ _ (suffix_ok _ _ Hr2 Hs) Ev) as [Hv Hr3].
  assert (Ho' : json_ok (JObj (obj_set o k v))).
  { apply json_ok_obj in Ho as [Hwf Hall]. apply json_ok_obj.
    split; [apply obj_set_wf, Hwf | apply obj_set_Forall; auto]. }
  pose proof (skip_ws_suffix r3) as Hw3. destruct (skip_ws r3) as [|c3 r4]; [discriminate|].
  assert (Hr4 : suffix r4 s) by eauto using suffix_trans, suffix_tail.
  destruct (c3 =? 44).
  - destruct (IH _ _ _ _ Ho' (suffix_ok _ _ Hr4 Hs) H) as [Ho'' Hr].
    split; [exact Ho'' | eapply suffix_trans; eassumption].
  - destruct (c3 =? 125); [|discriminate]. injection H as <- <-. split; assumption.
Qed.

Lemma parse_value_ok (f : nat) : parser_ok (parse_value f).
Proof.
  induction f as [|f IH]; intros s v r Hs H; cbn in H; [discriminate|].
  pose proof (skip_ws_suffix s) as Hw. destruct (skip_ws s) as [|c r0]; [discriminate|].
  pose proof (suffix_tail _ _ _ Hw) as Hr0. pose proof (suffix_ok _ _ Hr0 Hs) as Hs0.
  destruct (c =? 123).
  { destruct (closes 125 r0) as [r'|] eqn:Ec.
    - injection H as <- <-. split; [exact (conj (fromEntries_wf []) I)|].
      eapply suffix_trans; [eapply closes_suffix; eassumption | exact Hr0].
    - destruct (parse_members (parse_value f) f [] r0) as [[o r']|] eqn:Em; [|discriminate].
      injection H as <- <-.
      destruct (parse_members_ok _ IH f [] r0 o r' (conj (fromEntries_wf []) I) Hs0 Em) as [Ho Hr].
      split; [exact Ho | eapply suffix_trans; eassumption]. }
  destruct (c =? 91).
  { destruct (closes 93 r0) as [r'|] eqn:Ec.
    - injection H as <- <-. split; [exact I|].
      eapply suffix_trans; [eapply closes_suffix; eassumption | exact Hr0].
    - destruct (parse_elements (parse_value f) f r0) as [[l r']|] eqn:Ee; [|discriminate].
      injection H as <- <-. destruct (parse_elements_ok _ IH f r0 l r' Hs0 Ee) as [Hl Hr].
      split; [apply json_ok_arr, Hl | eapply suffix_trans; eassumption]. }
  destruct (c =? 34).
  { destruct (parse_string_body r0) as [[b r']|] eqn:Eb; [|discriminate].
    injection H as <- <-. destruct (parse_string_body_ok r0 b r' Hs0 Eb) as [Hb Hr].
    split; [exact Hb | eapply suffix_trans; eassumption]. }
  destruct ((c =? 45) || is_digit c).
  { destruct (parse_number (c :: r0)) as [[z r']|] eqn:En; [|discriminate].
    injection H as <- <-. destruct (parse_number_ok _ _ _ En) as [Hz Hr].
    split; [exact Hz | eapply suffix_trans; eassumption]. }
  destruct (parse_literal_json_ok _ _ _ H) as [Hv Hr].
  split; [exact Hv | eapply suffix_trans; eassumption].
Qed.

(** [JSON.parse] of a text whose code units are in range yields a value
    that [JSON.stringify] prints: in-range strings, safe integers,
    objects without repeated keys in the model's property order. *)
Lemma json_parse_ok (s : jstr) (v : jsval) : jstr_ok s = true -> json_parse s = Ok v -> json_ok v.
Proof.
  intros Hs. unfold json_parse.
  destruct (parse_value _ s) as [[v0 r]|] eqn:E; [|discriminate]. cbn.
  destruct (skip_ws r); [|discriminate]. intros [= <-].
  exact (proj1 (parse_value_ok _ _ _ _ Hs E)).
Qed.

(** A property read on a value [JSON.parse] produced gives such a value
    or [undefined], for every key but [length]. *)
Lemma js_get_ok (v : jsval) (k : jstr) (o : option jsval) :
  k <> js "length" -> json_ok v -> js_get v k = Ok o ->
  match o with Some x => json_ok x | None => True end.
Proof.
  intros Hk Hv H. destruct v as [| b | n | s | l | p]; cbn -[js key_eqb] in H; try discriminate;
    try (injection H as <-; exact I);
    try match type of H with context [if key_eqb k ?L then _ else _] =>
      destruct (key_eqb_spec k L) as [E|_]; [exfalso; apply Hk; exact E|] end;
    injection H as <-.
  - destruct (obj_get _ k) as [x|] eqn:E; [|exact I].
    apply obj_get_in, in_combine_r, in_map_iff in E as [c [<- Hc]].
    cbn [json_ok] in Hv |- *. unfold jstr_ok in *. rewrite forallb_forall in Hv. cbn. rewrite (Hv c Hc). reflexivity.
  - destruct (obj_get _ k) as [x|] eqn:E; [|exact I].
    apply obj_get_in, in_combine_r in E. apply json_ok_arr in Hv. exact (proj1 (Forall_forall _ _) Hv x E).
  - destruct (obj_get p k) as [x|] eqn:E; [|exact I]. apply obj_get_in in E.
    apply json_ok_obj in Hv as [_ Hv]. exact (proj2 (proj1 (Forall_forall _ _) Hv _ E)).
Qed.

(** [Object.entries] of such a value lists such values. *)
Lemma js_entries_ok (v : option jsval) (ents : list (jstr * jsval)) :
  match v with Some x => json_ok x | None => True end -> js_entries v = Ok ents ->
  Forall (fun kv => json_ok (snd kv)) ents.
Proof.
  intros Hv H. destruct v as [[| b | n | s | l | p]|]; cbn in H; try discriminate;
    injection H as <-; try constructor; apply Forall_forall; intros [k x] Hin; cbn.
  - apply in_combine_r, in_map_iff in Hin as [c [<- Hc]].
    cbn [json_ok] in Hv |- *. unfold jstr_ok in *. rewrite forallb_forall in Hv. cbn. rewrite (Hv c Hc). reflexivity.
  - apply in_combine_r in Hin. apply json_ok_arr in Hv. exact (proj1 (Forall_forall _ _) Hv x Hin).
  - apply json_ok_obj in Hv as [_ Hv]. exact (proj2 (proj1 (Forall_forall _ _) Hv _ Hin)).
Qed.

(** ** The fuel of [json_parse] is enough

    [parse_value] and its helpers take fuel; every recursive call reads
    at least one code unit first, so fuel above the length of the text
    is never exhausted: any larger fuel gives the same answer, which is
    the answer of the parser without a bound. *)

Lemma suffix_length (r s : jstr) : suffix r s -> (List.length r <= List.length s)%nat.
Proof. intros [p ->]. rewrite length_app. lia. Qed.

Lemma suffix_tail_length (c : Z) (r s : jstr) : suffix (c :: r) s -> (List.length r < List.length s)%nat.
Proof. intros H. apply suffix_length in H. cbn in H. lia. Qed.

Lemma parse_elements_fuel (pv pv' : jstr -> result (jsval * jstr)) : parser_ok pv ->
  forall f f' s, jstr_ok s = true -> (forall t, suffix t s -> pv' t = pv t) ->
  (List.length s < f)%nat -> (f <= f')%nat ->
  parse_elements pv' f' s = parse_elements pv f s.
Proof.
  intros Hpv f. induction f as [|f IH]; intros f' s Hs Ha Hf Hff'; [lia|].
  destruct f' as [|g]; [lia|]. cbn [parse_elements]. rewrite (Ha s (suffix_refl s)).
  destruct (pv s) as [[v r0]|] eqn:Ev; [|reflexivity]. cbn [bind].
  destruct (Hpv _ _ _ Hs Ev) as [_ Hr0].
  pose proof (skip_ws_suffix r0) as Hw. destruct (skip_ws r0) as [|c r1]; [reflexivity|].
  assert (Hr1 : suffix r1 s) by (eapply suffix_trans; [exact (suffix_tail _ _ _ Hw) | exact Hr0]).
  pose proof (suffix_tail_length _ _ _ (suffix_trans _ _ _ Hw Hr0)).
  destruct (c =? 44); [|reflexivity].
  rewrite (IH g r1 (suffix_ok _ _ Hr1 Hs)); [reflexivity | | lia | lia].
  intros t Ht. apply Ha. eapply suffix_trans; eassumption.
Qed.

Lemma parse_members_fuel (pv pv' : jstr -> result (jsval * jstr)) : parser_ok pv ->
  forall f f' o s, jstr_ok s = true ->
  (forall t, suffix t s -> (List.length t < List.length s)%nat -> pv' t = pv t) ->
  (List.length s < f)%nat -> (f <= f')%nat ->
  parse_members pv' f' o s = parse_members pv f o s.
Proof.
  intros Hpv f. induction f as [|f IH]; intros f' o s Hs Ha Hf Hff'; [lia|].
  destruct f' as [|g]; [lia|]. cbn [parse_members].
  pose proof (skip_ws_suffix s) as Hw. destruct (skip_ws s) as [|c r0]; [reflexivity|].
  destruct (c =? 34); [|reflexivity]. pose proof (suffix_tail _ _ _ Hw) as Hr0.
  pose proof (suffix_tail_length _ _ _ Hw) as Hl0.
  destruct (parse_string_body r0) as [[k r1]|] eqn:Ek; [|reflexivity]. cbn [bind].
  destruct (parse_string_body_ok r0 k r1 (suffix_ok _ _ Hr0 Hs) Ek) as [_ Hr1].
  pose proof (skip_ws_suffix r1) as Hw1. destruct (skip_ws r1) as [|c1 r2]; [reflexivity|].
  destruct (c1 =? 58); [|reflexivity].
  assert (Hr2 : suffix r2 s) by eauto using suffix_trans, suffix_tail.
  assert (Hl2 : (List.length r2 < List.length s)%nat).
  { pose proof (suffix_tail_length _ _ _ Hw1). pose proof (suffix_length _ _ Hr1).
    pose proof (suffix_length _ _ Hr0). lia. }
  rewrite (Ha r2 Hr2 Hl2).
  destruct (pv r2) as [[v r3]|] eqn:Ev; [|reflexivity]. cbn [bind].
  destruct (Hpv _ _ _ (suffix_ok _ _ Hr2 Hs) Ev) as [_ Hr3].
  pose proof (skip_ws_suffix r3) as Hw3. destruct (skip_ws r3) as [|c3 r4]; [reflexivity|].
  assert (Hr4 : suffix r4 s) by eauto using suffix_trans, suffix_tail.
  assert (Hl4 : (List.length r4 < List.length s)%nat).
  { pose proof (suffix_tail_length _ _ _ Hw3). pose proof (suffix_length _ _ Hr3). lia. }
  destruct (c3 =? 44); [|reflexivity].
  apply IH; [exact (suffix_ok _ _ Hr4 Hs) | | lia | lia].
  intros t Ht Hlt. apply Ha; [eapply suffix_trans; eassumption | lia].
Qed.

(** Fuel above the length of the text gives the same answer as any
    larger fuel. *)
Lemma parse_value_fuel (f : nat) :
  forall f' s, jstr_ok s = true -> (List.length s < f)%nat -> (f <= f')%nat ->
  parse_value f' s = parse_value f s.
Proof.
  induction f as [|f IH]; intros f' s Hs Hf Hff'; [lia|].
  destruct f' as [|g]; [lia|]. cbn [parse_value].
  pose proof (skip_ws_suffix s) as Hw. destruct (skip_ws s) as [|c r0]; [reflexivity|].
  pose proof (suffix_tail _ _ _ Hw) as Hr0. pose proof (suffix_ok _ _ Hr0 Hs) as Hs0.
  pose proof (suffix_tail_length _ _ _ Hw) as Hl0.
  assert (Hag : forall t, suffix t r0 -> parse_value g t = parse_value f t).
  { intros t Ht. apply IH; [exact (suffix_ok _ _ Ht Hs0) | pose proof (suffix_length _ _ Ht); lia | lia]. }
  destruct (c =? 123).
  - destruct (closes 125 r0); [reflexivity|].
    rewrite (parse_members_fuel (parse_value f) (parse_value g) (parse_value_ok f) f g [] r0 Hs0)
      ; [reflexivity | intros; apply Hag; assumption | lia | lia].
  - destruct (c =? 91); [|reflexivity].
    destruct (closes 93 r0); [reflexivity|].
    rewrite (parse_elements_fuel (parse_value f) (parse_value g) (parse_value_ok f) f g r0 Hs0 Hag)
      by lia. reflexivity.
Qed.

(** [json_parse] gives the parser one unit of fuel per code unit and one
    more: every larger fuel gives the same result. *)
Lemma parse_value_enough (s : jstr) (f : nat) :
  jstr_ok s = true -> (List.length s < f)%nat ->
  parse_value f s = parse_value (S (List.length s)) s.
Proof. intros Hs Hf. apply parse_value_fuel; [exact Hs | lia | lia]. Qed.
