(* ===== verification/Listeners.v ===== *)
(** * The event listeners of [src/rtc/RCTHandler.ts]

    [useRTCVideoListeners] and [useRTCRoomListeners] build the handler
    objects the App gives the SDK.  Every handler is made by [logger]:
    when the SDK calls it, it prints one [console.log] line with the
    handler's name and its arguments, then calls the handler's own
    function ([executer]) if there is one.  An object argument is
    printed with [JSON.stringify] after [convertObjectForPrinting] has
    copied its own properties, reading getters under a [try].

    The arguments are JavaScript values at run time ([rv]): primitives,
    functions, arrays and objects whose properties are data properties
    or accessors, each enumerable or not, listed in [[OwnPropertyKeys]]
    order as in [JsObject], with a prototype.  A getter is given by what
    calling it does: return a value or throw.  The copy is built by
    [[Set]] on a fresh object, so a property named ['__proto__'] runs
    the [Object.prototype] setter; [JSON.stringify] looks [toJSON] up
    along the prototype chain.  The parts are joined by
    [Array.prototype.join], which prints [undefined] as nothing.  A
    call of a handler yields the console lines and the executer calls
    it makes, in order, and its result.  Numbers are integers below
    [10^21] in absolute value, which [Number.prototype.toString] prints
    as decimal digits; a larger one, a function's source text, a
    [toJSON] method and a setter on an installed prototype are outside
    the model ([Unsupported]). *)

From Stdlib Require Import ZArith List Lia Bool String.
From S2P Require Import Prelude JsString JsObject Json.
Import ListNotations.
Local Open Scope Z_scope.
Local Open Scope bool_scope.
Local Open Scope res_scope.

(** ** Values at run time *)

(** An object has its own properties, in [[OwnPropertyKeys]] order, and
    its prototype [[Prototype]]: [RNull] or another object.  A getter is
    given by what calling it does. *)
Inductive rv :=
| RUndefined
| RNull
| RBool (b : bool)
| RNum (n : Z)
| RStr (s : jstr)
| RFun
| RArr (elems : list rv)
| RObj (props : list (jstr * rprop)) (proto : rv)
with rprop :=
| PData (v : rv) (enumerable : bool)
| PAccessor (getter : option (result rv)) (enumerable : bool).

(** [Object.prototype] as the code meets it: no [toJSON] and no
    property a [[Set]] could meet but the [__proto__] accessor, which
    [assign_prop] treats apart; it is not enumerated by anything here. *)
Definition object_prototype : rv := RObj [] RNull.

(** [typeof v === 'object']: true for [null] too. *)
Definition typeof_object (v : rv) : bool :=
  match v with RNull | RArr _ | RObj _ _ => true | _ => false end.

Definition typeof_function (v : rv) : bool :=
  match v with RFun => true | _ => false end.

(** Numbers [Number.prototype.toString] prints without an exponent. *)
Definition num_printable (n : Z) : bool := Z.abs n <? 10 ^ 21.

Definition key_is (k : jstr) (kp : jstr * rprop) : bool := key_eqb (fst kp) k.

(** [Object.getOwnPropertyNames] with the descriptors
    [Object.getOwnPropertyDescriptor] returns: an array has its indices
    and a non-enumerable [length]; [null] cannot be converted to an
    object. *)
Definition own_props (v : rv) : result (list (jstr * rprop)) :=
  match v with
  | RNull | RUndefined => Err TypeError
  | RObj ps _ => Ok ps
  | RArr l =>
      Ok (combine (index_keys_upto (List.length l)) (map (fun x => PData x true) l)
          ++ [(js "length", PData (RNum (Z.of_nat (List.length l))) false)])
  | _ => Ok []
  end.

(** [GetV(v, 'toJSON')] along the prototype chain, as [JSON.stringify]
    reads it: whether it is a function (a getter runs, and may throw).
    Arrays and functions inherit none. *)
Fixpoint lookup_toJSON (v : rv) : result bool :=
  match v with
  | RObj ps proto =>
      match find (key_is (js "toJSON")) ps with
      | Some (_, PData x _) | Some (_, PAccessor (Some (Ok x)) _) => Ok (typeof_function x)
      | Some (_, PAccessor (Some (Err e)) _) => Err e
      | Some (_, PAccessor None _) => Ok false
      | None => lookup_toJSON proto
      end
  | _ => Ok false
  end.

(** Whether [k] is an accessor somewhere on the chain from [v]: a
    [[Set]] of [k] on an object inheriting from [v] would run its setter
    instead of creating an own property. *)
Fixpoint inherited_accessor (k : jstr) (v : rv) : bool :=
  match v with
  | RObj ps proto =>
      match find (key_is k) ps with
      | Some (_, PAccessor _ _) => true
      | Some (_, PData _ _) => false
      | None => inherited_accessor k proto
      end
  | _ => false
  end.

(** ** [convertObjectForPrinting] (lines 8-25) *)

(** What the body of [properties.forEach] stores for one property
    (lines 15-22), or [None]: a getter is called under [try] and its
    value kept, a throwing getter stores nothing; without a getter,
    [obj[prop]] is read and kept unless it is a function (an accessor
    without getter reads [undefined]). *)
Definition print_value (p : rprop) : option rv :=
  match p with
  | PAccessor (Some (Ok v)) _ => Some v
  | PAccessor (Some (Err _)) _ => None
  | PAccessor None _ => Some RUndefined
  | PData v _ => if typeof_function v then None else Some v
  end.

(** [result[prop] = v] (lines 18 and 21) on the object [result] with
    own properties [ps] and prototype [proto].  For ['__proto__'] the
    [Object.prototype.__proto__] setter runs: an object or [null] becomes
    the prototype of [result], anything else is ignored, and no own
    property is made.  Any other key becomes an own enumerable data
    property, unless the prototype [result] was given has an accessor
    of that name, whose setter would run (outside the model). *)
Definition assign_prop (ps : list (jstr * rprop)) (proto : rv) (k : jstr) (v : rv)
    : result (list (jstr * rprop) * rv) :=
  if key_eqb k (js "__proto__") then
    Ok (ps, if typeof_object v || typeof_function v then v else proto)
  else if inherited_accessor k proto then Err Unsupported
  else Ok (ps ++ [(k, PData v true)], proto).

(** [properties.forEach] (lines 14-23) over the own properties, in the
    order [getOwnPropertyNames] lists them, on [result]. *)
Fixpoint convert_props (props : list (jstr * rprop)) (ps : list (jstr * rprop)) (proto : rv) : result rv :=
  match props with
  | [] => Ok (RObj ps proto)
  | (k, p) :: r =>
      match print_value p with
      | None => convert_props r ps proto
      | Some v => '(ps', proto') <- assign_prop ps proto k v ;; convert_props r ps' proto'
      end
  end.

(** [result] starts as [{}], an object whose prototype is
    [Object.prototype]. *)
Definition convertObjectForPrinting (obj : rv) : result rv :=
  if negb (typeof_object obj) then Ok obj
  else
    ps <- own_props obj ;;
    convert_props ps [] object_prototype.

(** ** [JSON.stringify] on values at run time *)

(** SerializeJSONProperty: [None] is [undefined] (a function or
    [undefined]), which an object omits and an array prints as
    [null]; a property is read with [[Get]], so a getter runs and may
    throw.  Only the own enumerable properties are printed.  A value
    with a [toJSON] method, own or inherited, is outside the model: the
    method would run. *)
Fixpoint to_json (v : rv) : result (option jsval) :=
  match v with
  | RUndefined | RFun => Ok None
  | RNull => Ok (Some JNull)
  | RBool b => Ok (Some (JBool b))
  | RNum n => if num_printable n then Ok (Some (JNum n)) else Err Unsupported
  | RStr s => Ok (Some (JStr s))
  | RArr l =>
      bind ((fix elems (l : list rv) : result (list jsval) :=
         match l with
         | [] => Ok []
         | x :: r =>
             j <- to_json x ;;
             js' <- elems r ;;
             Ok (match j with Some j => j | None => JNull end :: js')
         end) l) (fun js' => Ok (Some (JArr js')))
  | RObj ps proto =>
      bind (lookup_toJSON (RObj ps proto)) (fun t => if t then Err Unsupported else
      bind ((fix members (ps : list (jstr * rprop)) : result props :=
         match ps with
         | [] => Ok []
         | (k, p) :: r =>
             let read (x : rv) (en : bool) :=
               if negb en then members r
               else
                 j <- to_json x ;;
                 ms <- members r ;;
                 Ok (match j with Some j => (k, j) :: ms | None => ms end) in
             match p with
             | PData x en => read x en
             | PAccessor (Some (Ok x)) en => read x en
             | PAccessor (Some (Err e)) en => if en then Err e else members r
             | PAccessor None _ => members r
             end
         end) ps) (fun ms => Ok (Some (JObj ms))))
  end.

(** [JSON.stringify(v)]: the text, or [undefined]. *)
Definition json_stringify (v : rv) : result (option jstr) :=
  j <- to_json v ;; Ok (match j with Some j => Some (stringify j) | None => None end).

(** How [Array.prototype.join] turns an element into text: [undefined]
    and [null] give the empty string, any other value its [ToString]. *)
Definition join_element (v : rv) : result jstr :=
  match v with
  | RUndefined | RNull => Ok []
  | RBool true => Ok (js "true")
  | RBool false => Ok (js "false")
  | RNum n => if num_printable n then Ok (num_units n) else Err Unsupported
  | RStr s => Ok s
  | _ => Err Unsupported
  end.

Fixpoint map_res {A B} (f : A -> result B) (l : list A) : result (list B) :=
  match l with
  | [] => Ok []
  | x :: r => y <- f x ;; ys <- map_res f r ;; Ok (y :: ys)
  end.

(** ** [logger] (lines 27-47) *)

(** One argument as [args.map(...)] gives it (lines 32-39), turned into
    text by the [join] of line 41: an object is printed by
    [JSON.stringify] (its [undefined] joins as the empty string), any
    other value is joined as it is. *)
Definition format_arg (arg : rv) : result jstr :=
  if typeof_object arg then
    v <- match arg with
         | RArr l => l' <- map_res convertObjectForPrinting l ;; Ok (RArr l')
         | _ => convertObjectForPrinting arg
         end ;;
    s <- json_stringify v ;;
    Ok (match s with Some s => s | None => [] end)
  else join_element arg.

(** The text of the [console.log] call (lines 30-42). *)
Definition log_line (fnName : jstr) (args : list rv) : result jstr :=
  parts <- map_res format_arg args ;;
  Ok (js "------ " ++ fnName ++ js " : " ++ join (js " | ") parts).

(** What a handler does when the SDK calls it. *)
Inductive console_event :=
| ConsoleLog (line : jstr)
| Executed (fnName : jstr) (args : list rv).

(** The function [logger] returns: its [fnName], the value its [name]
    property holds, and whether an [executer] was given. *)
Record listener := mkListener { fnName : jstr; name : jstr; has_executer : bool }.

(** [f.name = fnName] assigns to the non-writable [name] property the
    arrow function [f] was created with: in strict mode code (which
    module code is) the assignment throws [TypeError]; in sloppy mode it
    is ignored and [name] stays ['f']. *)
Definition logger (strict : bool) (fn : jstr) (executer : bool) : result listener :=
  if strict then Err TypeError else Ok (mkListener fn (js "f") executer).

(** [f(...args)]: the line is printed, then [executer?.(...args)]. *)
Definition call_listener (l : listener) (args : list rv) : list console_event * result unit :=
  match log_line (fnName l) args with
  | Err e => ([], Err e)
  | Ok line => (ConsoleLog line :: (if has_executer l then [Executed (fnName l) args] else []), Ok tt)
  end.

(** ** The hooks (lines 49-72) *)

Definition useRTCVideoListeners (strict : bool) : result (list (jstr * listener)) :=
  a <- logger strict (js "onUserStartAudioCapture") false ;;
  b <- logger strict (js "onUserStopAudioCapture") false ;;
  c <- logger strict (js "onUserStartVideoCapture") false ;;
  Ok [(js "onUserStartAudioCapture", a); (js "onUserStopAudioCapture", b);
      (js "onUserStartVideoCapture", c)].

Definition useRTCRoomListeners (strict : bool) : result (list (jstr * listener)) :=
  a <- logger strict (js "onUserJoined") true ;;
  b <- logger strict (js "onUserPublishStream") true ;;
  Ok [(js "onUserJoined", a); (js "onUserPublishStream", b)].

(** The room handler [onUserJoined] as sloppy-mode [logger] builds it. *)
Definition demo_joined : listener := mkListener (js "onUserJoined") (js "f") true.

(** Own properties a plain object literal or [JSON.parse] gives:
    enumerable data properties holding no function, none of them named
    ['__proto__']. *)
Definition plain (ps : list (jstr * rprop)) : Prop :=
  Forall (fun kp => exists v, snd kp = PData v true /\ typeof_function v = false /\ fst kp <> js "__proto__") ps.

(** A [Date]-like argument: its prototype has a [toJSON] method. *)
Definition date_prototype : rv := RObj [(js "toJSON", PData RFun false)] object_prototype.

(** ** Theorems *)

Lemma map_res_app {A B} (f : A -> result B) (l1 l2 : list A) :
  map_res f (l1 ++ l2) = (ys1 <- map_res f l1 ;; ys2 <- map_res f l2 ;; Ok (ys1 ++ ys2)).
Proof.
  induction l1 as [|x l1 IH]; cbn.
  - destruct (map_res f l2); reflexivity.
  - destruct (f x); [|reflexivity]. cbn. rewrite IH.
    destruct (map_res f l1); [|reflexivity]. cbn. destruct (map_res f l2); reflexivity.
Qed.

Lemma map_res_total {A B} (f : A -> result B) (l : list A) :
  Forall (fun a => exists b, f a = Ok b) l -> exists bs, map_res f l = Ok bs.
Proof.
  induction 1 as [|x l [b Hb] _ [bs Hbs]]; [exists []; reflexivity|].
  exists (b :: bs). cbn. rewrite Hb, Hbs. reflexivity.
Qed.

(** C26: A handler called with a [null] argument throws [TypeError]:
    [typeof null] is ['object'], so [convertObjectForPrinting] calls
    [Object.getOwnPropertyNames(null)].  Nothing is printed and the
    handler's own function never runs. *)
Theorem listener_null_arg (l : listener) (pre post : list rv) :
  Forall (fun a => exists s, format_arg a = Ok s) pre ->
  call_listener l (pre ++ RNull :: post) = ([], Err TypeError).
Proof.
  intros Hpre. destruct (map_res_total _ _ Hpre) as [ys Hys].
  unfold call_listener, log_line. rewrite map_res_app, Hys. reflexivity.
Qed.

Lemma inherited_accessor_object_prototype (k : jstr) : inherited_accessor k object_prototype = false.
Proof. reflexivity. Qed.

(** The loop copies plain properties one by one, onto a prototype that
    has no accessor of their names. *)
Lemma convert_plain_props (proto : rv) (ps : list (jstr * rprop)) :
  plain ps -> Forall (fun kp => inherited_accessor (fst kp) proto = false) ps ->
  forall acc, convert_props ps acc proto = Ok (RObj (acc ++ ps) proto).
Proof.
  induction 1 as [|[k p] ps [v [Hp [Hf Hk]]] _ IH]; intros Ha acc; [now rewrite app_nil_r|].
  inversion_clear Ha as [|? ? Hi Ha']. cbn [fst snd] in Hp, Hk, Hi. subst p.
  cbn [convert_props print_value]. rewrite Hf. unfold assign_prop.
  rewrite (key_eqb_neq _ _ Hk), Hi. cbn [bind]. rewrite IH by exact Ha'.
  rewrite <- app_assoc. reflexivity.
Qed.

Lemma convert_plain (ps : list (jstr * rprop)) :
  plain ps -> convert_props ps [] object_prototype = Ok (RObj ps object_prototype).
Proof.
  intros H. apply (convert_plain_props object_prototype ps H).
  apply Forall_forall. intros. apply inherited_accessor_object_prototype.
Qed.

(** [JSON.stringify] reads the prototype only for [toJSON]. *)
Lemma to_json_proto (ps : list (jstr * rprop)) (p1 p2 : rv) :
  lookup_toJSON (RObj ps p1) = lookup_toJSON (RObj ps p2) -> to_json (RObj ps p1) = to_json (RObj ps p2).
Proof. intros H. cbn [to_json]. rewrite H. reflexivity. Qed.

Lemma lookup_own (ps : list (jstr * rprop)) (p : rv) :
  lookup_toJSON (RObj ps p) = Ok false -> lookup_toJSON (RObj ps object_prototype) = Ok false.
Proof. cbn [lookup_toJSON]. destruct (find _ ps) as [[k q]|]; auto. Qed.

Lemma format_converted (obj o : rv) :
  typeof_object obj = true -> (forall l, obj <> RArr l) -> convertObjectForPrinting obj = Ok o ->
  format_arg obj = (s <- json_stringify o ;; Ok (match s with Some s => s | None => [] end)).
Proof.
  intros Ht Ha Hc. unfold format_arg. rewrite Ht.
  destruct obj; try discriminate; [now destruct (Ha elems) | now rewrite Hc].
Qed.

(** C27: A handler prints an object argument with plain properties by
    its own properties alone: whatever its prototype, the line holds
    what [JSON.stringify] prints for the same properties on a fresh
    object, so an inherited [toJSON] (a [Date], a class instance) is
    never called.  When the argument has no [toJSON], own or inherited,
    that is what [JSON.stringify] prints for the argument itself. *)
Theorem format_plain_object (ps : list (jstr * rprop)) (proto : rv) :
  plain ps ->
  format_arg (RObj ps proto) =
    (s <- json_stringify (RObj ps object_prototype) ;; Ok (match s with Some s => s | None => [] end)) /\
  (lookup_toJSON (RObj ps proto) = Ok false ->
   json_stringify (RObj ps proto) = json_stringify (RObj ps object_prototype)).
Proof.
  intros H. split.
  - apply format_converted; [reflexivity | discriminate |]. exact (convert_plain ps H).
  - intros Hl. unfold json_stringify. rewrite (to_json_proto ps proto object_prototype); [reflexivity|].
    rewrite Hl. symmetry. exact (lookup_own ps proto Hl).
Qed.

(** C28: A property named ['__proto__'] (which [JSON.parse] creates as an
    own property) is never printed: [result['__proto__'] = v] runs the
    [Object.prototype] setter, which makes an object [v] the prototype
    of the copy and ignores any other value.  The copy holds the other
    properties only, and when it has no [toJSON] the handler prints the
    argument as if the key were absent. *)
Theorem proto_key_dropped (v : rv) (en : bool) (ps : list (jstr * rprop)) :
  typeof_function v = false -> plain ps ->
  Forall (fun kp => inherited_accessor (fst kp) v = false) ps ->
  let proto := if typeof_object v then v else object_prototype in
  convertObjectForPrinting (RObj ((js "__proto__", PData v en) :: ps) object_prototype) = Ok (RObj ps proto) /\
  (lookup_toJSON (RObj ps proto) = Ok false ->
   format_arg (RObj ((js "__proto__", PData v en) :: ps) object_prototype) = format_arg (RObj ps object_prototype)).
Proof.
  intros Hf Hp Ha proto.
  assert (Hc : convertObjectForPrinting (RObj ((js "__proto__", PData v en) :: ps) object_prototype)
               = Ok (RObj ps proto)).
  { unfold convertObjectForPrinting. cbn [typeof_object negb own_props bind convert_props print_value].
    rewrite Hf. unfold assign_prop. rewrite key_eqb_refl, Hf, orb_false_r. cbn [bind].
    unfold proto. destruct (typeof_object v).
    - exact (convert_plain_props v ps Hp Ha []).
    - exact (convert_plain ps Hp). }
  split; [exact Hc|]. intros Hl.
  rewrite (format_converted _ _ (eq_refl : typeof_object (RObj _ object_prototype) = true) ltac:(discriminate) Hc).
  rewrite (proj1 (format_plain_object ps object_prototype Hp)).
  unfold json_stringify. rewrite (to_json_proto ps proto object_prototype); [reflexivity|].
  rewrite Hl. symmetry. exact (lookup_own ps proto Hl).
Qed.

(** C29: A getter that throws is caught only at the top level of an
    argument: the property is dropped and the line printed, while the
    same getter one object deeper is run by [JSON.stringify] outside the
    [try], so the handler throws, prints nothing and does not run its
    own function.  A non-enumerable property, which [JSON.stringify]
    would skip, is printed. *)
Theorem getter_errors (l : listener) (k k' : jstr) (e : js_error) (en : bool) (s : jstr) :
  k <> js "__proto__" -> k' <> js "__proto__" ->
  format_arg (RObj [(k, PAccessor (Some (Err e)) en)] object_prototype) = Ok (js "{}") /\
  call_listener l [RObj [(k', PData (RObj [(k, PAccessor (Some (Err e)) true)] object_prototype) en)]
                        object_prototype] = ([], Err e) /\
  format_arg (RObj [(k, PData (RStr s) false)] object_prototype) = Ok (stringify (JObj [(k, JStr s)])) /\
  json_stringify (RObj [(k, PData (RStr s) false)] object_prototype) = Ok (Some (js "{}")).
Proof.
  intros Hk Hk'.
  unfold call_listener, log_line, format_arg, convertObjectForPrinting, json_stringify.
  cbn - [key_eqb js stringify]. unfold assign_prop. rewrite (key_eqb_neq _ _ Hk), (key_eqb_neq _ _ Hk').
  cbn - [key_eqb js stringify]. unfold key_is. cbn [fst].
  destruct (key_eqb k (js "toJSON")), (key_eqb k' (js "toJSON")); destruct en; repeat split.
Qed.

Lemma firstn_prefix (p s : jstr) : firstn (List.length p) (p ++ s) = p.
Proof. apply firstn_app_exact. Qed.

(** C30: In sloppy mode each room handler, called by the SDK with
    arguments it can print, prints exactly one line, which starts with
    [------ ] and the handler's key, and then runs its own function
    with the same arguments, in that order. *)
Theorem room_listener_call (hs : list (jstr * listener)) (k : jstr) (l : listener) (args : list rv) :
  useRTCRoomListeners false = Ok hs -> In (k, l) hs ->
  Forall (fun a => exists s, format_arg a = Ok s) args ->
  exists line, call_listener l args = ([ConsoleLog line; Executed k args], Ok tt) /\
    firstn (List.length (js "------ " ++ k)) line = js "------ " ++ k.
Proof.
  intros Hh Hin Ha. injection Hh as <-. destruct (map_res_total _ _ Ha) as [ys Hys].
  assert (Hl : fnName l = k /\ has_executer l = true)
    by (cbn in Hin; intuition (match goal with H : (_, _) = (_, _) |- _ => injection H as <- <- end; auto)).
  destruct Hl as [Hk He]. unfold call_listener, log_line. rewrite Hys, Hk, He. cbn [bind].
  eexists. split; [reflexivity|]. rewrite (app_assoc (js "------ ") k). apply firstn_prefix.
Qed.

(** ** Witnesses *)

Lemma listener_null_arg_witness :
  call_listener demo_joined [RStr (js "u1"); RNull; RNum 2] = ([], Err TypeError).
Proof.
  apply (listener_null_arg demo_joined [RStr (js "u1")] [RNum 2]).
  constructor; [exists (js "u1"); reflexivity | constructor].
Defined.

Lemma format_plain_object_witness :
  format_arg (RObj [(js "uid", PData (RStr (js "u1")) true)] date_prototype) =
    (s <- json_stringify (RObj [(js "uid", PData (RStr (js "u1")) true)] object_prototype) ;;
     Ok (match s with Some s => s | None => [] end)) /\
  (lookup_toJSON (RObj [(js "uid", PData (RStr (js "u1")) true)] date_prototype) = Ok false ->
   json_stringify (RObj [(js "uid", PData (RStr (js "u1")) true)] date_prototype) =
   json_stringify (RObj [(js "uid", PData (RStr (js "u1")) true)] object_prototype)).
Proof.
  apply format_plain_object.
  constructor; [exists (RStr (js "u1")); split; [reflexivity | split; [reflexivity | vm_compute; discriminate]] | constructor].
Defined.

Lemma proto_key_dropped_witness :
  let v := RObj [(js "a", PData (RNum 1) true)] object_prototype in
  let proto := if typeof_object v then v else object_prototype in
  convertObjectForPrinting (RObj ((js "__proto__", PData v true) :: [(js "b", PData (RNum 2) true)]) object_prototype)
    = Ok (RObj [(js "b", PData (RNum 2) true)] proto) /\
  (lookup_toJSON (RObj [(js "b", PData (RNum 2) true)] proto) = Ok false ->
   format_arg (RObj ((js "__proto__", PData v true) :: [(js "b", PData (RNum 2) true)]) object_prototype)
   = format_arg (RObj [(js "b", PData (RNum 2) true)] object_prototype)).
Proof.
  apply (proto_key_dropped (RObj [(js "a", PData (RNum 1) true)] object_prototype) true).
  - reflexivity.
  - constructor; [exists (RNum 2); split; [reflexivity | split; [reflexivity | vm_compute; discriminate]] | constructor].
  - constructor; [reflexivity | constructor].
Defined.

Lemma getter_errors_witness :
  let g := PAccessor (Some (Err TypeError)) true in
  format_arg (RObj [(js "x", g)] object_prototype) = Ok (js "{}") /\
  call_listener demo_joined [RObj [(js "y", PData (RObj [(js "x", g)] object_prototype) true)] object_prototype]
    = ([], Err TypeError) /\
  format_arg (RObj [(js "x", PData (RStr (js "s")) false)] object_prototype)
    = Ok (stringify (JObj [(js "x", JStr (js "s"))])) /\
  json_stringify (RObj [(js "x", PData (RStr (js "s")) false)] object_prototype) = Ok (Some (js "{}")).
Proof. apply getter_errors; vm_compute; discriminate. Defined.

Lemma room_listener_call_witness :
  exists line, call_listener demo_joined [RStr (js "u1")] =
    ([ConsoleLog line; Executed (js "onUserJoined") [RStr (js "u1")]], Ok tt) /\
    firstn (List.length (js "------ " ++ js "onUserJoined")) line = js "------ " ++ js "onUserJoined".
Proof.
  apply (room_listener_call [(js "onUserJoined", demo_joined);
                             (js "onUserPublishStream", mkListener (js "onUserPublishStream") (js "f") true)]).
  - reflexivity.
  - left. reflexivity.
  - constructor; [exists (js "u1"); reflexivity | constructor].
Defined.
