(* ===== verification/Utf8.v ===== *)
(** * crypto-js [enc.Utf8]

    [serialize] (RTCTokenHelper.ts line 77) turns the envelope text into
    bytes with [CryptoJS.enc.Utf8.parse]; [parse] (lines 93-95) turns the
    base64-decoded bytes back into text with [toString(CryptoJS.enc.Utf8)];
    [CryptoJS.HmacSHA256(msg, key)] (lines 67, 115) also reads both
    strings with [Utf8.parse].  crypto-js implements them as
    [Latin1.parse(unescape(encodeURIComponent(s)))] and
    [decodeURIComponent(escape(Latin1.stringify(bytes)))], the latter
    wrapped so that any [URIError] becomes [Error('Malformed UTF-8 data')].
    Composed, they are the UTF-8 encoding of the code points of the
    string, which throws [URIError] on a lone surrogate, and the strict
    UTF-8 decoding of ECMA-262's Decode, which rejects truncated
    sequences, stray continuation bytes, overlong forms, encoded
    surrogates and code points above [10FFFF].  Bytes are integers in
    [0, 256). *)

From Stdlib Require Import ZArith List Lia Bool.
From S2P Require Import Prelude JsString.
Import ListNotations.
Local Open Scope Z_scope.
Local Open Scope bool_scope.
Local Open Scope res_scope.

Definition bytes := list Z.

Definition byte_ok (b : Z) : bool := (0 <=? b) && (b <? 256).

Definition is_high (c : Z) : bool := (55296 <=? c) && (c <=? 56319).
Definition is_low (c : Z) : bool := (56320 <=? c) && (c <=? 57343).

(** UTF-8 bytes of one code point. *)
Definition utf8_cp (cp : Z) : bytes :=
  if cp <? 128 then [cp]
  else if cp <? 2048 then [192 + cp / 64; 128 + cp mod 64]
  else if cp <? 65536 then [224 + cp / 4096; 128 + cp / 64 mod 64; 128 + cp mod 64]
  else [240 + cp / 262144; 128 + cp / 4096 mod 64; 128 + cp / 64 mod 64; 128 + cp mod 64].

(** [Utf8.parse(s)]: the UTF-8 bytes of the code points of [s]; a lone
    surrogate makes [encodeURIComponent] throw. *)
Fixpoint utf8_parse (s : jstr) : result bytes :=
  match s with
  | [] => Ok []
  | c :: r =>
      if is_high c then
        match r with
        | d :: r' =>
            if is_low d then
              let cp := 65536 + (c - 55296) * 1024 + (d - 56320) in
              t <- utf8_parse r' ;; Ok (utf8_cp cp ++ t)
            else Err URIError
        | [] => Err URIError
        end
      else if is_low c then Err URIError
      else t <- utf8_parse r ;; Ok (utf8_cp c ++ t)
  end.

Definition is_cont (b : Z) : bool := (128 <=? b) && (b <? 192).

(** The code units of one decoded code point. *)
Definition utf16_cp (cp : Z) : jstr :=
  if cp <? 65536 then [cp]
  else [55296 + (cp - 65536) / 1024; 56320 + (cp - 65536) mod 1024].

(** [Utf8.stringify(bytes)]: strict UTF-8 decoding. *)
Fixpoint utf8_stringify (bs : bytes) : result jstr :=
  match bs with
  | [] => Ok []
  | b :: r =>
      if b <? 128 then t <- utf8_stringify r ;; Ok (b :: t)
      else if (194 <=? b) && (b <? 224) then
        match r with
        | b1 :: r' =>
            if is_cont b1 then
              t <- utf8_stringify r' ;; Ok (utf16_cp ((b - 192) * 64 + (b1 - 128)) ++ t)
            else Err MalformedUtf8
        | [] => Err MalformedUtf8
        end
      else if (224 <=? b) && (b <? 240) then
        match r with
        | b1 :: b2 :: r' =>
            let cp := (b - 224) * 4096 + (b1 - 128) * 64 + (b2 - 128) in
            if is_cont b1 && is_cont b2 && (2048 <=? cp) && negb (is_high cp || is_low cp) then
              t <- utf8_stringify r' ;; Ok (utf16_cp cp ++ t)
            else Err MalformedUtf8
        | _ => Err MalformedUtf8
        end
      else if (240 <=? b) && (b <? 245) then
        match r with
        | b1 :: b2 :: b3 :: r' =>
            let cp := (b - 240) * 262144 + (b1 - 128) * 4096 + (b2 - 128) * 64 + (b3 - 128) in
            if is_cont b1 && is_cont b2 && is_cont b3 && (65536 <=? cp) && (cp <=? 1114111) then
              t <- utf8_stringify r' ;; Ok (utf16_cp cp ++ t)
            else Err MalformedUtf8
        | _ => Err MalformedUtf8
        end
      else Err MalformedUtf8
  end.

(** ** Round trip *)

(** Well-formed UTF-16: code units in range, surrogates only in pairs. *)
Inductive utf16_wf : jstr -> Prop :=
| wf_nil : utf16_wf []
| wf_unit (c : Z) (r : jstr) :
    0 <= c < 65536 -> is_high c = false -> is_low c = false -> utf16_wf r -> utf16_wf (c :: r)
| wf_pair (c d : Z) (r : jstr) :
    is_high c = true -> is_low d = true -> utf16_wf r -> utf16_wf (c :: d :: r).

Definition scalar (cp : Z) : Prop := 0 <= cp <= 1114111 /\ ~ (55296 <= cp <= 57343).

Definition bytes_ok (bs : bytes) : Prop := Forall (fun b => 0 <= b < 256) bs.

Lemma is_high_spec (c : Z) : is_high c = true <-> 55296 <= c <= 56319.
Proof. unfold is_high. rewrite andb_true_iff, !Z.leb_le. reflexivity. Qed.

Lemma is_low_spec (c : Z) : is_low c = true <-> 56320 <= c <= 57343.
Proof. unfold is_low. rewrite andb_true_iff, !Z.leb_le. reflexivity. Qed.

Lemma is_high_false (c : Z) : is_high c = false <-> ~ (55296 <= c <= 56319).
Proof. rewrite <- is_high_spec. destruct (is_high c); intuition congruence. Qed.

Lemma is_low_false (c : Z) : is_low c = false <-> ~ (56320 <= c <= 57343).
Proof. rewrite <- is_low_spec. destruct (is_low c); intuition congruence. Qed.

(** Decoding the UTF-8 bytes of one scalar value gives its code units. *)
Lemma utf8_stringify_cp (cp : Z) (t : bytes) :
  scalar cp ->
  utf8_stringify (utf8_cp cp ++ t) = '(s) <- utf8_stringify t ;; Ok (utf16_cp cp ++ s).
Proof.
  intros [Hr Hs]. unfold utf8_cp.
  destruct (Z.ltb_spec cp 128).
  - cbn [app utf8_stringify]. zbool. unfold utf16_cp. zbool. reflexivity.
  - destruct (Z.ltb_spec cp 2048).
    + cbn [app utf8_stringify]. unfold is_cont.
      assert (2 <= cp / 64 < 32) by (split; [apply Z.div_le_lower_bound | apply Z.div_lt_upper_bound]; lia).
      pose proof (Z.mod_pos_bound cp 64 ltac:(lia)). pose proof (Z.div_mod cp 64 ltac:(lia)).
      zbool. unfold utf16_cp.
      replace ((192 + cp / 64 - 192) * 64 + (128 + cp mod 64 - 128)) with cp by lia. zbool. reflexivity.
    + destruct (Z.ltb_spec cp 65536).
      * cbn [app utf8_stringify]. unfold is_cont.
        assert (0 <= cp / 4096 < 16) by (split; [apply Z.div_pos | apply Z.div_lt_upper_bound]; lia).
        pose proof (Z.mod_pos_bound cp 64 ltac:(lia)). pose proof (Z.mod_pos_bound (cp / 64) 64 ltac:(lia)).
        pose proof (Z_split_digit cp 64 64 ltac:(lia) ltac:(lia)) as E. change (64 * 64) with 4096 in E.
        zbool.
        replace ((224 + cp / 4096 - 224) * 4096 + (128 + cp / 64 mod 64 - 128) * 64 + (128 + cp mod 64 - 128))
          with cp by lia.
        rewrite (proj2 (is_high_false cp)), (proj2 (is_low_false cp)) by lia.
        cbn [orb negb]. unfold utf16_cp. zbool. reflexivity.
      * cbn [app utf8_stringify]. unfold is_cont.
        assert (0 <= cp / 262144 < 5) by (split; [apply Z.div_pos | apply Z.div_lt_upper_bound]; lia).
        pose proof (Z.mod_pos_bound cp 64 ltac:(lia)). pose proof (Z.mod_pos_bound (cp / 64) 64 ltac:(lia)).
        pose proof (Z.mod_pos_bound (cp / 4096) 64 ltac:(lia)).
        pose proof (Z_split_digit cp 64 64 ltac:(lia) ltac:(lia)) as E1. change (64 * 64) with 4096 in E1.
        pose proof (Z_split_digit cp 64 4096 ltac:(lia) ltac:(lia)) as E2. change (4096 * 64) with 262144 in E2.
        pose proof (Z.div_mod cp 4096 ltac:(lia)).
        zbool.
        replace ((240 + cp / 262144 - 240) * 262144 + (128 + cp / 4096 mod 64 - 128) * 4096 +
                 (128 + cp / 64 mod 64 - 128) * 64 + (128 + cp mod 64 - 128)) with cp by lia.
        zbool. unfold utf16_cp. zbool. reflexivity.
Qed.

Lemma utf8_cp_bytes (cp : Z) : scalar cp -> bytes_ok (utf8_cp cp).
Proof.
  intros [Hr _]. unfold bytes_ok, utf8_cp.
  pose proof (Z.mod_pos_bound cp 64 ltac:(lia)).
  pose proof (Z.mod_pos_bound (cp / 64) 64 ltac:(lia)).
  pose proof (Z.mod_pos_bound (cp / 4096) 64 ltac:(lia)).
  destruct (Z.ltb_spec cp 128); [repeat constructor; lia|].
  destruct (Z.ltb_spec cp 2048).
  { assert (cp / 64 < 32) by (apply Z.div_lt_upper_bound; lia).
    assert (0 <= cp / 64) by (apply Z.div_pos; lia). repeat constructor; lia. }
  destruct (Z.ltb_spec cp 65536).
  { assert (cp / 4096 < 16) by (apply Z.div_lt_upper_bound; lia).
    assert (0 <= cp / 4096) by (apply Z.div_pos; lia). repeat constructor; lia. }
  assert (cp / 262144 < 5) by (apply Z.div_lt_upper_bound; lia).
  assert (0 <= cp / 262144) by (apply Z.div_pos; lia). repeat constructor; lia.
Qed.

Lemma utf16_cp_unit (c : Z) :
  0 <= c < 65536 -> is_high c = false -> is_low c = false -> scalar c /\ utf16_cp c = [c].
Proof.
  intros Hc Hh Hl. apply is_high_false in Hh. apply is_low_false in Hl.
  split; [split; lia|]. unfold utf16_cp. zbool. reflexivity.
Qed.

Lemma utf16_cp_pair (c d : Z) :
  is_high c = true -> is_low d = true ->
  let cp := 65536 + (c - 55296) * 1024 + (d - 56320) in
  scalar cp /\ utf16_cp cp = [c; d].
Proof.
  intros Hh Hl cp. apply is_high_spec in Hh. apply is_low_spec in Hl. subst cp.
  split; [split; lia|]. unfold utf16_cp. zbool.
  replace (65536 + (c - 55296) * 1024 + (d - 56320) - 65536) with ((c - 55296) * 1024 + (d - 56320)) by lia.
  set (a := (c - 55296) * 1024 + (d - 56320)).
  rewrite <- (Z.div_unique a 1024 (c - 55296) (d - 56320)) by (unfold a; lia).
  rewrite <- (Z.mod_unique a 1024 (c - 55296) (d - 56320)) by (unfold a; lia).
  do 3 f_equal; lia.
Qed.

(** UTF-8 encoding of well-formed text succeeds, yields bytes, and
    decodes back to the same text. *)
Lemma utf8_roundtrip (s : jstr) :
  utf16_wf s -> exists bs, utf8_parse s = Ok bs /\ bytes_ok bs /\ utf8_stringify bs = Ok s.
Proof.
  induction 1 as [| c r Hc Hh Hl _ [bs [Hp [Hb Hs]]] | c d r Hh Hl _ [bs [Hp [Hb Hs]]]].
  - exists []. repeat constructor.
  - destruct (utf16_cp_unit c Hc Hh Hl) as [Hsc Hu].
    exists (utf8_cp c ++ bs). cbn [utf8_parse]. rewrite Hh, Hl, Hp, bind_ok.
    split; [reflexivity|]. split; [apply Forall_app; split; [apply utf8_cp_bytes, Hsc | exact Hb]|].
    rewrite utf8_stringify_cp, Hs, Hu by exact Hsc. reflexivity.
  - destruct (utf16_cp_pair c d Hh Hl) as [Hsc Hu].
    eexists. cbn [utf8_parse]. rewrite Hh, Hl, Hp, bind_ok. split; [reflexivity|].
    split; [apply Forall_app; split; [apply utf8_cp_bytes, Hsc | exact Hb]|].
    rewrite utf8_stringify_cp, Hs, Hu by exact Hsc. reflexivity.
Qed.

(** A non-empty text has a non-empty encoding. *)
Lemma utf8_parse_nonempty (c : Z) (r : jstr) (bs : bytes) :
  utf8_parse (c :: r) = Ok bs -> bs <> [].
Proof.
  assert (Hcp : forall cp t, utf8_cp cp ++ t <> []).
  { intros cp t. unfold utf8_cp. repeat destruct (_ <? _); discriminate. }
  cbn. destruct (is_high c).
  - destruct r as [|d r']; [discriminate|]. destruct (is_low d); [|discriminate].
    intros E. bind_ok_inv E. injection E as <-. apply Hcp.
  - destruct (is_low c); [discriminate|]. intros E. bind_ok_inv E. injection E as <-. apply Hcp.
Qed.

(** ** The decoder yields well-formed text *)

Lemma utf16_cp_wf (cp : Z) (t : jstr) : scalar cp -> utf16_wf t -> utf16_wf (utf16_cp cp ++ t).
Proof.
  intros [Hr Hs] Ht. unfold utf16_cp. destruct (Z.ltb_spec cp 65536).
  - apply wf_unit; [lia | apply is_high_false | apply is_low_false | exact Ht]; lia.
  - pose proof (Z.mod_pos_bound (cp - 65536) 1024 ltac:(lia)).
    assert (0 <= (cp - 65536) / 1024 < 1024) by (split; [apply Z.div_pos | apply Z.div_lt_upper_bound]; lia).
    apply wf_pair; [apply is_high_spec | apply is_low_spec | exact Ht]; lia.
Qed.

Lemma is_cont_spec (b : Z) : is_cont b = true <-> 128 <= b < 192.
Proof. unfold is_cont. rewrite andb_true_iff, Z.leb_le, Z.ltb_lt. reflexivity. Qed.

(** [Utf8.stringify] never produces a lone surrogate. *)
Lemma utf8_stringify_wf (bs : bytes) (s : jstr) :
  bytes_ok bs -> utf8_stringify bs = Ok s -> utf16_wf s.
Proof.
  remember (List.length bs) as n eqn:E. revert bs E s.
  induction n as [n IH] using (well_founded_induction Wf_nat.lt_wf). intros bs E s Hb H.
  destruct bs as [|b r]; cbn in H; [injection H as <-; constructor|].
  inversion_clear Hb as [|? ? Hb0 Hr].
  assert (IHr : forall r' t, bytes_ok r' -> (List.length r' < List.length (b :: r))%nat ->
                  utf8_stringify r' = Ok t -> utf16_wf t)
    by (intros r' t ? ? ?; eapply (IH (List.length r')); subst; eauto).
  destruct (Z.ltb_spec b 128).
  { bind_ok_inv H. injection H as <-.
    apply wf_unit; [lia | apply is_high_false; lia | apply is_low_false; lia | eapply IHr; eauto]. }
  destruct ((194 <=? b) && (b <? 224)) eqn:E2.
  { destruct r as [|b1 r']; [discriminate|]. inversion_clear Hr as [|? ? _ Hr'].
    destruct (is_cont b1) eqn:C1; [|discriminate]. bind_ok_inv H. injection H as <-.
    apply andb_true_iff in E2. rewrite Z.leb_le, Z.ltb_lt in E2. apply is_cont_spec in C1.
    apply utf16_cp_wf; [split; lia | eapply IHr; [exact Hr' | cbn; lia | eassumption]]. }
  destruct ((224 <=? b) && (b <? 240)) eqn:E3.
  { destruct r as [|b1 [|b2 r']]; try discriminate.
    inversion_clear Hr as [|? ? _ Hr1]. inversion_clear Hr1 as [|? ? _ Hr'].
    match type of H with context [if ?c then _ else _] => destruct c eqn:C end; [|discriminate].
    bind_ok_inv H. injection H as <-.
    rewrite !andb_true_iff, negb_true_iff, orb_false_iff, !is_cont_spec, Z.leb_le in C.
    rewrite is_high_false, is_low_false in C.
    apply andb_true_iff in E3. rewrite Z.leb_le, Z.ltb_lt in E3.
    apply utf16_cp_wf; [split; lia | eapply IHr; [exact Hr' | cbn; lia | eassumption]]. }
  destruct ((240 <=? b) && (b <? 245)) eqn:E4; [|discriminate].
  destruct r as [|b1 [|b2 [|b3 r']]]; try discriminate.
  inversion_clear Hr as [|? ? _ Hr1]. inversion_clear Hr1 as [|? ? _ Hr2].
  inversion_clear Hr2 as [|? ? _ Hr'].
  match type of H with context [if ?c then _ else _] => destruct c eqn:C end; [|discriminate].
  bind_ok_inv H. injection H as <-.
  rewrite !andb_true_iff, !is_cont_spec, !Z.leb_le in C.
  apply utf16_cp_wf; [split; lia | eapply IHr; [exact Hr' | cbn; lia | eassumption]].
Qed.
