(* ===== verification/Base64.v ===== *)
(** * crypto-js [enc.Base64]

    [hmacSign] (RTCTokenHelper.ts line 68) and [serialize] (line 76)
    print bytes with [CryptoJS.enc.Base64.stringify]; [parse] (line 93)
    reads the body of the token with [CryptoJS.enc.Base64.parse].

    [stringify] takes the bytes three at a time, writes four characters
    of the alphabet [A-Za-z0-9+/] for a full group, three for a group of
    two bytes and two for a group of one, and pads with [=] to a multiple
    of four.

    [parse] is lenient: it stops at the first [=], never fails, and for
    every position [i] with [i mod 4 <> 0] emits the byte
    [((rev[s[i-1]] << 2(i mod 4)) | (rev[s[i]] >>> (6 - 2(i mod 4)))) & 0xff],
    where [rev] maps a character outside the alphabet to [undefined],
    which the shift operators read as [0].  crypto-js ORs the unmasked
    value into its word array; the bits above the low byte are the low
    bits of the previous byte again (or fall off the 32-bit word), so the
    masked byte is what the array holds.  Characters are code units; a
    byte [b] stands for the character of code [b]. *)

From Stdlib Require Import ZArith List Lia Bool.
From S2P Require Import Prelude JsString.
Import ListNotations.
Local Open Scope Z_scope.
Local Open Scope bool_scope.

(** The character of a 6-bit value: [A-Z], [a-z], [0-9], [+], [/]. *)
Definition b64_char (x : Z) : Z :=
  if x <? 26 then 65 + x
  else if x <? 52 then 71 + x
  else if x <? 62 then x - 4
  else if x =? 62 then 43
  else 47.

Definition PAD : Z := 61.

(** The reverse map; [0] for a character outside the alphabet. *)
Definition b64_rev (c : Z) : Z :=
  if (65 <=? c) && (c <=? 90) then c - 65
  else if (97 <=? c) && (c <=? 122) then c - 71
  else if (48 <=? c) && (c <=? 57) then c + 4
  else if c =? 43 then 62
  else if c =? 47 then 63
  else 0.

Definition sextet (triplet : Z) (j : Z) : Z :=
  Z.land (Z.shiftr triplet (6 * (3 - j))) 63.

(** One group of up to three bytes; missing bytes read as [0]. *)
Definition b64_group (b1 b2 b3 : Z) (n : nat) : jstr :=
  let triplet := Z.lor (Z.lor (Z.shiftl b1 16) (Z.shiftl b2 8)) b3 in
  firstn n (map (fun j => b64_char (sextet triplet j)) [0; 1; 2; 3]).

(** [Base64.stringify] before the padding. *)
Fixpoint b64_body (bs : list Z) : jstr :=
  match bs with
  | b1 :: b2 :: b3 :: r => b64_group b1 b2 b3 4 ++ b64_body r
  | [b1; b2] => b64_group b1 b2 0 3
  | [b1] => b64_group b1 0 0 2
  | [] => []
  end.

Definition padding (len : nat) : jstr := repeat PAD ((4 - len mod 4) mod 4).

Definition b64_stringify (bs : list Z) : jstr :=
  let body := b64_body bs in body ++ padding (List.length body).

(** The byte decoded at a position [i] with [k = i mod 4], [k <> 0]. *)
Definition b64_byte (k : Z) (prev cur : Z) : Z :=
  Z.land (Z.lor (Z.shiftl (b64_rev prev) (2 * k)) (Z.shiftr (b64_rev cur) (6 - 2 * k))) 255.

(** The characters before the first [=]. *)
Fixpoint before_pad (s : jstr) : jstr :=
  match s with
  | c :: r => if c =? PAD then [] else c :: before_pad r
  | [] => []
  end.

Fixpoint b64_decode_body (s : jstr) : list Z :=
  match s with
  | c0 :: c1 :: c2 :: c3 :: r =>
      b64_byte 1 c0 c1 :: b64_byte 2 c1 c2 :: b64_byte 3 c2 c3 :: b64_decode_body r
  | [c0; c1; c2] => [b64_byte 1 c0 c1; b64_byte 2 c1 c2]
  | [c0; c1] => [b64_byte 1 c0 c1]
  | _ => []
  end.

(** [Base64.parse]: never throws. *)
Definition b64_parse (s : jstr) : list Z := b64_decode_body (before_pad s).

(** ** Round trip *)

(** The four characters of a group of bytes, as digits of base 64. *)
Definition group_chars (b1 b2 b3 : Z) : jstr :=
  map b64_char [b1 / 4; b1 mod 4 * 16 + b2 / 16; b2 mod 16 * 4 + b3 / 64; b3 mod 64].

Definition byte_list (bs : list Z) : Prop := Forall (fun b => 0 <= b < 256) bs.

(** A change to an encoded text that keeps every digit but the last one
    before the first [=]: its lowest bit is flipped.  In a final group of
    two or three digits that bit is one of the unused bits. *)
Definition b64_flip_last (s : jstr) : jstr :=
  let body := before_pad s in
  removelast body ++ b64_char (Z.lxor (b64_rev (last body 0)) 1) :: skipn (List.length body) s.

Lemma lor_mul_pow2 (a b n : Z) :
  0 <= n -> 0 <= b < 2 ^ n -> Z.lor (a * 2 ^ n) b = a * 2 ^ n + b.
Proof.
  intros Hn Hb. rewrite <- Z.add_lor_land.
  replace (Z.land (a * 2 ^ n) b) with 0; [lia|].
  symmetry. apply Z.bits_inj'. intros i Hi. rewrite Z.land_spec, Z.bits_0.
  destruct (Z.lt_ge_cases i n).
  - rewrite Z.mul_pow2_bits_low by lia. reflexivity.
  - rewrite <- (Z.mod_small b (2 ^ n)) by lia.
    rewrite Z.mod_pow2_bits_high by lia. apply andb_false_r.
Qed.

Lemma b64_rev_char (x : Z) : 0 <= x < 64 -> b64_rev (b64_char x) = x.
Proof.
  intros Hx. unfold b64_char, b64_rev.
  destruct (Z.ltb_spec x 26); [zbool; lia|].
  destruct (Z.ltb_spec x 52); [zbool; lia|].
  destruct (Z.ltb_spec x 62); [zbool; lia|].
  destruct (Z.eqb_spec x 62); zbool; lia.
Qed.

Lemma b64_char_not_pad (x : Z) : 0 <= x -> b64_char x <> PAD.
Proof.
  unfold b64_char, PAD. intros Hx.
  destruct (Z.ltb_spec x 26); [lia|]. destruct (Z.ltb_spec x 52); [lia|].
  destruct (Z.ltb_spec x 62); [lia|]. destruct (x =? 62); lia.
Qed.

Lemma sextet_div (t j : Z) : 0 <= j <= 3 -> sextet t j = t / 2 ^ (6 * (3 - j)) mod 64.
Proof.
  intros Hj. unfold sextet. rewrite Z.shiftr_div_pow2 by lia.
  change 63 with (Z.ones 6). rewrite Z.land_ones by lia. reflexivity.
Qed.

Lemma b64_byte_char (k x y : Z) :
  1 <= k <= 3 -> 0 <= x < 64 -> 0 <= y < 64 ->
  b64_byte k (b64_char x) (b64_char y) = (x * 2 ^ (2 * k) + y / 2 ^ (6 - 2 * k)) mod 256.
Proof.
  intros Hk Hx Hy. unfold b64_byte. rewrite !b64_rev_char by lia.
  rewrite Z.shiftl_mul_pow2, Z.shiftr_div_pow2 by lia.
  change 255 with (Z.ones 8). rewrite Z.land_ones by lia.
  rewrite lor_mul_pow2; [reflexivity | lia |].
  assert (k = 1 \/ k = 2 \/ k = 3) as [-> | [-> | ->]] by lia; cbn; split;
    (apply Z.div_pos || apply Z.div_lt_upper_bound); lia.
Qed.

Lemma triplet_sum (b1 b2 b3 : Z) :
  0 <= b2 < 256 -> 0 <= b3 < 256 ->
  Z.lor (Z.lor (Z.shiftl b1 16) (Z.shiftl b2 8)) b3 = b1 * 65536 + b2 * 256 + b3.
Proof.
  intros H2 H3. rewrite !Z.shiftl_mul_pow2 by lia.
  rewrite (lor_mul_pow2 b1 (b2 * 2 ^ 8) 16) by (cbn; lia).
  replace (b1 * 2 ^ 16 + b2 * 2 ^ 8) with ((b1 * 256 + b2) * 2 ^ 8) by (cbn; lia).
  rewrite lor_mul_pow2 by (cbn; lia). cbn. lia.
Qed.

Lemma b64_group_chars (b1 b2 b3 : Z) (n : nat) :
  0 <= b1 < 256 -> 0 <= b2 < 256 -> 0 <= b3 < 256 ->
  b64_group b1 b2 b3 n = firstn n (group_chars b1 b2 b3).
Proof.
  intros H1 H2 H3. unfold b64_group, group_chars. rewrite triplet_sum by lia.
  cbn [map]. rewrite !sextet_div by lia. cbn -[Z.mul Z.div Z.modulo].
  f_equal. f_equal; [|f_equal; [|f_equal; [|f_equal]]]; f_equal; Z.div_mod_to_equations; lia.
Qed.

Lemma group_bytes (b1 b2 b3 : Z) :
  0 <= b1 < 256 -> 0 <= b2 < 256 -> 0 <= b3 < 256 ->
  b64_byte 1 (b64_char (b1 / 4)) (b64_char (b1 mod 4 * 16 + b2 / 16)) = b1 /\
  b64_byte 2 (b64_char (b1 mod 4 * 16 + b2 / 16)) (b64_char (b2 mod 16 * 4 + b3 / 64)) = b2 /\
  b64_byte 3 (b64_char (b2 mod 16 * 4 + b3 / 64)) (b64_char (b3 mod 64)) = b3.
Proof.
  intros H1 H2 H3.
  rewrite !b64_byte_char. all: Z.div_mod_to_equations; lia.
Qed.

Lemma group_chars_not_pad (b1 b2 b3 : Z) :
  0 <= b1 -> 0 <= b2 -> 0 <= b3 -> Forall (fun c => c <> PAD) (group_chars b1 b2 b3).
Proof.
  intros. unfold group_chars. cbn [map].
  repeat constructor; apply b64_char_not_pad; Z.div_mod_to_equations; lia.
Qed.

Ltac forall_inv :=
  repeat match goal with H : Forall _ (_ :: _) |- _ => inversion_clear H end.

Lemma b64_body_decode (bs : list Z) :
  byte_list bs ->
  Forall (fun c => c <> PAD) (b64_body bs) /\ b64_decode_body (b64_body bs) = bs.
Proof.
  intros H. remember (List.length bs) as n eqn:E. revert bs H E.
  induction n as [n IH] using (well_founded_induction Wf_nat.lt_wf). intros bs H E.
  destruct bs as [|b1 [|b2 [|b3 r]]]; [split; constructor | | |];
    inversion_clear H as [|? ? Hb1 H']; try inversion_clear H' as [|? ? Hb2 H''];
    try inversion_clear H'' as [|? ? Hb3 Hr]; cbn [b64_body];
    rewrite !b64_group_chars by lia; pose proof (group_bytes b1).
  - destruct (H 0 0 Hb1 ltac:(lia) ltac:(lia)) as [E1 _].
    pose proof (group_chars_not_pad b1 0 0 ltac:(lia) ltac:(lia) ltac:(lia)) as Hp.
    unfold group_chars in *. cbn [firstn map b64_decode_body] in Hp |- *. forall_inv.
    split; [repeat constructor; assumption|]. rewrite E1. reflexivity.
  - destruct (H b2 0 Hb1 Hb2 ltac:(lia)) as [E1 [E2 _]].
    pose proof (group_chars_not_pad b1 b2 0 ltac:(lia) ltac:(lia) ltac:(lia)) as Hp.
    unfold group_chars in *. cbn [firstn map b64_decode_body] in Hp |- *. forall_inv.
    split; [repeat constructor; assumption|]. rewrite E1, E2. reflexivity.
  - destruct (H b2 b3 Hb1 Hb2 Hb3) as [E1 [E2 E3]].
    destruct (IH (List.length r) ltac:(cbn in E; lia) r Hr eq_refl) as [Hp' Hd].
    pose proof (group_chars_not_pad b1 b2 b3 ltac:(lia) ltac:(lia) ltac:(lia)) as Hp.
    unfold group_chars in *. cbn [firstn map] in Hp |- *.
    split; [apply Forall_app; auto|]. cbn [app b64_decode_body]. rewrite E1, E2, E3, Hd. reflexivity.
Qed.

Lemma before_pad_app (s r : jstr) :
  Forall (fun c => c <> PAD) s -> before_pad (s ++ r) = s ++ before_pad r.
Proof.
  induction 1 as [|c s Hc _ IH]; [reflexivity|]. cbn. rewrite IH.
  destruct (Z.eqb_spec c PAD); [contradiction | reflexivity].
Qed.

Lemma before_pad_padding (n : nat) : before_pad (padding n) = [].
Proof. unfold padding. destruct ((4 - n mod 4) mod 4)%nat; reflexivity. Qed.

(** [Base64.parse] inverts [Base64.stringify] on bytes. *)
Lemma b64_roundtrip (bs : list Z) : byte_list bs -> b64_parse (b64_stringify bs) = bs.
Proof.
  intros H. destruct (b64_body_decode bs H) as [Hp Hd]. unfold b64_parse, b64_stringify.
  rewrite before_pad_app, before_pad_padding, app_nil_r by exact Hp. exact Hd.
Qed.


Lemma b64_group_length (b1 b2 b3 : Z) : List.length (b64_group b1 b2 b3 4) = 4%nat.
Proof. reflexivity. Qed.

Lemma b64_stringify_cons3 (b1 b2 b3 : Z) (r : list Z) :
  b64_stringify (b1 :: b2 :: b3 :: r) = b64_group b1 b2 b3 4 ++ b64_stringify r.
Proof.
  unfold b64_stringify. cbn [b64_body]. rewrite <- app_assoc. f_equal. f_equal.
  unfold padding. rewrite length_app, b64_group_length.
  replace (4 + List.length (b64_body r))%nat with (List.length (b64_body r) + 1 * 4)%nat by lia.
  rewrite Nat.Div0.mod_add. reflexivity.
Qed.


(** [Base64.parse] stops at the first [=]: an [=] and anything after it
    appended to a text change nothing. *)
Lemma before_pad_cut (q r : jstr) : before_pad (q ++ PAD :: r) = before_pad q.
Proof.
  induction q as [|c q IH]; cbn; [reflexivity|]. now rewrite IH.
Qed.

(** ** The unused bits of the last digit *)

Lemma b64_rev_range (c : Z) : 0 <= b64_rev c < 64.
Proof.
  unfold b64_rev.
  repeat match goal with
  | |- context [if ?b then _ else _] => let E := fresh "E" in destruct b eqn:E
  end; rewrite ?andb_true_iff, ?Z.leb_le, ?Z.eqb_eq in *; lia.
Qed.

Lemma lxor_1_range (x : Z) : 0 <= x < 64 -> 0 <= Z.lxor x 1 < 64.
Proof.
  intros Hx. assert (H0 : 0 <= Z.lxor x 1) by (apply Z.lxor_nonneg; lia). split; [exact H0|].
  destruct (Z.eq_dec (Z.lxor x 1) 0) as [->|Hn]; [lia|].
  change 64 with (2 ^ 6). apply (proj2 (Z.log2_lt_pow2 (Z.lxor x 1) 6 ltac:(lia))).
  eapply Z.le_lt_trans; [apply Z.log2_lxor; lia|].
  apply Z.max_lub_lt; [|cbn; lia].
  destruct (Z.eq_dec x 0) as [->|]; [cbn; lia|]. apply (proj1 (Z.log2_lt_pow2 x 6 ltac:(lia))); cbn; lia.
Qed.

Lemma lxor_1_shiftr (x k : Z) : 1 <= k -> Z.shiftr (Z.lxor x 1) k = Z.shiftr x k.
Proof.
  intros Hk. apply Z.bits_inj'. intros n Hn.
  rewrite !Z.shiftr_spec, Z.lxor_spec by lia.
  rewrite (Z.bits_above_log2 1) by (cbn; lia). apply xorb_false_r.
Qed.

Lemma b64_byte_flip (k p c : Z) :
  k = 1 \/ k = 2 -> b64_byte k p (b64_char (Z.lxor (b64_rev c) 1)) = b64_byte k p c.
Proof.
  intros Hk. pose proof (b64_rev_range c). unfold b64_byte.
  rewrite b64_rev_char by (apply lxor_1_range; lia). rewrite lxor_1_shiftr by lia. reflexivity.
Qed.

(** Flipping the lowest bit of a last digit at position [1] or [2] of
    its group leaves the decoded bytes unchanged. *)
Lemma b64_decode_body_flip (s : jstr) (c : Z) :
  (List.length s mod 4 = 1 \/ List.length s mod 4 = 2)%nat ->
  b64_decode_body (s ++ [b64_char (Z.lxor (b64_rev c) 1)]) = b64_decode_body (s ++ [c]).
Proof.
  remember (List.length s) as n eqn:E. revert s E.
  induction n as [n IH] using (well_founded_induction Wf_nat.lt_wf). intros s E Hn.
  destruct s as [|c0 [|c1 [|c2 [|c3 r]]]]; cbn [List.length] in E; subst n;
    try (cbn in Hn; lia).
  - cbn. now rewrite b64_byte_flip by lia.
  - cbn. now rewrite b64_byte_flip by lia.
  - cbn [app b64_decode_body]. rewrite (IH (List.length r)); [reflexivity|lia|reflexivity|].
    replace (S (S (S (S (List.length r))))) with (List.length r + 1 * 4)%nat in Hn by lia.
    now rewrite Nat.Div0.mod_add in Hn.
Qed.

Lemma before_pad_not_pad (s : jstr) : Forall (fun c => c <> PAD) (before_pad s).
Proof.
  induction s as [|c s IH]; cbn; [constructor|].
  destruct (Z.eqb_spec c PAD); [constructor | now constructor].
Qed.

Lemma before_pad_rest (s : jstr) : before_pad (skipn (List.length (before_pad s)) s) = [].
Proof.
  induction s as [|c s IH]; cbn; [reflexivity|].
  destruct (Z.eqb_spec c PAD) as [->|]; cbn; [reflexivity | exact IH].
Qed.

Lemma before_pad_prefix (s : jstr) : before_pad s ++ skipn (List.length (before_pad s)) s = s.
Proof.
  induction s as [|c s IH]; cbn; [reflexivity|].
  destruct (Z.eqb_spec c PAD); cbn; [reflexivity | now rewrite IH].
Qed.

Lemma removelast_not_pad (l : jstr) :
  Forall (fun c => c <> PAD) l -> Forall (fun c => c <> PAD) (removelast l).
Proof.
  intros H. destruct l as [|x l] using rev_ind; [constructor|].
  rewrite removelast_last. apply Forall_app in H. tauto.
Qed.

(** [Base64.parse] reads the text with its last digit flipped as the
    text itself when that digit is the second or third of its group. *)
Lemma b64_flip_last_parse (s : jstr) :
  (List.length (before_pad s) mod 4 = 2 \/ List.length (before_pad s) mod 4 = 3)%nat ->
  b64_parse (b64_flip_last s) = b64_parse s.
Proof.
  intros Hn. unfold b64_parse, b64_flip_last.
  pose proof (before_pad_not_pad s) as Hp. pose proof (before_pad_rest s) as Hr.
  set (body := before_pad s) in *. set (rest := skipn (List.length body) s) in *.
  destruct body as [|x l] using rev_ind; [cbn in Hn; lia|].
  rewrite removelast_last, last_last.
  rewrite before_pad_app by (apply Forall_app in Hp; tauto). cbn.
  rewrite (proj2 (Z.eqb_neq _ _)) by (apply b64_char_not_pad, Z.lxor_nonneg; pose proof (b64_rev_range x); lia).
  rewrite Hr. rewrite length_app in Hn. cbn [List.length] in Hn. apply b64_decode_body_flip.
  rewrite Nat.Div0.add_mod in Hn. pose proof (Nat.mod_upper_bound (List.length l) 4 ltac:(lia)).
  destruct (List.length l mod 4)%nat as [|[|[|[|]]]]; cbn in Hn; lia.
Qed.

Lemma b64_flip_last_neq (s : jstr) :
  before_pad s <> [] -> b64_flip_last s <> s.
Proof.
  intros Hne. unfold b64_flip_last. pose proof (before_pad_prefix s) as Hs.
  set (body := before_pad s) in *. set (rest := skipn (List.length body) s) in *.
  clearbody body rest. rewrite <- Hs.
  destruct body as [|x l] using rev_ind; [contradiction|].
  rewrite removelast_last, last_last in *. rewrite <- app_assoc. intros E.
  apply app_inv_head in E. injection E as E.
  apply (f_equal b64_rev) in E. pose proof (b64_rev_range x).
  rewrite b64_rev_char in E by (apply lxor_1_range; lia).
  apply (f_equal (Z.lxor (b64_rev x))) in E.
  rewrite <- Z.lxor_assoc, !Z.lxor_nilpotent, Z.lxor_0_l in E. discriminate.
Qed.

(** Every digit [Base64.stringify] writes is a character of the alphabet. *)
Lemma b64_body_chars (bs : list Z) :
  Forall (fun c => exists y, 0 <= y < 64 /\ c = b64_char y) (b64_body bs).
Proof.
  assert (G : forall b1 b2 b3 n,
    Forall (fun c => exists y, 0 <= y < 64 /\ c = b64_char y) (b64_group b1 b2 b3 n)).
  { intros b1 b2 b3 n. unfold b64_group. rewrite firstn_map. apply Forall_map, Forall_forall.
    intros j _. eexists. split; [|reflexivity]. unfold sextet.
    change 63 with (Z.ones 6). rewrite Z.land_ones by lia. apply Z.mod_pos_bound. lia. }
  remember (List.length bs) as n eqn:E. revert bs E.
  induction n as [n IH] using (well_founded_induction Wf_nat.lt_wf). intros bs E.
  destruct bs as [|b1 [|b2 [|b3 r]]]; cbn [b64_body]; auto.
  apply Forall_app. split; [apply G | apply (IH (List.length r)); [cbn in E; lia | reflexivity]].
Qed.

Lemma b64_body_length (bs : list Z) :
  (List.length (b64_body bs) mod 4 = match List.length bs mod 3 with 0 => 0 | 1 => 2 | _ => 3 end)%nat.
Proof.
  remember (List.length bs) as n eqn:E. revert bs E.
  induction n as [n IH] using (well_founded_induction Wf_nat.lt_wf). intros bs E.
  destruct bs as [|b1 [|b2 [|b3 r]]]; subst n; cbn [b64_body]; try reflexivity.
  rewrite length_app, b64_group_length. cbn [List.length].
  replace (S (S (S (List.length r)))) with (List.length r + 1 * 3)%nat by lia.
  rewrite Nat.Div0.mod_add, <- (IH (List.length r) ltac:(cbn; lia) r eq_refl).
  replace (4 + List.length (b64_body r))%nat with (List.length (b64_body r) + 1 * 4)%nat by lia.
  apply Nat.Div0.mod_add.
Qed.

Lemma before_pad_stringify (bs : list Z) : before_pad (b64_stringify bs) = b64_body bs.
Proof.
  unfold b64_stringify. rewrite before_pad_app, before_pad_padding, app_nil_r; [reflexivity|].
  eapply Forall_impl; [|apply b64_body_chars]. intros c [y [Hy ->]]. apply b64_char_not_pad; lia.
Qed.

(** A text of [Base64.stringify] that ends in [=] has a second text, its
    last digit changed, which [Base64.parse] reads as the same bytes. *)
Lemma b64_stringify_flip (bs : list Z) :
  last (b64_stringify bs) 0 = PAD ->
  b64_flip_last (b64_stringify bs) <> b64_stringify bs /\
  b64_parse (b64_flip_last (b64_stringify bs)) = b64_parse (b64_stringify bs).
Proof.
  intros Hl. pose proof (b64_body_length bs) as Hm. pose proof (b64_body_chars bs) as Hc.
  assert (Hn : (List.length bs mod 3 <> 0)%nat).
  { intros H0. rewrite H0 in Hm. unfold b64_stringify, padding in Hl. rewrite Hm, app_nil_r in Hl.
    destruct (b64_body bs) as [|x l] using rev_ind; [discriminate|].
    rewrite last_last in Hl. apply Forall_app in Hc. destruct Hc as [_ Hc]. revert Hl.
    inversion_clear Hc as [|? ? Hx]. destruct Hx as [y [Hy Ex]]. subst x.
    apply b64_char_not_pad; lia. }
  split.
  - apply b64_flip_last_neq. rewrite before_pad_stringify.
    intros E. rewrite E in Hm. cbn [List.length] in Hm. destruct (List.length bs mod 3)%nat as [|[|]]; cbn in Hm; lia.
  - apply b64_flip_last_parse. rewrite before_pad_stringify, Hm.
    destruct (List.length bs mod 3)%nat as [|[|]]; lia.
Qed.

(** ** [Base64.parse] yields bytes *)

Lemma b64_byte_range (k p c : Z) : 0 <= b64_byte k p c < 256.
Proof.
  unfold b64_byte. change 255 with (Z.ones 8). rewrite Z.land_ones by lia.
  apply Z.mod_pos_bound. lia.
Qed.

Lemma b64_parse_bytes (s : jstr) : byte_list (b64_parse s).
Proof.
  unfold b64_parse. generalize (before_pad s) as t. intros t.
  remember (List.length t) as n eqn:E. revert t E.
  induction n as [n IH] using (well_founded_induction Wf_nat.lt_wf). intros t E.
  destruct t as [|c0 [|c1 [|c2 [|c3 r]]]]; cbn [b64_decode_body];
    repeat constructor; try apply b64_byte_range.
  apply (IH (List.length r)); [cbn in E; lia | reflexivity].
Qed.
