(* ===== verification/Hmac.v ===== *)
(** * The HMAC-SHA256 primitive

    [hmacSign] and [verify] (RTCTokenHelper.ts lines 67 and 115) call
    [CryptoJS.HmacSHA256(msg, key)], a library function of crypto-js.
    What the token code relies on is stated as the class [HmacSha256]:
    a function from the key bytes and the message bytes to a digest of
    32 bytes, each in [0, 256).  The theorems about the token are proved against the class,
    for every instance.  No property of the hash beyond its shape is
    assumed: where a theorem needs two digests to differ, it takes that
    as a hypothesis.

    [Sha256.hmac_fips] is the function computed from FIPS 180-4 and
    RFC 2104 (block size 64, ipad [0x36], opad [0x5c], a longer key
    hashed first); its RFC 4231 test vector below is checked by
    evaluation; [HmacFips] makes it an instance of the class. *)

From Stdlib Require Import ZArith List Lia Bool.
From S2P Require Import Prelude Utf8.
Import ListNotations.
Local Open Scope Z_scope.

Class HmacSha256 := {
  hmac : bytes -> bytes -> bytes;
  hmac_length : forall key msg, List.length (hmac key msg) = 32%nat;
  hmac_bytes : forall key msg, Forall (fun b => 0 <= b < 256) (hmac key msg);
}.

Module Sha256.

Definition M32 : Z := 2 ^ 32.
Definition add32 (a b : Z) : Z := (a + b) mod M32.
Definition rotr (x n : Z) : Z := Z.lor (Z.shiftr x n) (Z.land (Z.shiftl x (32 - n)) (M32 - 1)).

Definition K : list Z := [
  1116352408; 1899447441; 3049323471; 3921009573; 961987163; 1508970993; 2453635748; 2870763221;
  3624381080; 310598401; 607225278; 1426881987; 1925078388; 2162078206; 2614888103; 3248222580;
  3835390401; 4022224774; 264347078; 604807628; 770255983; 1249150122; 1555081692; 1996064986;
  2554220882; 2821834349; 2952996808; 3210313671; 3336571891; 3584528711; 113926993; 338241895;
  666307205; 773529912; 1294757372; 1396182291; 1695183700; 1986661051; 2177026350; 2456956037;
  2730485921; 2820302411; 3259730800; 3345764771; 3516065817; 3600352804; 4094571909; 275423344;
  430227734; 506948616; 659060556; 883997877; 958139571; 1322822218; 1537002063; 1747873779;
  1955562222; 2024104815; 2227730452; 2361852424; 2428436474; 2756734187; 3204031479; 3329325298].

Record state := mkState { ha : Z; hb : Z; hc : Z; hd : Z; he : Z; hf : Z; hg : Z; hh : Z }.

Definition H0 : state :=
  mkState 1779033703 3144134277 1013904242 2773480762 1359893119 2600822924 528734635 1541459225.

Definition be_word (b0 b1 b2 b3 : Z) : Z := b0 * 16777216 + b1 * 65536 + b2 * 256 + b3.

Fixpoint words16 (bs : list Z) : list Z :=
  match bs with
  | b0 :: b1 :: b2 :: b3 :: r => be_word b0 b1 b2 b3 :: words16 r
  | _ => []
  end.

Definition ssig0 (x : Z) : Z := Z.lxor (Z.lxor (rotr x 7) (rotr x 18)) (Z.shiftr x 3).
Definition ssig1 (x : Z) : Z := Z.lxor (Z.lxor (rotr x 17) (rotr x 19)) (Z.shiftr x 10).
Definition bsig0 (x : Z) : Z := Z.lxor (Z.lxor (rotr x 2) (rotr x 13)) (rotr x 22).
Definition bsig1 (x : Z) : Z := Z.lxor (Z.lxor (rotr x 6) (rotr x 11)) (rotr x 25).
Definition ch (x y z : Z) : Z := Z.lxor (Z.land x y) (Z.land (Z.lxor x (M32 - 1)) z).
Definition maj (x y z : Z) : Z := Z.lxor (Z.lxor (Z.land x y) (Z.land x z)) (Z.land y z).

(** The message schedule, extended from the 16 words of a block, most
    recent word first. *)
Fixpoint schedule (n : nat) (w : list Z) : list Z :=
  match n with
  | O => w
  | S n =>
      let w' := match w with
                | _ :: w2 :: _ :: _ :: _ :: _ :: w7 :: _ :: _ :: _ :: _ :: _ :: _ :: _ :: w15 :: w16 :: _ =>
                    add32 (add32 (ssig1 w2) w7) (add32 (ssig0 w15) w16) :: w
                | _ => w
                end in
      schedule n w'
  end.

Definition round (s : state) (kw : Z * Z) : state :=
  let '(k, w) := kw in
  let t1 := add32 (add32 (add32 (hh s) (bsig1 (he s))) (add32 (ch (he s) (hf s) (hg s)) k)) w in
  let t2 := add32 (bsig0 (ha s)) (maj (ha s) (hb s) (hc s)) in
  mkState (add32 t1 t2) (ha s) (hb s) (hc s) (add32 (hd s) t1) (he s) (hf s) (hg s).

Definition compress (s : state) (block : list Z) : state :=
  let w := rev (schedule 48 (rev (words16 block))) in
  let s' := fold_left round (combine K w) s in
  mkState (add32 (ha s) (ha s')) (add32 (hb s) (hb s')) (add32 (hc s) (hc s')) (add32 (hd s) (hd s'))
          (add32 (he s) (he s')) (add32 (hf s) (hf s')) (add32 (hg s) (hg s')) (add32 (hh s) (hh s')).

Fixpoint be_bytes (n : nat) (x : Z) : list Z :=
  match n with
  | O => []
  | S n => be_bytes n (x / 256) ++ [x mod 256]
  end.

(** The message, [0x80], zeros, and its length in bits on 8 bytes. *)
Definition pad (m : list Z) : list Z :=
  let l := List.length m in
  m ++ [128] ++ repeat 0 ((119 - l mod 64) mod 64) ++ be_bytes 8 (Z.of_nat l * 8).

Fixpoint blocks (fuel : nat) (m : list Z) : list (list Z) :=
  match fuel with
  | O => []
  | S f => match m with [] => [] | _ => firstn 64 m :: blocks f (skipn 64 m) end
  end.

Definition digest (s : state) : list Z :=
  be_bytes 4 (ha s) ++ be_bytes 4 (hb s) ++ be_bytes 4 (hc s) ++ be_bytes 4 (hd s) ++
  be_bytes 4 (he s) ++ be_bytes 4 (hf s) ++ be_bytes 4 (hg s) ++ be_bytes 4 (hh s).

Definition sha256 (m : list Z) : list Z :=
  let p := pad m in digest (fold_left compress (blocks (List.length p) p) H0).

Definition hmac_fips (key msg : list Z) : list Z :=
  let k := if (64 <? List.length key)%nat then sha256 key else key in
  let k := k ++ repeat 0 (64 - List.length k) in
  let ipad := map (fun b => Z.lxor b 54) k in
  let opad := map (fun b => Z.lxor b 92) k in
  sha256 (opad ++ sha256 (ipad ++ msg)).

Lemma length_be_bytes (n : nat) (x : Z) : List.length (be_bytes n x) = n.
Proof. revert x. induction n; intros x; simpl; [reflexivity|]. rewrite length_app, IHn. simpl. lia. Qed.

Lemma length_digest (s : state) : List.length (digest s) = 32%nat.
Proof. unfold digest. rewrite !length_app, !length_be_bytes. reflexivity. Qed.

Lemma hmac_fips_length (key msg : list Z) : List.length (hmac_fips key msg) = 32%nat.
Proof. unfold hmac_fips, sha256. apply length_digest. Qed.

Lemma be_bytes_range (n : nat) (x : Z) : Forall (fun b => 0 <= b < 256) (be_bytes n x).
Proof.
  revert x. induction n as [|n IH]; intros x; [constructor|]. cbn [be_bytes].
  apply Forall_app. split; [apply IH|]. constructor; [apply Z.mod_pos_bound; lia | constructor].
Qed.

Lemma digest_bytes (s : state) : Forall (fun b => 0 <= b < 256) (digest s).
Proof. unfold digest. repeat (apply Forall_app; split; [apply be_bytes_range|]); apply be_bytes_range. Qed.

Lemma hmac_fips_bytes (key msg : list Z) : Forall (fun b => 0 <= b < 256) (hmac_fips key msg).
Proof. unfold hmac_fips, sha256. apply digest_bytes. Qed.

(** RFC 4231, test case 2: key ["Jefe"], data ["what do ya want for nothing?"]. *)
Example hmac_fips_rfc4231_2 :
  hmac_fips [74; 101; 102; 101]
    [119; 104; 97; 116; 32; 100; 111; 32; 121; 97; 32; 119; 97; 110; 116; 32;
     102; 111; 114; 32; 110; 111; 116; 104; 105; 110; 103; 63] =
  [91; 220; 193; 70; 191; 96; 117; 78; 106; 4; 36; 38; 8; 149; 117; 199;
   90; 0; 63; 8; 157; 39; 57; 131; 157; 236; 88; 185; 100; 236; 56; 67].
Proof. vm_compute. reflexivity. Qed.

End Sha256.
