(* ===== verification/HmacFips.v ===== *)
(** * The FIPS HMAC-SHA256 as an instance of [HmacSha256]

    The concrete primitive the examples and witnesses of the development
    run on: [Hmac.Sha256.hmac_fips], with its two laws. *)

From S2P Require Import Hmac.

#[export] Instance hmac_sha256_fips : HmacSha256 := {
  hmac := Sha256.hmac_fips;
  hmac_length := Sha256.hmac_fips_length;
  hmac_bytes := Sha256.hmac_fips_bytes;
}.
