(* ===== verification/Codec.v ===== *)
(** * The layers of the token's wire format

    [serialize] (RTCTokenHelper.ts lines 76-80) writes
    [Base64.stringify(Utf8.parse(JSON.stringify(value)))] and [parse]
    (lines 93-96) reads [JSON.parse(Base64.parse(s).toString(Utf8))].
    This file composes the round trips of [Json], [Utf8] and [Base64]:
    [JSON.stringify] always prints well-formed UTF-16 (it escapes lone
    surrogates), so the UTF-8 encoding cannot throw, and the three
    decoders undo the three encoders.  It also describes text with an
    ASCII prefix (UTF-8 leaves it as it is, and [JSON.stringify] escapes
    it character by character), which is what [parse] meets when it
    starts reading at the wrong position. *)

From Stdlib Require Import ZArith List Lia Bool.
From S2P Require Import Prelude JsString JsObject Json Utf8 Base64.
Import ListNotations.
Local Open Scope Z_scope.
Local Open Scope bool_scope.
Local Open Scope res_scope.

Definition ascii (s : jstr) : Prop := Forall (fun c => 0 <= c < 128) s.

(** ** Well-formed UTF-16 *)

Lemma utf16_wf_app (a b : jstr) : utf16_wf a -> utf16_wf b -> utf16_wf (a ++ b).
Proof. induction 1; intros Hb; simpl; [exact Hb | apply wf_unit | apply wf_pair]; auto. Qed.

Lemma utf16_wf_ascii (s : jstr) : ascii s -> utf16_wf s.
Proof.
  induction 1 as [|c r Hc _ IH]; constructor; auto; [lia | |];
    [apply is_high_false | apply is_low_false]; lia.
Qed.

Lemma utf16_wf_jstr_ok (s : jstr) : utf16_wf s -> jstr_ok s = true.
Proof.
  unfold jstr_ok, code_unit_ok.
  induction 1 as [|c r Hc _ _ _ IH|c d r Hh Hl _ IH]; cbn [forallb]; [reflexivity| |].
  - rewrite IH. zbool. reflexivity.
  - apply is_high_spec in Hh. apply is_low_spec in Hl. rewrite IH. zbool. reflexivity.
Qed.

Lemma ascii_app (a b : jstr) : ascii a -> ascii b -> ascii (a ++ b).
Proof. intros. now apply Forall_app. Qed.

#[local] Hint Resolve utf16_wf_app utf16_wf_ascii ascii_app : tokdb.

Lemma hex_digit_ascii (d : Z) : 0 <= d < 16 -> 0 <= hex_digit d < 128.
Proof. unfold hex_digit. destruct (Z.ltb_spec d 10); lia. Qed.

Lemma unicode_escape_ascii (c : Z) : ascii (unicode_escape c).
Proof.
  unfold unicode_escape, ascii.
  repeat constructor; try lia; apply hex_digit_ascii; apply Z.mod_pos_bound; lia.
Qed.

Lemma num_units_ascii (z : Z) : ascii (num_units z).
Proof.
  assert (Hn : forall n, ascii (nat_units n)).
  { intros n. pose proof (uint_units_digits (N.to_uint n)) as Hd. unfold nat_units, ascii.
    induction (uint_units (N.to_uint n)) as [|c r IH]; [constructor|].
    cbn [forallb] in Hd. apply andb_true_iff in Hd as [Hc Hr]. unfold is_digit in Hc.
    apply andb_true_iff in Hc as [H1 H2]. apply Z.leb_le in H1, H2. constructor; auto; lia. }
  unfold num_units. destruct (z <? 0); [constructor; [lia|]|]; apply Hn.
Qed.

Lemma quote_unit_wf (c : Z) : code_unit_ok c = true -> utf16_wf (quote_unit c).
Proof.
  unfold code_unit_ok. intros Hc. apply andb_true_iff in Hc as [H1 H2].
  apply Z.leb_le in H1. apply Z.ltb_lt in H2. unfold quote_unit.
  repeat match goal with |- context [if ?b then _ else _] =>
    destruct b eqn:?; [try (apply utf16_wf_ascii; repeat constructor; lia)|] end.
  - apply utf16_wf_ascii, unicode_escape_ascii.
  - apply orb_false_iff in Heqb6 as [Hb Hl]. apply orb_false_iff in Hb as [_ Hh].
    constructor; [lia | exact Hh | exact Hl | constructor].
Qed.

Lemma quote_body_wf (s : jstr) : jstr_ok s = true -> utf16_wf (quote_body s).
Proof.
  unfold jstr_ok. remember (List.length s) as n eqn:E. revert s E.
  induction n as [n IH] using (well_founded_induction Wf_nat.lt_wf). intros s E Hs.
  destruct s as [|c [|d r]]; [constructor| |].
  - cbn in Hs |- *. apply quote_unit_wf. now rewrite andb_true_r in Hs.
  - cbn [forallb] in Hs. apply andb_true_iff in Hs as [Hc Hs]. rewrite quote_body_cons2.
    assert (Hd := Hs). cbn [forallb] in Hd. apply andb_true_iff in Hd as [Hd Hr].
    destruct (is_high_surrogate c && is_low_surrogate d) eqn:Hp.
    + apply andb_true_iff in Hp as [Hh Hl]. apply wf_pair; [exact Hh | exact Hl |].
      apply (IH (List.length r)); [cbn [List.length] in E |- *; lia | reflexivity | exact Hr].
    + apply utf16_wf_app; [now apply quote_unit_wf|].
      apply (IH (List.length (d :: r))); [cbn [List.length] in E |- *; lia | reflexivity | exact Hs].
Qed.

Lemma quote_wf (s : jstr) : jstr_ok s = true -> utf16_wf (quote s).
Proof.
  intros Hs. unfold quote. apply (utf16_wf_app [34]); [apply utf16_wf_ascii; repeat constructor; lia|].
  apply utf16_wf_app; [now apply quote_body_wf|]. apply utf16_wf_ascii; repeat constructor; lia.
Qed.

Lemma join_wf (sep : jstr) (l : list jstr) :
  utf16_wf sep -> Forall utf16_wf l -> utf16_wf (join sep l).
Proof.
  intros Hs. induction 1 as [|x l Hx Hl IH]; [constructor|].
  destruct l as [|y l]; [exact Hx|]. cbn [join]. auto using utf16_wf_app.
Qed.

Lemma bracket_wf (o c : Z) (s : jstr) :
  0 <= o < 128 -> 0 <= c < 128 -> utf16_wf s -> utf16_wf ([o] ++ s ++ [c]).
Proof.
  intros Ho Hc Hs. apply utf16_wf_app; [apply utf16_wf_ascii; repeat constructor; lia|].
  apply utf16_wf_app; [exact Hs | apply utf16_wf_ascii; repeat constructor; lia].
Qed.

(** [JSON.stringify] prints well-formed UTF-16. *)
Lemma stringify_wf (v : jsval) : json_ok v -> utf16_wf (stringify v).
Proof.
  induction v as [| b | n | s | l IH | o IH] using jsval_ind'; intros Hv.
  - apply utf16_wf_ascii. repeat constructor; lia.
  - apply utf16_wf_ascii. destruct b; repeat constructor; lia.
  - apply utf16_wf_ascii, num_units_ascii.
  - now apply quote_wf.
  - apply json_ok_arr in Hv. rewrite stringify_arr. apply bracket_wf; [lia | lia |].
    apply join_wf; [apply utf16_wf_ascii; repeat constructor; lia|].
    apply Forall_map. induction IH as [|x l Hx _ IHl]; inversion_clear Hv; constructor; auto.
  - apply json_ok_obj in Hv as [_ Hv]. rewrite stringify_obj. apply bracket_wf; [lia | lia |].
    apply join_wf; [apply utf16_wf_ascii; repeat constructor; lia|].
    apply Forall_map. induction IH as [|[k x] o Hx _ IHo]; inversion_clear Hv as [|? ? [Hk Hxok] Ho];
      constructor; auto.
    unfold member. cbn [fst snd] in *. apply utf16_wf_app; [now apply quote_wf|].
    apply (utf16_wf_app [58]); [apply utf16_wf_ascii; repeat constructor; lia | auto].
Qed.

(** ** The composed codec *)

Lemma utf8_parse_app (a b : jstr) :
  utf16_wf a -> utf8_parse (a ++ b) = '(x) <- utf8_parse a ;; '(y) <- utf8_parse b ;; Ok (x ++ y).
Proof.
  induction 1 as [|c r Hc Hh Hl _ IH|c d r Hh Hl _ IH].
  - cbn [app utf8_parse]. rewrite bind_ok. destruct (utf8_parse b); reflexivity.
  - cbn [app utf8_parse]. rewrite Hh, Hl, IH.
    destruct (utf8_parse r); [|reflexivity]. rewrite !bind_ok.
    destruct (utf8_parse b); [|reflexivity]. rewrite !bind_ok, app_assoc. reflexivity.
  - cbn [app utf8_parse]. rewrite Hh, Hl, IH.
    destruct (utf8_parse r); [|reflexivity]. rewrite !bind_ok.
    destruct (utf8_parse b); [|reflexivity]. rewrite !bind_ok, app_assoc. reflexivity.
Qed.

(** Well-formed text encoded as UTF-8 and then as base64 decodes back
    to itself. *)
Lemma text_codec_roundtrip (s : jstr) :
  utf16_wf s ->
  exists bs, utf8_parse s = Ok bs /\ bytes_ok bs /\ utf8_stringify (b64_parse (b64_stringify bs)) = Ok s.
Proof.
  intros Hs. destruct (utf8_roundtrip s Hs) as [bs [Hp [Hb Hd]]].
  exists bs. split; [exact Hp|]. split; [exact Hb|]. rewrite b64_roundtrip by exact Hb. exact Hd.
Qed.


Lemma b64_char_ascii (x : Z) : 0 <= x < 64 -> 0 <= b64_char x < 128.
Proof.
  unfold b64_char. intros Hx.
  destruct (Z.ltb_spec x 26); [lia|]. destruct (Z.ltb_spec x 52); [lia|].
  destruct (Z.ltb_spec x 62); [lia|]. destruct (x =? 62); lia.
Qed.

Lemma sextet_range (t j : Z) : 0 <= sextet t j < 64.
Proof.
  unfold sextet. change 63 with (Z.ones 6). rewrite Z.land_ones by lia.
  apply Z.mod_pos_bound. lia.
Qed.

Lemma b64_group_ascii (b1 b2 b3 : Z) (n : nat) : ascii (b64_group b1 b2 b3 n).
Proof.
  unfold b64_group, ascii.
  destruct n as [|[|[|[|n]]]]; cbn [firstn map];
    repeat (apply Forall_cons; [apply b64_char_ascii, sextet_range|]); try destruct n; apply Forall_nil.
Qed.

(** Base64 text is ASCII. *)
Lemma b64_stringify_ascii (bs : list Z) : ascii (b64_stringify bs).
Proof.
  unfold b64_stringify. apply ascii_app.
  - remember (List.length bs) as n eqn:E. revert bs E.
    induction n as [n IH] using (well_founded_induction Wf_nat.lt_wf). intros bs E.
    destruct bs as [|b1 [|b2 [|b3 r]]]; cbn [b64_body]; try apply b64_group_ascii; [constructor|].
    apply ascii_app; [apply b64_group_ascii|]. apply (IH (List.length r)); [cbn in E; lia | reflexivity].
  - unfold padding, ascii, PAD. apply Forall_forall. intros c Hc. apply repeat_spec in Hc. lia.
Qed.

(** ** Text with an ASCII prefix *)

Lemma quote_body_app_plain (p y : jstr) :
  Forall (fun c => is_high_surrogate c = false) p ->
  quote_body (p ++ y) = flat_map quote_unit p ++ quote_body y.
Proof.
  induction 1 as [|c p Hc _ IH]; [reflexivity|]. cbn [app flat_map]. rewrite <- app_assoc, <- IH.
  destruct (p ++ y) as [|d r]; [cbn; now rewrite app_nil_r|]. rewrite quote_body_cons2, Hc. reflexivity.
Qed.

Lemma utf8_parse_ascii (p : jstr) : ascii p -> utf8_parse p = Ok p.
Proof.
  induction 1 as [|c p Hc _ IH]; [reflexivity|]. cbn [utf8_parse].
  rewrite (proj2 (is_high_false c)), (proj2 (is_low_false c)) by lia. rewrite IH, bind_ok.
  unfold utf8_cp. zbool. reflexivity.
Qed.

Lemma utf16_wf_app_inv (p r : jstr) : ascii p -> utf16_wf (p ++ r) -> utf16_wf r.
Proof.
  induction 1 as [|c p Hc _ IH]; intros Hw; [exact Hw|]. apply IH.
  inversion Hw as [|? ? _ _ _ Hr|? ? ? Hh _ _]; subst; [exact Hr|].
  apply is_high_spec in Hh. lia.
Qed.


(** [ToString] of a value [JSON.parse] produced is text in range, so
    [JSON.parse(obj.msg)] reads text in range whatever [obj.msg] is. *)
Lemma to_string_ok (v : jsval) : json_ok v -> jstr_ok (to_string_val v) = true.
Proof.
  induction v as [| b | n | s | l IH | o IH] using jsval_ind'; intros Hok.
  - reflexivity.
  - destruct b; reflexivity.
  - apply utf16_wf_jstr_ok, utf16_wf_ascii, num_units_ascii.
  - exact Hok.
  - apply json_ok_arr in Hok. induction l as [|x r IHl]; [reflexivity|].
    inversion_clear IH as [|? ? Hx IHr]. inversion_clear Hok as [|? ? Hx' Hr].
    assert (Hone : jstr_ok (match x with JNull => [] | _ => to_string_val x end) = true)
      by (destruct x; first [reflexivity | apply Hx, Hx']).
    specialize (IHl IHr Hr). destruct r as [|y r']; [exact Hone|].
    change (jstr_ok ((match x with JNull => [] | _ => to_string_val x end) ++ [44]
                     ++ to_string_val (JArr (y :: r'))) = true).
    unfold jstr_ok in *. rewrite !forallb_app. apply andb_true_iff. split; [exact Hone|].
    apply andb_true_iff. split; [reflexivity | exact IHl].
  - reflexivity.
Qed.

Lemma js_to_string_ok (v : option jsval) :
  match v with Some x => json_ok x | None => True end -> jstr_ok (js_to_string v) = true.
Proof. destruct v as [x|]; [apply to_string_ok | reflexivity]. Qed.
