(* ===== verification/TokenIssue.v ===== *)
(** * The access token of [src/rtc/RTCTokenHelper.ts]: builder, packer, signer

    [AccessToken] is the record of the class's fields; each method is a
    function from the token (and the inputs the method reads from the
    environment: [Date.now()] in milliseconds, [Math.random()]) to the
    updated token, its result, or the exception it throws.  The HMAC
    primitive is the class [HmacSha256] of [Hmac], a section variable
    of every definition that signs.  This file holds the issuing side:
    the constructor, [addPrivilege], [expireTime], [packMsg], [hmacSign]
    and [serialize], with the theorems on the privilege map, on the
    canonical packing and on [serialize]; [TokenWire] holds the reading
    side. *)

From Stdlib Require Import ZArith List Lia Bool String.
From S2P Require Import Prelude JsString JsObject Json Utf8 Base64 Hmac HmacFips Codec.
Import ListNotations.
Local Open Scope Z_scope.
Local Open Scope bool_scope.
Local Open Scope res_scope.

(** ** Data (lines 4-34) *)

Definition VERSION : jstr := js "001".
Definition APP_ID_LENGTH : Z := 24.
Definition VERSION_LENGTH : Z := Z.of_nat (List.length VERSION).

Inductive Privileges :=
| PrivPublishStream
| privPublishAudioStream
| privPublishVideoStream
| privPublishDataStream
| PrivSubscribeStream.

(** The numeric values of the enum members. *)
Definition priv_code (p : Privileges) : Z :=
  match p with
  | PrivPublishStream => 0
  | privPublishAudioStream => 1
  | privPublishVideoStream => 2
  | privPublishDataStream => 3
  | PrivSubscribeStream => 4
  end.

Definition Privileges_eq_dec (p q : Privileges) : {p = q} + {p <> q}.
Proof. decide equality. Defined.

Record AccessToken := mkToken {
  appId : jstr;
  appKey : jstr;
  roomId : jstr;
  userId : jstr;
  issuedAt : Z;
  nonce : Z;
  expireAt : Z;
  privileges : jsmap;
  signature : jstr;
}.

Definition set_privileges (t : AccessToken) (m : jsmap) : AccessToken :=
  mkToken (appId t) (appKey t) (roomId t) (userId t) (issuedAt t) (nonce t) (expireAt t) m (signature t).

Definition set_expireAt (t : AccessToken) (e : Z) : AccessToken :=
  mkToken (appId t) (appKey t) (roomId t) (userId t) (issuedAt t) (nonce t) e (privileges t) (signature t).

Definition set_signature (t : AccessToken) (s : jstr) : AccessToken :=
  mkToken (appId t) (appKey t) (roomId t) (userId t) (issuedAt t) (nonce t) (expireAt t) (privileges t) s.

(** [Math.floor(Math.random() * 1e9)] where [Math.random()] returned
    [r / 2^53], [0 <= r < 2^53] (the product is taken exactly). *)
Definition random_nonce (r : Z) : Z := r * 1000000000 / 2 ^ 53.

(** [new AccessToken(appId, appKey, roomId, userId)] with [Date.now()]
    reading [now_ms] and [Math.random()] reading [r / 2^53]; the field
    initialisers give [expireAt = 0], an empty map and an empty
    signature. *)
Definition new_AccessToken (now_ms r : Z) (appId appKey roomId userId : jstr) : AccessToken :=
  {| appId := appId; appKey := appKey; roomId := roomId; userId := userId;
     issuedAt := now_ms / 1000; nonce := random_nonce r; expireAt := 0;
     privileges := []; signature := [] |}.

(** ** Builder (lines 36-52) *)

Definition Version : jstr := VERSION.

(** The aggregate publish privilege also grants its three parts, with
    the same expiry. *)
Definition addPrivilege (t : AccessToken) (p : Privileges) (expireTimestamp : Z) : AccessToken :=
  let m := map_set (privileges t) (priv_code p) expireTimestamp in
  let m :=
    if Privileges_eq_dec p PrivPublishStream then
      let m := map_set m (priv_code privPublishAudioStream) expireTimestamp in
      let m := map_set m (priv_code privPublishVideoStream) expireTimestamp in
      map_set m (priv_code privPublishDataStream) expireTimestamp
    else m in
  set_privileges t m.

Definition expireTime (t : AccessToken) (e : Z) : AccessToken := set_expireAt t e.

(** ** Packing and signing (lines 54-69) *)

Definition msg_object (t : AccessToken) : jsval :=
  JObj (obj_literal
          [(js "nonce", JNum (nonce t));
           (js "issuedAt", JNum (issuedAt t));
           (js "expireAt", JNum (expireAt t));
           (js "roomID", JStr (roomId t));
           (js "userID", JStr (userId t));
           (js "privileges", JObj (fromEntries (privileges t)))]).

Definition packMsg (t : AccessToken) : jstr := stringify (msg_object t).

Section WithHmac.
Context `{HmacSha256}.

(** [Base64.stringify(HmacSHA256(msg, key))]: crypto-js reads the key,
    then the message, as UTF-8. *)
Definition hmac_base64 (key msg : jstr) : result jstr :=
  kb <- utf8_parse key ;;
  mb <- utf8_parse msg ;;
  Ok (b64_stringify (hmac kb mb)).

Definition hmacSign (t : AccessToken) (msg : jstr) : result jstr := hmac_base64 (appKey t) msg.

(** ** Wire format (lines 71-83) *)

Definition envelope (msg sig : jstr) : jsval :=
  JObj (obj_literal [(js "msg", JStr msg); (js "signature", JStr sig)]).

(** [serialize] stores the signature in the token and returns the token
    string. *)
Definition serialize (t : AccessToken) : result (AccessToken * jstr) :=
  let msg := packMsg t in
  sig <- hmacSign t msg ;;
  let t := set_signature t sig in
  bs <- utf8_parse (stringify (envelope msg sig)) ;;
  let content := b64_stringify bs in
  Ok (t, Version ++ appId t ++ content).

(** Lines 128-133: the token before it is serialized. *)
Definition issue_token (appId appKey roomId userId : jstr) (ctor_ms r now_ms : Z) : AccessToken :=
  let token := new_AccessToken ctor_ms r appId appKey roomId userId in
  let now := now_ms / 1000 in
  let token := addPrivilege token PrivSubscribeStream now in
  let token := addPrivilege token PrivPublishStream (now + 3600) in
  expireTime token (now + 3600 * 2).

End WithHmac.

(** ** The tokens the wire format carries

    A token round-trips through [serialize] and [parse] when its [appId]
    has the length [parse] assumes, its numbers are safe integers (so
    that [JSON.stringify] prints them as integers), its strings are
    sequences of code units, and its privilege map has distinct array
    index keys (the keys [Privileges] gives it). *)
Record msg_ok (t : AccessToken) : Prop := {
  ok_nonce : safe_int (nonce t) = true;
  ok_issuedAt : safe_int (issuedAt t) = true;
  ok_expireAt : safe_int (expireAt t) = true;
  ok_roomId : jstr_ok (roomId t) = true;
  ok_userId : jstr_ok (userId t) = true;
  ok_map : map_wf (privileges t);
  ok_keys : index_keys (privileges t);
  ok_values : Forall (fun kv => safe_int (snd kv) = true) (privileges t);
}.

(** What [packMsg] needs to print the fields exactly: [msg_ok] without
    the constraint on the keys of the map, which [parse] does not give. *)
Record msg_printable (t : AccessToken) : Prop := {
  pr_nonce : safe_int (nonce t) = true;
  pr_issuedAt : safe_int (issuedAt t) = true;
  pr_expireAt : safe_int (expireAt t) = true;
  pr_roomId : jstr_ok (roomId t) = true;
  pr_userId : jstr_ok (userId t) = true;
  pr_map : map_wf (privileges t);
  pr_values : Forall (fun kv => safe_int (snd kv) = true) (privileges t);
}.

Record token_ok (t : AccessToken) : Prop := {
  ok_appId : Z.of_nat (List.length (appId t)) = APP_ID_LENGTH;
  ok_msg : msg_ok t;
}.

(** The first 18 code units of every envelope [serialize] prints: an
    open brace, the quoted key msg, a colon, the opening quote of the
    message string, then the message's open brace and its first key
    nonce with both quotes escaped by a backslash. *)
Definition ENVELOPE_PREFIX : jstr :=
  [123; 34; 109; 115; 103; 34; 58; 34; 123; 92; 34; 110; 111; 110; 99; 101; 92; 34].

(** A clock reading of [Date.now()]: a non-negative safe integer. *)
Definition clock_ok (ms : Z) : Prop := 0 <= ms <= MAX_SAFE_INTEGER.

(** ** A concrete issuance, run with [HmacFips]

    The token [tokenWithAppID] would build for the [appID] of [App.tsx],
    the key [secret], room and user [123456], at 2023-11-14 22:13:20 UTC
    ([1700000000000] ms) with [Math.random()] returning [1/2]. *)
Definition demo_ms : Z := 1700000000000.
Definition demo_token : AccessToken :=
  issue_token (js "68afed4e18ee8d017b08325f") (js "secret") (js "123456") (js "123456")
    demo_ms (2 ^ 52) demo_ms.
Definition demo_serialized : AccessToken * jstr :=
  match serialize demo_token with Ok r => r | Err _ => (demo_token, []) end.
Definition demo_string : jstr := snd demo_serialized.
(** The codes one call of [addPrivilege] sets. *)
Definition granted (p : Privileges) : list Z :=
  if Privileges_eq_dec p PrivPublishStream then [0; 1; 2; 3] else [priv_code p].

Definition mem (k : Z) (l : list Z) : bool := existsb (Z.eqb k) l.

(** Whether two grants set a common code. *)
Definition grants_overlap (p q : Privileges) : bool :=
  existsb (fun k => mem k (granted q)) (granted p).

(** ** Theorems *)

Lemma random_nonce_range (now_ms r : Z) (a k room user : jstr) :
  0 <= r < 2 ^ 53 ->
  0 <= nonce (new_AccessToken now_ms r a k room user) < 1000000000.
Proof.
  intros Hr. simpl. unfold random_nonce. split.
  - apply Z.div_pos; lia.
  - apply Z.div_lt_upper_bound; lia.
Qed.

(** C18: The nonce drawn by the constructor is in [0, 10^9). *)
Theorem random_nonce_bounds (now_ms r : Z) (a k room user : jstr) :
  0 <= r < 2 ^ 53 ->
  0 <= nonce (new_AccessToken now_ms r a k room user) < 1000000000.
Proof. intros. eapply random_nonce_range; eassumption. Qed.

(** C9: Granting the aggregate publish privilege sets the four publish
    privileges to the same expiry and leaves the others as they were. *)
Theorem addPrivilege_publish_cascade (t : AccessToken) (e k : Z) :
  map_get (privileges (addPrivilege t PrivPublishStream e)) k =
  if (0 <=? k) && (k <=? 3) then Some e else map_get (privileges t) k.
Proof.
  unfold addPrivilege. simpl. rewrite !map_get_set.
  destruct (Z.eqb_spec 3 k) as [<-|]; [reflexivity|].
  destruct (Z.eqb_spec 2 k) as [<-|]; [reflexivity|].
  destruct (Z.eqb_spec 1 k) as [<-|]; [reflexivity|].
  destruct (Z.eqb_spec 0 k) as [<-|]; [reflexivity|].
  destruct (Z.leb_spec 0 k), (Z.leb_spec k 3); simpl; try reflexivity. lia.
Qed.

(** C10: Any other privilege sets only its own entry. *)
Theorem addPrivilege_single (t : AccessToken) (p : Privileges) (e k : Z) :
  p <> PrivPublishStream ->
  map_get (privileges (addPrivilege t p e)) k =
  if priv_code p =? k then Some e else map_get (privileges t) k.
Proof.
  intros Hp. unfold addPrivilege. destruct (Privileges_eq_dec p PrivPublishStream); [contradiction|].
  simpl. apply map_get_set.
Qed.

Lemma addPrivilege_respects (t1 t2 : AccessToken) (p : Privileges) (e : Z) :
  map_equiv (privileges t1) (privileges t2) ->
  map_equiv (privileges (addPrivilege t1 p e)) (privileges (addPrivilege t2 p e)).
Proof.
  intros H. unfold addPrivilege. destruct (Privileges_eq_dec p PrivPublishStream);
    cbn [privileges set_privileges]; now rewrite H.
Qed.

(** One call of [addPrivilege] sets exactly the codes of [granted]. *)
Lemma addPrivilege_get (t : AccessToken) (p : Privileges) (e k : Z) :
  map_get (privileges (addPrivilege t p e)) k =
  if mem k (granted p) then Some e else map_get (privileges t) k.
Proof.
  unfold addPrivilege, granted, mem.
  destruct (Privileges_eq_dec p PrivPublishStream) as [->|]; cbn [privileges set_privileges];
    rewrite ?map_get_set; cbn [existsb priv_code]; rewrite ?orb_false_r, ?(Z.eqb_sym k);
    [|reflexivity].
  destruct (Z.eqb 3 k), (Z.eqb 2 k), (Z.eqb 1 k), (Z.eqb 0 k); reflexivity.
Qed.

Lemma grants_overlap_spec (p q : Privileges) :
  grants_overlap p q = true <-> exists k, mem k (granted p) = true /\ mem k (granted q) = true.
Proof.
  unfold grants_overlap, mem. rewrite existsb_exists. split.
  - intros [k [Hk Hq]]. exists k. split; [|exact Hq].
    apply existsb_exists. exists k. split; [exact Hk | apply Z.eqb_refl].
  - intros [k [Hp Hq]]. apply existsb_exists in Hp as [k' [Hk' Hkk]].
    apply Z.eqb_eq in Hkk. subst k'. exists k. split; assumption.
Qed.

(** C24: Two grants commute exactly when they give the same expiry or
    set no common code: the publish grant and one of its three parts
    with different expiries give different maps in the two orders (the
    later call wins), and every other pair gives maps with the same
    entries, so the signed messages are equal. *)
Theorem addPrivilege_commute (t : AccessToken) (p q : Privileges) (e f : Z) :
  map_equiv (privileges (addPrivilege (addPrivilege t p e) q f))
            (privileges (addPrivilege (addPrivilege t q f) p e))
  <-> e = f \/ grants_overlap p q = false.
Proof.
  split.
  - intros H. destruct (Z.eq_dec e f) as [|Hne]; [now left|right].
    destruct (grants_overlap p q) eqn:Ho; [|reflexivity].
    apply grants_overlap_spec in Ho as [k [Hp Hq]]. specialize (H k).
    rewrite !addPrivilege_get, Hp, Hq in H. congruence.
  - intros Hc k. rewrite !addPrivilege_get.
    destruct (mem k (granted q)) eqn:Hq, (mem k (granted p)) eqn:Hp; try reflexivity.
    destruct Hc as [->|Ho]; [reflexivity|].
    assert (grants_overlap p q = true) by (apply grants_overlap_spec; eauto). congruence.
Qed.

(** *** The printed message and envelope *)

Lemma msg_object_eq (t : AccessToken) :
  msg_object t =
  JObj [(js "nonce", JNum (nonce t)); (js "issuedAt", JNum (issuedAt t));
        (js "expireAt", JNum (expireAt t)); (js "roomID", JStr (roomId t));
        (js "userID", JStr (userId t)); (js "privileges", JObj (fromEntries (privileges t)))].
Proof. reflexivity. Qed.

Lemma envelope_eq (msg sig : jstr) :
  envelope msg sig = JObj [(js "msg", JStr msg); (js "signature", JStr sig)].
Proof. reflexivity. Qed.

Lemma ascii_jstr_ok (s : jstr) : ascii s -> jstr_ok s = true.
Proof. intros H. now apply utf16_wf_jstr_ok, utf16_wf_ascii. Qed.

Lemma fromEntries_json_ok (m : jsmap) :
  map_wf m -> Forall (fun kv => safe_int (snd kv) = true) m -> json_ok (JObj (fromEntries m)).
Proof.
  intros Hw Hv. apply json_ok_obj. split; [apply fromEntries_wf|].
  apply Forall_forall. intros kv Hin.
  destruct (fromEntries_member m kv Hw Hin) as [k [v [-> Hk]]]. cbn [fst snd json_ok].
  split; [apply ascii_jstr_ok, num_units_ascii|].
  apply map_get_in in Hk. exact (proj1 (Forall_forall _ _) Hv _ Hk).
Qed.

Lemma msg_printable_json_ok (t : AccessToken) : msg_printable t -> json_ok (msg_object t).
Proof.
  intros Ht. pose proof (fromEntries_json_ok _ (pr_map t Ht) (pr_values t Ht)).
  rewrite msg_object_eq. cbn [json_ok]. split; [split|].
  - cbn. repeat split; repeat constructor.
  - repeat constructor; cbn; intuition discriminate.
  - destruct Ht. cbn [json_ok]. repeat (split; [first [reflexivity | assumption] |]); tauto.
Qed.

Lemma msg_ok_printable (t : AccessToken) : msg_ok t -> msg_printable t.
Proof. intros []. constructor; assumption. Qed.

Lemma msg_json_ok (t : AccessToken) : msg_ok t -> json_ok (msg_object t).
Proof. intros Ht. apply msg_printable_json_ok, msg_ok_printable, Ht. Qed.

Lemma packMsg_prefix (t : AccessToken) :
  exists y, packMsg t = [123; 34; 110; 111; 110; 99; 101; 34; 58] ++ y.
Proof. eexists. unfold packMsg. rewrite msg_object_eq. reflexivity. Qed.

Lemma envelope_prefix (t : AccessToken) (sig : jstr) :
  exists z, stringify (envelope (packMsg t) sig) = ENVELOPE_PREFIX ++ 58 :: z.
Proof.
  destruct (packMsg_prefix t) as [y ->]. eexists. rewrite envelope_eq, stringify_obj.
  cbn [map join member fst snd stringify]. unfold member. cbn [fst snd stringify].
  unfold quote at 2. rewrite quote_body_app_plain by (repeat constructor). reflexivity.
Qed.

Lemma issue_token_privileges (a k room user : jstr) (ctor_ms r now_ms : Z) :
  privileges (issue_token a k room user ctor_ms r now_ms) =
  let now := now_ms / 1000 in
  [(4, now); (0, now + 3600); (1, now + 3600); (2, now + 3600); (3, now + 3600)].
Proof. reflexivity. Qed.

Lemma clock_safe (ms d : Z) : clock_ok ms -> 0 <= d <= 7200 -> safe_int (ms / 1000 + d) = true.
Proof.
  unfold clock_ok, safe_int, MAX_SAFE_INTEGER. intros Hm Hd. apply Z.leb_le.
  assert (0 <= ms / 1000) by (apply Z.div_pos; lia).
  pose proof (Z.mul_div_le ms 1000 ltac:(lia)). rewrite Z.abs_eq; lia.
Qed.

(** The token [tokenWithAppID] builds has the fields the wire format
    carries. *)
Lemma issue_token_msg_ok (a k room user : jstr) (ctor_ms r now_ms : Z) :
  jstr_ok room = true -> jstr_ok user = true -> clock_ok ctor_ms -> clock_ok now_ms ->
  0 <= r < 2 ^ 53 -> msg_ok (issue_token a k room user ctor_ms r now_ms).
Proof.
  intros Hr Hu Hc Hn Hrand. pose proof (fun d => clock_safe now_ms d Hn) as Hs.
  constructor; try assumption.
  - cbn [nonce issue_token expireTime set_expireAt addPrivilege set_privileges new_AccessToken].
    pose proof (random_nonce_range ctor_ms r a k room user Hrand) as Hb. cbn [nonce new_AccessToken] in Hb.
    unfold safe_int, MAX_SAFE_INTEGER. apply Z.leb_le. rewrite Z.abs_eq; lia.
  - cbn [issuedAt issue_token expireTime set_expireAt addPrivilege set_privileges new_AccessToken].
    rewrite <- (Z.add_0_r (ctor_ms / 1000)). apply clock_safe; [exact Hc | lia].
  - apply Hs; lia.
  - rewrite issue_token_privileges. repeat constructor; cbn; lia.
  - rewrite issue_token_privileges. unfold index_keys.
    assert (0 <= now_ms / 1000) by (apply Z.div_pos; unfold clock_ok in Hn; lia).
    repeat constructor; cbn; lia.
  - rewrite issue_token_privileges. repeat constructor; cbn [snd];
      [rewrite <- (Z.add_0_r (now_ms / 1000)); apply Hs; lia | apply Hs; lia ..].
Qed.

Section Serialize.
Context {hm : HmacSha256}.

Lemma serialize_inv (t t' : AccessToken) (s : jstr) :
  serialize t = Ok (t', s) ->
  exists sig bs, hmacSign t (packMsg t) = Ok sig /\ t' = set_signature t sig /\
    utf8_parse (stringify (envelope (packMsg t) sig)) = Ok bs /\
    s = Version ++ appId t ++ b64_stringify bs.
Proof.
  unfold serialize. intros E. bind_ok_inv E. cbv zeta in E. bind_ok_inv E.
  injection E as <- <-. eauto 6.
Qed.

(** The body of a serialized token encodes at least one byte. *)
Lemma serialize_content (t t' : AccessToken) (s : jstr) :
  serialize t = Ok (t', s) ->
  exists bs, s = Version ++ appId t ++ b64_stringify bs /\ bs <> [].
Proof.
  intros E. destruct (serialize_inv _ _ _ E) as (sig & bs & _ & _ & Hbs & ->).
  exists bs. split; [reflexivity|]. destruct (envelope_prefix t sig) as [z Hz].
  rewrite Hz in Hbs. destruct (ENVELOPE_PREFIX ++ 58 :: z) as [|c r] eqn:Ez.
  - destruct ENVELOPE_PREFIX; discriminate.
  - exact (utf8_parse_nonempty c r bs Hbs).
Qed.

Lemma envelope_json_ok (t : AccessToken) (sig : jstr) :
  msg_ok t -> ascii sig -> json_ok (envelope (packMsg t) sig).
Proof.
  intros Ht Hs. rewrite envelope_eq. cbn [json_ok]. split; [split|].
  - cbn. repeat split; repeat constructor.
  - repeat constructor; cbn; intuition discriminate.
  - split; [reflexivity|]. split; [apply utf16_wf_jstr_ok, stringify_wf, msg_json_ok, Ht|].
    split; [reflexivity|]. split; [apply ascii_jstr_ok, Hs | exact I].
Qed.

Lemma hmacSign_ascii (t : AccessToken) (msg sig : jstr) : hmacSign t msg = Ok sig -> ascii sig.
Proof.
  unfold hmacSign, hmac_base64. intros E. bind_ok_inv E. bind_ok_inv E.
  injection E as <-. apply b64_stringify_ascii.
Qed.

Lemma utf8_parse_wf (s : jstr) : utf16_wf s -> exists bs, utf8_parse s = Ok bs.
Proof. intros Hs. destruct (utf8_roundtrip s Hs) as [bs [Hp _]]. eauto. Qed.

Lemma serialize_succeeds (t : AccessToken) :
  msg_ok t -> utf16_wf (appKey t) ->
  exists sig bs, hmacSign t (packMsg t) = Ok sig /\
    utf8_parse (stringify (envelope (packMsg t) sig)) = Ok bs /\
    serialize t = Ok (set_signature t sig, Version ++ appId t ++ b64_stringify bs).
Proof.
  intros Ht Hk. destruct (utf8_parse_wf _ Hk) as [kb Hkb].
  destruct (utf8_parse_wf _ (stringify_wf _ (msg_json_ok t Ht))) as [mb Hmb].
  set (sig := b64_stringify (hmac kb mb)).
  assert (Hsig : hmacSign t (packMsg t) = Ok sig).
  { unfold hmacSign, hmac_base64, packMsg. now rewrite Hkb, Hmb, !bind_ok. }
  pose proof (envelope_json_ok t sig Ht (hmacSign_ascii t _ _ Hsig)) as Hj.
  destruct (utf8_parse_wf _ (stringify_wf _ Hj)) as [bs Hbs].
  exists sig, bs. split; [exact Hsig|]. split; [exact Hbs|].
  unfold serialize. rewrite Hsig, bind_ok, Hbs, bind_ok. reflexivity.
Qed.

(** C16: [serialize] does not throw when the key is well-formed text: it
    signs the message, stores the signature and returns the version,
    the [appId] and the encoded envelope. *)
Theorem serialize_ok (t : AccessToken) :
  msg_ok t -> utf16_wf (appKey t) ->
  exists sig bs, hmacSign t (packMsg t) = Ok sig /\
    utf8_parse (stringify (envelope (packMsg t) sig)) = Ok bs /\
    serialize t = Ok (set_signature t sig, Version ++ appId t ++ b64_stringify bs).
Proof. intros. eapply serialize_succeeds; eassumption. Qed.

End Serialize.

(** C11: The signed message depends on the privileges only through their
    values: two tokens with the same fields and equivalent maps with
    array index keys pack to the same text, whatever order the entries
    were added in. *)
Theorem packMsg_canonical (t1 t2 : AccessToken) :
  nonce t1 = nonce t2 -> issuedAt t1 = issuedAt t2 -> expireAt t1 = expireAt t2 ->
  roomId t1 = roomId t2 -> userId t1 = userId t2 ->
  map_wf (privileges t1) -> map_wf (privileges t2) ->
  index_keys (privileges t1) -> index_keys (privileges t2) ->
  map_equiv (privileges t1) (privileges t2) -> packMsg t1 = packMsg t2.
Proof.
  intros En Ei Ee Er Eu W1 W2 K1 K2 Hm. unfold packMsg. rewrite !msg_object_eq.
  rewrite En, Ei, Ee, Er, Eu, (fromEntries_equiv _ _ W1 W2 K1 K2 Hm). reflexivity.
Qed.

(** ** Witnesses: the theorems applied to [demo_token] *)

Lemma demo_token_ok : token_ok demo_token.
Proof.
  constructor; [reflexivity|].
  apply issue_token_msg_ok; try reflexivity; unfold clock_ok, MAX_SAFE_INTEGER, demo_ms; lia.
Qed.

Lemma demo_serialize : serialize demo_token = Ok (fst demo_serialized, demo_string).
Proof. vm_compute. reflexivity. Qed.

Lemma demo_key_wf : utf16_wf (js "secret").
Proof. apply utf16_wf_ascii. unfold ascii. repeat constructor; lia. Qed.

Lemma addPrivilege_commute_witness :
  ~ map_equiv (privileges (addPrivilege (addPrivilege demo_token PrivPublishStream 5) privPublishAudioStream 6))
              (privileges (addPrivilege (addPrivilege demo_token privPublishAudioStream 6) PrivPublishStream 5)).
Proof.
  rewrite (addPrivilege_commute demo_token PrivPublishStream privPublishAudioStream 5 6).
  intros [H|H]; [discriminate | vm_compute in H; discriminate].
Defined.

Lemma addPrivilege_single_witness :
  map_get (privileges (addPrivilege demo_token PrivSubscribeStream 5)) 4 =
  if priv_code PrivSubscribeStream =? 4 then Some 5 else map_get (privileges demo_token) 4.
Proof. apply addPrivilege_single. discriminate. Defined.

Lemma packMsg_canonical_witness :
  packMsg (addPrivilege (addPrivilege (new_AccessToken demo_ms (2 ^ 52) [] [] (js "123456") (js "123456"))
             PrivSubscribeStream 5) privPublishAudioStream 6) =
  packMsg (addPrivilege (addPrivilege (new_AccessToken demo_ms (2 ^ 52) [] [] (js "123456") (js "123456"))
             privPublishAudioStream 6) PrivSubscribeStream 5).
Proof.
  apply packMsg_canonical; [vm_compute; reflexivity .. | | | | |].
  - cbn. repeat constructor; cbn; intuition discriminate.
  - cbn. repeat constructor; cbn; intuition discriminate.
  - cbn. repeat constructor; cbn; lia.
  - cbn. repeat constructor; cbn; lia.
  - intros k.
    change (map_get (map_set (map_set [] 4 5) 1 6) k = map_get (map_set (map_set [] 1 6) 4 5) k).
    rewrite !map_get_set. cbn [map_get].
    destruct (Z.eqb_spec 1 k), (Z.eqb_spec 4 k); try reflexivity; lia.
Defined.

Lemma serialize_ok_witness :
  exists sig bs, hmacSign demo_token (packMsg demo_token) = Ok sig /\
    utf8_parse (stringify (envelope (packMsg demo_token) sig)) = Ok bs /\
    serialize demo_token = Ok (set_signature demo_token sig, Version ++ appId demo_token ++ b64_stringify bs).
Proof. apply serialize_ok; [exact (ok_msg _ demo_token_ok) | exact demo_key_wf]. Defined.

Lemma random_nonce_bounds_witness :
  0 <= nonce (new_AccessToken demo_ms (2 ^ 52) [] [] [] []) < 1000000000.
Proof. apply random_nonce_bounds. lia. Defined.
