(* ===== verification/TokenWire.v ===== *)
(** * The access token of [src/rtc/RTCTokenHelper.ts]: the wire codec

    The reading side of the token: [AccessToken.parse] (lines 85-109),
    [verify] (lines 111-118) and [tokenWithAppID] (lines 122-150), which
    issues, serializes, parses and verifies a token.  The theorems are
    the round trip of [serialize] and [parse], the verdicts of [verify],
    the defect of the empty [appId], and what the lenient base64 decoder
    lets through. *)

From Stdlib Require Import ZArith List Lia Bool String.
From S2P Require Import Prelude JsString JsObject Json JsonParse Utf8 Base64 Hmac HmacFips Codec TokenIssue.
Import ListNotations.
Local Open Scope Z_scope.
Local Open Scope bool_scope.
Local Open Scope res_scope.

(** ** Reading a token (lines 85-109) *)

Section WithHmac.
Context `{HmacSha256}.

(** A field of the declared type, or a value outside the model. *)
Definition as_num (v : option jsval) : result Z :=
  match v with Some (JNum n) => Ok n | _ => Err Unsupported end.
Definition as_str (v : option jsval) : result jstr :=
  match v with Some (JStr s) => Ok s | _ => Err Unsupported end.

(** [new Map(entries.map(([k, v]) => [Number(k), v as number]))]. *)
Fixpoint entries_to_map (l : list (jstr * jsval)) : result (list (Z * Z)) :=
  match l with
  | [] => Ok []
  | (k, v) :: r =>
      k' <- string_to_number k ;;
      v' <- as_num (Some v) ;;
      r' <- entries_to_map r ;;
      Ok ((k', v') :: r')
  end.

(** [AccessToken.parse(raw)], with the [JSON.parse] it calls at lines
    96 and 98 as the argument [jparse].  The exceptions are those the
    code throws at each line; [Unsupported] only reports a field the
    code would store with a type other than its declared one. *)
Definition parse_with (jparse : jstr -> result jsval) (raw : jstr) : result AccessToken :=
  if negb (key_eqb (js_substring raw 0 VERSION_LENGTH) VERSION) then Err InvalidVersion
  else
    let appId := js_substring raw VERSION_LENGTH (VERSION_LENGTH + APP_ID_LENGTH) in
    let contentEncoded := js_substring_from raw (VERSION_LENGTH + APP_ID_LENGTH) in
    decoded <- utf8_stringify (b64_parse contentEncoded) ;;
    obj <- jparse decoded ;;
    msgv <- js_get obj (js "msg") ;;
    msg <- jparse (js_to_string msgv) ;;
    roomID <- js_get msg (js "roomID") ;;
    userID <- js_get msg (js "userID") ;;
    nonce_v <- js_get msg (js "nonce") ;;
    issued_v <- js_get msg (js "issuedAt") ;;
    expire_v <- js_get msg (js "expireAt") ;;
    privs_v <- js_get msg (js "privileges") ;;
    ents <- js_entries privs_v ;;
    sig_v <- js_get obj (js "signature") ;;
    (* the fields at their declared types *)
    room <- as_str roomID ;;
    user <- as_str userID ;;
    n <- as_num nonce_v ;;
    ia <- as_num issued_v ;;
    ea <- as_num expire_v ;;
    kvs <- entries_to_map ents ;;
    sig <- as_str sig_v ;;
    Ok {| appId := appId; appKey := []; roomId := room; userId := user;
          issuedAt := ia; nonce := n; expireAt := ea;
          privileges := map_of_entries kvs; signature := sig |}.

(** The method itself: [JSON.parse] is the built-in. *)
Definition parse (raw : jstr) : result AccessToken := parse_with json_parse raw.

(** ** Verification (lines 111-118), with [Date.now()] reading [now_ms] *)

Definition verify (t : AccessToken) (key : jstr) (now_ms : Z) : result bool :=
  if (0 <? expireAt t) && (expireAt t <? now_ms / 1000) then Ok false
  else
    checkSig <- hmac_base64 key (packMsg t) ;;
    Ok (key_eqb checkSig (signature t)).

(** ** [tokenWithAppID] (lines 122-150)

    [Date.now()] is read three times: by the constructor ([ctor_ms]), for
    [now] ([now_ms]) and by [verify] ([verify_ms]); [Math.random()] once.
    The [console.log] calls only read fields. *)

Definition tokenWithAppID (appId appKey roomId userId : jstr)
    (ctor_ms r now_ms verify_ms : Z) : result jstr :=
  let token := issue_token appId appKey roomId userId ctor_ms r now_ms in
  '(_, s) <- serialize token ;;
  t <- parse s ;;
  _ <- verify t appKey verify_ms ;;
  Ok s.

End WithHmac.

(** An entry of the privilege map as [Object.fromEntries] prints it. *)
Definition print_entry (kv : Z * Z) : jstr * jsval := (num_units (fst kv), JNum (snd kv)).

(** [verify]'s expiry test (line 112). *)
Definition expired (t : AccessToken) (now_ms : Z) : bool :=
  (0 <? expireAt t) && (expireAt t <? now_ms / 1000).

Definition demo_parsed : AccessToken :=
  match parse demo_string with Ok p => p | Err _ => demo_token end.

(** A token string with the lowest bit of the last base64 digit of its
    body flipped: the change of one character that [parse] cannot see. *)
Definition token_flip (raw : jstr) : jstr :=
  let n := Z.to_nat (VERSION_LENGTH + APP_ID_LENGTH) in
  firstn n raw ++ b64_flip_last (skipn n raw).

(** ** Theorems *)

Lemma js_substring_prefix (s : jstr) (n : Z) :
  0 <= n -> js_substring s 0 n = firstn (Z.to_nat n) s.
Proof.
  intros Hn. unfold js_substring, clamp.
  remember (Z.of_nat (List.length s)) as len eqn:Hlen.
  replace (Z.max 0 (Z.min 0 len)) with 0 by lia.
  replace (Z.max 0 (Z.min n len)) with (Z.min n len) by lia.
  rewrite (Z.min_l 0 (Z.min n len)), (Z.max_r 0 (Z.min n len)) by lia.
  rewrite Z.sub_0_r. simpl skipn.
  destruct (Z.le_ge_cases n len).
  - now rewrite Z.min_l by lia.
  - rewrite Z.min_r by lia. rewrite Hlen, Nat2Z.id, firstn_all.
    symmetry. apply firstn_all2. lia.
Qed.

(** C14: A string whose first three code units are not the version tag
    is rejected with [InvalidVersion], before anything else is read. *)
Theorem parse_invalid_version `{HmacSha256} (raw : jstr) :
  firstn 3 raw <> VERSION -> parse raw = Err InvalidVersion.
Proof.
  intros Hv. unfold parse, parse_with. rewrite js_substring_prefix by (vm_compute; discriminate).
  destruct (key_eqb_spec (firstn (Z.to_nat VERSION_LENGTH) raw) VERSION); [contradiction | reflexivity].
Qed.

(** *** What [parse] returns is printable *)

Lemma as_str_ok (v : option jsval) (s : jstr) :
  match v with Some x => json_ok x | None => True end -> as_str v = Ok s -> jstr_ok s = true.
Proof. destruct v as [[]|]; cbn; intros H E; try discriminate. injection E as <-. exact H. Qed.

Lemma as_num_ok (v : option jsval) (n : Z) :
  match v with Some x => json_ok x | None => True end -> as_num v = Ok n -> safe_int n = true.
Proof. destruct v as [[]|]; cbn; intros H E; try discriminate. injection E as <-. exact H. Qed.

Lemma entries_to_map_values (ents : list (jstr * jsval)) (kvs : list (Z * Z)) :
  Forall (fun kv => json_ok (snd kv)) ents -> entries_to_map ents = Ok kvs ->
  Forall (fun kv => safe_int (snd kv) = true) kvs.
Proof.
  revert kvs. induction ents as [|[k v] r IH]; intros kvs Hf E; cbn in E.
  - injection E as <-. constructor.
  - inversion_clear Hf as [|? ? Hv Hr]. bind_ok_inv E. bind_ok_inv E. bind_ok_inv E.
    injection E as <-. constructor; [exact (as_num_ok (Some v) _ Hv Ha0) | exact (IH _ Hr Ha1)].
Qed.

(** The fields of every token [parse] returns are printable: the text
    [JSON.parse] reads is in range, since [Utf8.stringify] only yields
    well-formed text, and so are the values it produces. *)
Lemma parse_printable (raw : jstr) (p : AccessToken) : parse raw = Ok p -> msg_printable p.
Proof.
  unfold parse, parse_with. destruct (negb _); [discriminate|]. intros H.
  bind_ok_inv H. rename a into decoded, Ha into Hd.
  pose proof (utf16_wf_jstr_ok _ (utf8_stringify_wf _ _ (b64_parse_bytes _) Hd)) as Hdec.
  bind_ok_inv H. rename a into obj, Ha into Ho. apply (json_parse_ok _ _ Hdec) in Ho.
  bind_ok_inv H. rename a into msgv, Ha into Hmv.
  apply js_get_ok in Hmv; [|discriminate | exact Ho].
  bind_ok_inv H. rename a into msg, Ha into Hm. apply (json_parse_ok _ _ (js_to_string_ok _ Hmv)) in Hm.
  repeat bind_ok_inv H.
  repeat match goal with Hx : js_get msg _ = Ok _ |- _ =>
    apply js_get_ok in Hx; [|discriminate | exact Hm] end.
  apply (js_entries_ok _ _ Ha4) in Ha5.
  injection H as <-. constructor; cbn.
  - exact (as_num_ok _ _ Ha1 Ha9).
  - exact (as_num_ok _ _ Ha2 Ha10).
  - exact (as_num_ok _ _ Ha3 Ha11).
  - exact (as_str_ok _ _ Ha Ha7).
  - exact (as_str_ok _ _ Ha0 Ha8).
  - apply map_of_entries_wf.
  - apply (map_of_entries_values (fun z => safe_int z = true)).
    exact (entries_to_map_values _ _ Ha5 Ha12).
Qed.

(** *** Reading the privileges back *)

Lemma entries_to_map_printed (o : props) :
  Forall (fun kv => exists k v, kv = print_entry (k, v) /\ safe_int k = true) o ->
  exists kvs, entries_to_map o = Ok kvs /\ map print_entry kvs = o.
Proof.
  induction 1 as [|kv o [k [v [-> Hk]]] _ [kvs [He Hm]]]; [exists []; split; reflexivity|].
  exists ((k, v) :: kvs). cbn [entries_to_map print_entry fst snd].
  rewrite string_to_number_num_units by exact Hk. cbn [as_num]. rewrite !bind_ok, He, bind_ok.
  split; [reflexivity|]. cbn [map]. now rewrite Hm.
Qed.

Lemma obj_get_printed (kvs : jsmap) (k : Z) :
  obj_get (map print_entry kvs) (num_units k) = option_map JNum (map_get kvs k).
Proof.
  induction kvs as [|[k' v'] r IH]; [reflexivity|]. cbn [map print_entry fst snd obj_get map_get].
  destruct (key_eqb_spec (num_units k') (num_units k)) as [E|E].
  - apply num_units_inj in E as ->. now rewrite Z.eqb_refl.
  - destruct (Z.eqb_spec k' k); [congruence | exact IH].
Qed.

Lemma index_safe (k : Z) : 0 <= k < 4294967295 -> safe_int k = true.
Proof. intros Hk. unfold safe_int, MAX_SAFE_INTEGER. apply Z.leb_le. rewrite Z.abs_eq; lia. Qed.

(** [parse] reads [Object.entries] of the printed privileges into a map
    with the same entries, distinct keys, array index keys. *)
Lemma entries_to_map_fromEntries (m : jsmap) :
  map_wf m -> index_keys m ->
  exists kvs, entries_to_map (fromEntries m) = Ok kvs /\
    map_wf kvs /\ index_keys kvs /\ map_equiv kvs m.
Proof.
  intros Hw Hk.
  assert (Hmem : forall kv, In kv (fromEntries m) ->
            exists k v, kv = print_entry (k, v) /\ In (k, v) m).
  { intros kv Hin. destruct (fromEntries_member m kv Hw Hin) as [k [v [-> Hg]]].
    exists k, v. split; [reflexivity | now apply map_get_in]. }
  destruct (entries_to_map_printed (fromEntries m)) as [kvs [He Hm]].
  { apply Forall_forall. intros kv Hin. destruct (Hmem kv Hin) as [k [v [-> Hin']]].
    exists k, v. split; [reflexivity|]. apply index_safe.
    exact (proj1 (Forall_forall _ _) Hk _ Hin'). }
  exists kvs. split; [exact He|]. split; [|split].
  - pose proof (proj2 (fromEntries_wf m)) as Hd. rewrite <- Hm, map_map in Hd.
    unfold map_wf. apply (NoDup_map_inv num_units). now rewrite map_map.
  - apply Forall_forall. intros [k v] Hin.
    apply (in_map print_entry) in Hin. rewrite Hm in Hin.
    destruct (Hmem _ Hin) as [k' [v' [E Hin']]]. injection E as E _. apply num_units_inj in E as ->.
    exact (proj1 (Forall_forall _ _) Hk _ Hin').
  - intros k. pose proof (fromEntries_get m k Hw) as Hg. rewrite <- Hm, obj_get_printed in Hg.
    destruct (map_get kvs k), (map_get m k); cbn in Hg; congruence.
Qed.

(** [parse] cuts a serialized token at the version and the [appId]. *)
Lemma token_string_split (a c : jstr) :
  Z.of_nat (List.length a) = APP_ID_LENGTH ->
  let raw := Version ++ a ++ c in
  js_substring raw 0 VERSION_LENGTH = VERSION /\
  js_substring raw VERSION_LENGTH (VERSION_LENGTH + APP_ID_LENGTH) = a /\
  js_substring_from raw (VERSION_LENGTH + APP_ID_LENGTH) = c.
Proof.
  intros Ha raw. subst raw. split; [|split].
  - exact (js_substring_middle [] VERSION (a ++ c)).
  - rewrite <- Ha. unfold VERSION_LENGTH. rewrite <- Nat2Z.inj_add. apply js_substring_middle.
  - rewrite <- Ha. unfold VERSION_LENGTH. rewrite <- Nat2Z.inj_add, app_assoc, <- length_app.
    apply js_substring_from_app.
Qed.

Lemma envelope_fields (msg sig : jstr) :
  js_get (envelope msg sig) (js "msg") = Ok (Some (JStr msg)) /\
  js_get (envelope msg sig) (js "signature") = Ok (Some (JStr sig)).
Proof. split; reflexivity. Qed.

Lemma msg_fields (t : AccessToken) :
  js_get (msg_object t) (js "roomID") = Ok (Some (JStr (roomId t))) /\
  js_get (msg_object t) (js "userID") = Ok (Some (JStr (userId t))) /\
  js_get (msg_object t) (js "nonce") = Ok (Some (JNum (nonce t))) /\
  js_get (msg_object t) (js "issuedAt") = Ok (Some (JNum (issuedAt t))) /\
  js_get (msg_object t) (js "expireAt") = Ok (Some (JNum (expireAt t))) /\
  js_get (msg_object t) (js "privileges") = Ok (Some (JObj (fromEntries (privileges t)))).
Proof. repeat split. Qed.

Section Roundtrip.
Context {hm : HmacSha256}.

Lemma parse_serialize_fields (t t' : AccessToken) (s : jstr) :
  token_ok t -> serialize t = Ok (t', s) ->
  exists p, parse s = Ok p /\
    appId p = appId t /\ appKey p = [] /\ roomId p = roomId t /\ userId p = userId t /\
    issuedAt p = issuedAt t /\ nonce p = nonce t /\ expireAt p = expireAt t /\
    map_equiv (privileges p) (privileges t) /\ signature p = signature t' /\
    packMsg p = packMsg t.
Proof.
  intros Ht Hser. destruct (serialize_inv t t' s Hser) as [sig [bs [Hsig [-> [Hbs ->]]]]].
  pose proof (envelope_json_ok t sig (ok_msg t Ht) (hmacSign_ascii t _ _ Hsig)) as Hj.
  destruct (text_codec_roundtrip _ (stringify_wf _ Hj)) as [bs' [Hbs' [_ Hdec]]].
  rewrite Hbs in Hbs'. injection Hbs' as <-.
  destruct (entries_to_map_fromEntries (privileges t) (ok_map t (ok_msg t Ht)) (ok_keys t (ok_msg t Ht)))
    as [kvs [Hkv [Wk [Ik Ek]]]].
  destruct (token_string_split (appId t) (b64_stringify bs) (ok_appId t Ht)) as [H1 [H2 H3]].
  destruct (envelope_fields (packMsg t) sig) as [E1 E2].
  destruct (msg_fields t) as [F1 [F2 [F3 [F4 [F5 F6]]]]].
  unfold parse, parse_with. rewrite H1, key_eqb_refl, H2, H3. cbn [negb].
  rewrite Hdec, bind_ok, (json_parse_stringify _ Hj), bind_ok, E1, bind_ok.
  cbn [js_to_string to_string_val]. unfold packMsg at 1. rewrite (json_parse_stringify _ (msg_json_ok t (ok_msg t Ht))), bind_ok.
  rewrite F1, bind_ok, F2, bind_ok, F3, bind_ok, F4, bind_ok, F5, bind_ok, F6, bind_ok.
  cbn [js_entries entries]. rewrite bind_ok, E2, bind_ok. cbn [as_str as_num].
  unfold entries. rewrite !bind_ok, Hkv, !bind_ok. rewrite (map_of_entries_nodup kvs Wk).
  eexists. split; [reflexivity|].
  cbn [appId appKey roomId userId issuedAt nonce expireAt privileges signature set_signature]. do 7 (split; [reflexivity|]). split; [exact Ek|].
  split; [reflexivity|]. unfold packMsg. rewrite !msg_object_eq. cbn [nonce issuedAt expireAt roomId userId privileges].
  rewrite (fromEntries_equiv kvs (privileges t)); auto using ok_map, ok_keys, ok_msg.
Qed.

(** C4: [parse] reads back every field [serialize] wrote: the same
    [appId], room, user, times and nonce, an equivalent privilege map,
    the signature [serialize] stored, and so the same signed message;
    [appKey] is not carried and comes back empty. *)
Theorem parse_serialize (t t' : AccessToken) (s : jstr) :
  token_ok t -> serialize t = Ok (t', s) ->
  exists p, parse s = Ok p /\
    appId p = appId t /\ appKey p = [] /\ roomId p = roomId t /\ userId p = userId t /\
    issuedAt p = issuedAt t /\ nonce p = nonce t /\ expireAt p = expireAt t /\
    map_equiv (privileges p) (privileges t) /\ signature p = signature t' /\
    packMsg p = packMsg t.
Proof. intros. eapply parse_serialize_fields; eassumption. Qed.


Lemma verify_after_roundtrip (t t' p : AccessToken) (s : jstr) (now_ms : Z) :
  token_ok t -> serialize t = Ok (t', s) -> parse s = Ok p ->
  verify p (appKey t) now_ms = Ok (negb (expired t now_ms)).
Proof.
  intros Ht Hser Hp. destruct (parse_serialize_fields t t' s Ht Hser) as [p' [Hp' Hf]].
  rewrite Hp in Hp'. injection Hp' as <-.
  destruct Hf as [_ [_ [_ [_ [_ [_ [He [_ [Hs Hm]]]]]]]]].
  destruct (serialize_inv t t' s Hser) as [sig [bs [Hsig [-> _]]]].
  unfold verify, expired in *. rewrite He.
  destruct ((0 <? expireAt t) && (expireAt t <? now_ms / 1000)); [reflexivity|].
  rewrite Hm, Hs. unfold hmacSign in Hsig. cbn [signature set_signature]. rewrite Hsig, bind_ok.
  now rewrite key_eqb_refl.
Qed.

(** C5: A token parsed from [serialize]'s output verifies with the key it
    was signed with, unless it has expired. *)
Theorem verify_parse_serialize (t t' p : AccessToken) (s : jstr) (now_ms : Z) :
  token_ok t -> serialize t = Ok (t', s) -> parse s = Ok p ->
  verify p (appKey t) now_ms = Ok (negb (expired t now_ms)).
Proof. intros. eapply verify_after_roundtrip; eassumption. Qed.

Lemma b64_stringify_inj (x y : list Z) :
  byte_list x -> byte_list y -> b64_stringify x = b64_stringify y -> x = y.
Proof. intros Hx Hy E. rewrite <- (b64_roundtrip x Hx), <- (b64_roundtrip y Hy). now f_equal. Qed.

(** C6: A parsed token checked with another key whose HMAC of the message
    differs is rejected. *)
Theorem verify_wrong_key (t t' p : AccessToken) (s key : jstr) (now_ms : Z) (kb kb' mb : bytes) :
  token_ok t -> serialize t = Ok (t', s) -> parse s = Ok p ->
  utf8_parse (appKey t) = Ok kb -> utf8_parse key = Ok kb' -> utf8_parse (packMsg t) = Ok mb ->
  hmac kb' mb <> hmac kb mb ->
  verify p key now_ms = Ok false.
Proof.
  intros Ht Hser Hp Hk Hk' Hm Hne. destruct (parse_serialize_fields t t' s Ht Hser) as [p' [Hp' Hf]].
  rewrite Hp in Hp'. injection Hp' as <-.
  destruct Hf as [_ [_ [_ [_ [_ [_ [He [_ [Hs Hpm]]]]]]]]].
  destruct (serialize_inv t t' s Hser) as [sig [bs [Hsig [-> _]]]].
  unfold hmacSign, hmac_base64 in Hsig. rewrite Hk, Hm, !bind_ok in Hsig. injection Hsig as <-.
  unfold verify. destruct (_ && _); [reflexivity|].
  rewrite Hpm, Hs. unfold hmac_base64. rewrite Hk', Hm, !bind_ok. cbn [signature set_signature].
  destruct (key_eqb_spec (b64_stringify (hmac kb' mb)) (b64_stringify (hmac kb mb))) as [E|]; [|reflexivity].
  apply b64_stringify_inj in E; [contradiction | apply hmac_bytes | apply hmac_bytes].
Qed.

(** C7: An expired token is rejected before any HMAC is computed, whatever
    the key. *)
Theorem verify_expired (t : AccessToken) (key : jstr) (now_ms : Z) :
  0 < expireAt t < now_ms / 1000 -> verify t key now_ms = Ok false.
Proof. intros He. unfold verify. zbool. reflexivity. Qed.

(** C17: A token that has not expired, checked with a key holding a lone
    surrogate, makes [verify] throw: [Utf8.parse] of the key raises
    [URIError] instead of [verify] returning [false]. *)
Theorem verify_bad_key_throws (t : AccessToken) (key : jstr) (now_ms : Z) :
  expired t now_ms = false -> utf8_parse key = Err URIError -> verify t key now_ms = Err URIError.
Proof.
  intros He Hk. unfold verify. unfold expired in He. rewrite He. unfold hmac_base64. now rewrite Hk.
Qed.

Lemma issue_token_fields (a k room user : jstr) (ctor_ms r now_ms : Z) :
  appId (issue_token a k room user ctor_ms r now_ms) = a /\
  appKey (issue_token a k room user ctor_ms r now_ms) = k.
Proof. split; reflexivity. Qed.

(** C15: With an [appId] of 24 code units, [tokenWithAppID] returns the
    string [serialize] made: [parse] reads it back and [verify] runs. *)
Theorem tokenWithAppID_ok (a k room user : jstr) (ctor_ms r now_ms verify_ms : Z) :
  Z.of_nat (List.length a) = APP_ID_LENGTH -> utf16_wf k ->
  jstr_ok room = true -> jstr_ok user = true ->
  clock_ok ctor_ms -> clock_ok now_ms -> 0 <= r < 2 ^ 53 ->
  exists t' s, serialize (issue_token a k room user ctor_ms r now_ms) = Ok (t', s) /\
    tokenWithAppID a k room user ctor_ms r now_ms verify_ms = Ok s.
Proof.
  intros Ha Hk Hr Hu Hc Hn Hrand.
  pose proof (issue_token_msg_ok a k room user ctor_ms r now_ms Hr Hu Hc Hn Hrand) as Hm.
  destruct (issue_token_fields a k room user ctor_ms r now_ms) as [Ea Ek].
  set (t := issue_token a k room user ctor_ms r now_ms) in *.
  destruct (serialize_succeeds t Hm ltac:(now rewrite Ek)) as [sig [bs [_ [_ Hser]]]].
  assert (Ht : token_ok t) by (constructor; [now rewrite Ea | exact Hm]).
  destruct (parse_serialize_fields t _ _ Ht Hser) as [p [Hp _]].
  pose proof (verify_after_roundtrip t _ p _ verify_ms Ht Hser Hp) as Hv. rewrite Ek in Hv.
  do 2 eexists. split; [exact Hser|].
  unfold tokenWithAppID. fold t. rewrite Hser, bind_ok. cbv beta iota. rewrite Hp, bind_ok, Hv, bind_ok.
  reflexivity.
Qed.

Lemma empty_appId_rejected (k room user : jstr) (ctor_ms r now_ms verify_ms : Z) :
  utf16_wf k -> jstr_ok room = true -> jstr_ok user = true ->
  clock_ok ctor_ms -> clock_ok now_ms -> 0 <= r < 2 ^ 53 ->
  tokenWithAppID [] k room user ctor_ms r now_ms verify_ms = Err SyntaxError.
Proof.
  intros Hk Hr Hu Hc Hn Hrand.
  pose proof (issue_token_msg_ok [] k room user ctor_ms r now_ms Hr Hu Hc Hn Hrand) as Hm.
  destruct (issue_token_fields [] k room user ctor_ms r now_ms) as [Ea Ek].
  set (t := issue_token [] k room user ctor_ms r now_ms) in *.
  destruct (serialize_succeeds t Hm ltac:(now rewrite Ek)) as [sig [bs [Hsig [Hbs Hser]]]].
  pose proof (stringify_wf _ (envelope_json_ok t sig Hm (hmacSign_ascii t _ _ Hsig))) as Hw.
  destruct (envelope_prefix t sig) as [z Hz]. rewrite Hz in Hbs, Hw.
  assert (HP : ascii ENVELOPE_PREFIX) by (unfold ascii, ENVELOPE_PREFIX; repeat constructor; lia).
  destruct (utf8_roundtrip _ (utf16_wf_app_inv _ _ HP Hw)) as [bz [Hpz [Hbz Hdz]]].
  rewrite utf8_parse_app, utf8_parse_ascii, bind_ok, Hpz, bind_ok in Hbs by (exact HP || now apply utf16_wf_ascii).
  replace bs with (ENVELOPE_PREFIX ++ bz) in Hser by (injection Hbs as <-; reflexivity).
  assert (HG : exists G, b64_stringify (ENVELOPE_PREFIX ++ bz) = G ++ b64_stringify bz /\
                 Z.of_nat (List.length G) = APP_ID_LENGTH).
  { eexists. split.
    - unfold ENVELOPE_PREFIX. cbn [app]. rewrite !b64_stringify_cons3, !app_assoc. reflexivity.
    - reflexivity. }
  destruct HG as [G [HG HGl]]. rewrite Ea, HG in Hser.
  destruct (token_string_split G (b64_stringify bz) HGl) as [H1 [H2 H3]].
  unfold tokenWithAppID. fold t. rewrite Hser, bind_ok. cbv beta iota.
  unfold parse, parse_with. rewrite app_nil_l, H1, key_eqb_refl, H2, H3. cbn [negb].
  rewrite (b64_roundtrip bz Hbz), Hdz, bind_ok, json_parse_colon. reflexivity.
Qed.

(** C1: The call of [RTCHelper.joinRoom] passes the [appId] [''].
    [serialize] still writes the token, but [parse] takes the first 24
    characters of the base64 body for the [appId], decodes the rest
    from the 18th byte of the envelope, a colon, and [JSON.parse]
    throws [SyntaxError]: [tokenWithAppID] throws for every key, room,
    user, clock and random draw. *)
Theorem tokenWithAppID_empty_appId (k room user : jstr) (ctor_ms r now_ms verify_ms : Z) :
  utf16_wf k -> jstr_ok room = true -> jstr_ok user = true ->
  clock_ok ctor_ms -> clock_ok now_ms -> 0 <= r < 2 ^ 53 ->
  tokenWithAppID [] k room user ctor_ms r now_ms verify_ms = Err SyntaxError.
Proof. intros. apply empty_appId_rejected; assumption. Qed.

(** C13: [parse] reads nothing from an [=] on: a token string followed
    by [=] and any text parses to the same token as the string alone,
    signature included. *)
Theorem parse_ignores_after_pad (p r : jstr) :
  VERSION_LENGTH + APP_ID_LENGTH <= Z.of_nat (List.length p) ->
  parse (p ++ PAD :: r) = parse p.
Proof.
  intros Hp. unfold parse, parse_with.
  assert (HV : VERSION_LENGTH = 3) by reflexivity.
  assert (E : forall x,
    js_substring (p ++ x) 0 VERSION_LENGTH = js_substring p 0 VERSION_LENGTH /\
    js_substring (p ++ x) VERSION_LENGTH (VERSION_LENGTH + APP_ID_LENGTH)
      = js_substring p VERSION_LENGTH (VERSION_LENGTH + APP_ID_LENGTH) /\
    js_substring_from (p ++ x) (VERSION_LENGTH + APP_ID_LENGTH)
      = skipn (Z.to_nat (VERSION_LENGTH + APP_ID_LENGTH)) p ++ x).
  { unfold APP_ID_LENGTH in *. intros x. split; [|split].
    1,2: apply js_substring_app_l; lia.
    apply js_substring_from_app_l; lia. }
  destruct (E (PAD :: r)) as (-> & -> & ->). destruct (E []) as (_ & _ & E3).
  rewrite !app_nil_r in E3. rewrite E3.
  unfold b64_parse. rewrite before_pad_cut. reflexivity.
Qed.

(** C8: A token whose [expireAt] is [0] never expires: [verify] gives the
    same answer at every time. *)
Theorem verify_no_expiry (t : AccessToken) (key : jstr) (now1 now2 : Z) :
  expireAt t = 0 -> verify t key now1 = verify t key now2.
Proof. intros He. unfold verify. rewrite He. reflexivity. Qed.

(** C25: [verify] never throws on a token that [parse] returned, from
    any string, when the key is well-formed text: it answers [true] or
    [false].  The exceptions of the method come from the key alone. *)
Theorem verify_parsed_total (raw key : jstr) (p : AccessToken) (now_ms : Z) :
  parse raw = Ok p -> utf16_wf key -> exists b, verify p key now_ms = Ok b.
Proof.
  intros Hp Hk. unfold verify. destruct (_ && _); [eauto|].
  destruct (utf8_parse_wf _ Hk) as [kb Hkb].
  destruct (utf8_parse_wf _ (stringify_wf _ (msg_printable_json_ok _ (parse_printable _ _ Hp))))
    as [mb Hmb].
  unfold hmac_base64, packMsg. rewrite Hkb, Hmb. cbn. eauto.
Qed.

(** C12: One character of a token can be changed without [parse]
    noticing: for every serialized token whose string ends in [=], the
    string with the lowest bit of its last base64 digit flipped is a
    different string that parses to the same token, signature included,
    and so verifies exactly when the original does. *)
Theorem tamper_low_bits (t t' : AccessToken) (s : jstr) :
  Z.of_nat (List.length (appId t)) = APP_ID_LENGTH ->
  serialize t = Ok (t', s) -> last s 0 = PAD ->
  token_flip s <> s /\ parse (token_flip s) = parse s.
Proof.
  intros Ha E Hl. destruct (serialize_content _ _ _ E) as (bs & -> & Hbs).
  assert (Hne : b64_stringify bs <> []).
  { destruct bs as [|b1 [|b2 [|b3 r]]]; [contradiction| ..];
      unfold b64_stringify; cbn [b64_body b64_group firstn map app]; discriminate. }
  rewrite app_assoc, last_app_nonempty in Hl by exact Hne.
  destruct (b64_stringify_flip bs Hl) as [Hneq Hp].
  assert (Hf : token_flip (Version ++ appId t ++ b64_stringify bs)
               = Version ++ appId t ++ b64_flip_last (b64_stringify bs)).
  { unfold token_flip. rewrite app_assoc.
    replace (Z.to_nat (VERSION_LENGTH + APP_ID_LENGTH)) with (List.length (Version ++ appId t))
      by (rewrite length_app, <- Ha; unfold VERSION_LENGTH, Version; lia).
    rewrite firstn_app_exact, skipn_app_exact, <- app_assoc. reflexivity. }
  rewrite Hf. split.
  - intros E'. apply app_inv_head, app_inv_head in E'. contradiction.
  - unfold parse, parse_with.
    destruct (token_string_split (appId t) (b64_flip_last (b64_stringify bs)) Ha) as (-> & -> & ->).
    destruct (token_string_split (appId t) (b64_stringify bs) Ha) as (-> & -> & ->).
    rewrite Hp. reflexivity.
Qed.

End Roundtrip.

(** ** Witnesses: the theorems applied to [demo_token] *)

Lemma tokenWithAppID_empty_appId_witness :
  tokenWithAppID [] [] (js "123456") (js "123456") demo_ms (2 ^ 52) demo_ms demo_ms = Err SyntaxError.
Proof.
  apply tokenWithAppID_empty_appId; [apply wf_nil | reflexivity | reflexivity | ..];
    unfold clock_ok, MAX_SAFE_INTEGER, demo_ms; lia.
Defined.

Lemma parse_serialize_witness :
  exists p, parse demo_string = Ok p /\ packMsg p = packMsg demo_token.
Proof.
  destruct (parse_serialize demo_token _ _ demo_token_ok demo_serialize)
    as [p [Hp [_ [_ [_ [_ [_ [_ [_ [_ [_ Hm]]]]]]]]]]].
  exists p. split; assumption.
Defined.

Lemma verify_parse_serialize_witness :
  exists p, parse demo_string = Ok p /\ verify p (js "secret") demo_ms = Ok true.
Proof.
  destruct (parse_serialize_fields demo_token _ _ demo_token_ok demo_serialize) as [p [Hp _]].
  exists p. split; [exact Hp|].
  exact (verify_parse_serialize demo_token _ p demo_string demo_ms demo_token_ok demo_serialize Hp).
Defined.

Lemma tamper_low_bits_witness :
  token_flip demo_string <> demo_string /\ parse (token_flip demo_string) = parse demo_string.
Proof. apply (tamper_low_bits demo_token (fst demo_serialized)); [reflexivity | exact demo_serialize | vm_compute; reflexivity]. Defined.

Lemma verify_parsed_total_witness :
  exists b, verify demo_parsed (js "secret") demo_ms = Ok b.
Proof. apply (verify_parsed_total demo_string); [vm_compute; reflexivity | exact demo_key_wf]. Defined.

Lemma verify_wrong_key_witness :
  exists p, parse demo_string = Ok p /\ verify p (js "other") demo_ms = Ok false.
Proof.
  destruct (parse_serialize_fields demo_token _ _ demo_token_ok demo_serialize) as [p [Hp _]].
  exists p. split; [exact Hp|].
  apply (verify_wrong_key demo_token (fst demo_serialized) p demo_string (js "other") demo_ms
           (js "secret") (js "other")
           (match utf8_parse (packMsg demo_token) with Ok b => b | Err _ => [] end)
           demo_token_ok demo_serialize Hp); try (vm_compute; reflexivity).
  vm_compute. discriminate.
Defined.

Lemma verify_expired_witness : verify demo_token (js "other") (demo_ms + 7201000) = Ok false.
Proof. apply verify_expired. split; vm_compute; reflexivity. Defined.

Lemma verify_no_expiry_witness :
  verify (set_expireAt demo_token 0) (js "secret") 0 =
  verify (set_expireAt demo_token 0) (js "secret") 1000000000000000.
Proof. apply verify_no_expiry. reflexivity. Defined.

Lemma parse_ignores_after_pad_witness :
  parse (demo_string ++ PAD :: js "AB") = parse demo_string.
Proof. apply parse_ignores_after_pad. vm_compute. discriminate. Defined.

Lemma parse_invalid_version_witness : parse (js "002xyz") = Err InvalidVersion.
Proof. apply parse_invalid_version. vm_compute. discriminate. Defined.

Lemma tokenWithAppID_ok_witness :
  exists t' s,
    serialize (issue_token (js "68afed4e18ee8d017b08325f") (js "secret") (js "123456") (js "123456")
                 demo_ms (2 ^ 52) demo_ms) = Ok (t', s) /\
    tokenWithAppID (js "68afed4e18ee8d017b08325f") (js "secret") (js "123456") (js "123456")
      demo_ms (2 ^ 52) demo_ms demo_ms = Ok s.
Proof.
  apply tokenWithAppID_ok; try reflexivity; try exact demo_key_wf;
    unfold clock_ok, MAX_SAFE_INTEGER, demo_ms; lia.
Defined.

Lemma verify_bad_key_throws_witness : verify demo_token [55296] demo_ms = Err URIError.
Proof. apply verify_bad_key_throws; reflexivity. Defined.

