(* ===== verification/RTCClient.v ===== *)
(** * The RTC client of [src/rtc/RTCHelper.ts]

    [RTCClient] holds three references into the Volcengine SDK: the
    [manager] (set by the constructor), the [engine] and the [room]
    (each [undefined] at first, [null] after [destroyEngine], or an SDK
    object).  Every method forwards to the SDK through optional chaining
    ([this.engine?.f()] does nothing and yields [undefined] when the
    reference is [undefined] or [null]) or through a non-null assertion
    ([this.manager!], which throws [TypeError] at run time on
    [undefined]).

    The SDK is the class [RtcSdk]: its engine and room objects, what
    [createRTCEngine] and [createRTCRoom] return, and the number each
    forwarded call returns.  What the client does is recorded as the
    sequence of SDK calls it makes, so that theorems speak of the order
    of calls.  The methods run in the monad [M]: state passing where a
    thrown exception does not undo the mutations made before it, which
    is how a JavaScript method that throws half-way behaves.  [exec]
    and [reachable] make the client a state machine whose invariant
    [client_inv] every reachable state keeps; it refines the abstract
    [session] machine, on which a room becomes live after
    [createEngine] and [createRoom] and stays live until
    [destroyEngine].  [App] drives the exported instance [rctClient]. *)

From Stdlib Require Import ZArith List Lia Bool String.
From S2P Require Import Prelude JsString JsObject Utf8 Hmac HmacFips TokenIssue TokenWire.
Import ListNotations.
Local Open Scope Z_scope.
Local Open Scope res_scope.

(** ** The SDK *)

Class RtcSdk := {
  Engine : Type;
  Room : Type;
  (** [RTCManager.createRTCEngine({appID})] resolves to an engine. *)
  createRTCEngine : jstr -> Engine;
  (** [engine.createRTCRoom(roomId)]. *)
  createRTCRoom : Engine -> jstr -> Room;
  (** The value of [StreamIndex.STREAM_INDEX_MAIN] and of
      [RenderMode.ByteRTCRenderModeFill]. *)
  STREAM_INDEX_MAIN : Z;
  ByteRTCRenderModeFill : Z;
  stream_index_main_nonneg : 0 <= STREAM_INDEX_MAIN;
}.

(** The SDK calls the client makes. *)
Inductive sdk_call :=
| CreateRTCEngine (appID : jstr)
| DestroyRTCEngine
| SetRtcVideoEventHandler
| StartAudioCapture
| StartVideoCapture
| SetLocalVideoCanvas (streamIndex : Z) (viewId : jstr) (renderMode : Z)
| CreateRTCRoom (roomId : jstr)
| SetRTCRoomEventHandler
| JoinRoom (props : props)
| LeaveRoom
| DestroyRoom.

(** A field typed [T | null] and optional: [undefined], [null] or an object. *)
Inductive slot (A : Type) := Undefined | Null | Obj (a : A).
Arguments Undefined {A}.
Arguments Null {A}.
Arguments Obj {A} a.

(** The environment [tokenWithAppID] reads: [Date.now()] three times
    and [Math.random()] once. *)
Record clock := mkClock { ctor_ms : Z; rand : Z; now_ms : Z; verify_ms : Z }.

(** [IVideoCanvas]. *)
Record canvas := mkCanvas { viewId : jstr; renderMode : Z }.

Section Client.
Context {sdk : RtcSdk}.

Record rtc_state := mkState {
  manager : bool;            (* [manager?: RTCManager]: defined or not *)
  engine : slot Engine;
  room : slot Room;
  calls : list sdk_call;     (* the SDK calls made so far, oldest first *)
}.

(** ** The monad: state passing with exceptions that keep the state *)

Definition M (A : Type) := rtc_state -> rtc_state * result A.

Definition ret {A} (a : A) : M A := fun st => (st, Ok a).
Definition throw {A} (e : js_error) : M A := fun st => (st, Err e).
Definition bindM {A B} (m : M A) (k : A -> M B) : M B :=
  fun st => match m st with
            | (st', Ok a) => k a st'
            | (st', Err e) => (st', Err e)
            end.
Definition get : M rtc_state := fun st => (st, Ok st).

Declare Scope rtc_scope.
Delimit Scope rtc_scope with rtc.
Notation "x <-- m ;; k" := (bindM m (fun x => k))
  (at level 61, m at next level, right associativity) : rtc_scope.
Notation "m ;;; k" := (bindM m (fun _ => k))
  (at level 61, right associativity) : rtc_scope.
Local Open Scope rtc_scope.

Definition record (c : sdk_call) : M unit :=
  fun st => (mkState (manager st) (engine st) (room st) (calls st ++ [c]), Ok tt).
Definition set_engine (e : slot Engine) : M unit :=
  fun st => (mkState (manager st) e (room st) (calls st), Ok tt).
Definition set_room (r : slot Room) : M unit :=
  fun st => (mkState (manager st) (engine st) r (calls st), Ok tt).

(** [this.engine?.f(...)] for a call [c] returning a number from the
    SDK: [Some n] when the engine exists, [None] for [undefined]. *)
Definition engine_call (c : sdk_call) (sdk_ret : Z) : M (option Z) :=
  st <-- get ;;
  match engine st with
  | Obj _ => record c ;;; ret (Some sdk_ret)
  | _ => ret None
  end.

Definition room_call (c : sdk_call) : M unit :=
  st <-- get ;;
  match room st with
  | Obj _ => record c
  | _ => ret tt
  end.

(** [this.manager!]: [TypeError] on [undefined]. *)
Definition need_manager : M unit :=
  st <-- get ;; if manager st then ret tt else throw TypeError.

(** ** The methods (RTCHelper.ts lines 19-72) *)

Definition rtc_new : rtc_state := mkState true Undefined Undefined [].

(** [export const rctClient = new RTCClient()] (line 75): the one client
    the App drives, in its state at module load. *)
Definition rctClient : rtc_state := rtc_new.

Definition createEngine (appID : jstr) : M unit :=
  need_manager ;;; record (CreateRTCEngine appID) ;;; set_engine (Obj (createRTCEngine appID)).

Definition setRTCVideoEventHandler : M unit :=
  st <-- get ;;
  match engine st with Obj _ => record SetRtcVideoEventHandler | _ => ret tt end.

Definition setRTCRoomEventHandler : M unit := room_call SetRTCRoomEventHandler.

Definition startAudioCapture (sdk_ret : Z) : M (option Z) := engine_call StartAudioCapture sdk_ret.

Definition startVideoCapture (sdk_ret : Z) : M (option Z) := engine_call StartVideoCapture sdk_ret.

Definition setLocalVideoCanvas (streamIndex : Z) (cv : canvas) (sdk_ret : Z) : M (option Z) :=
  if streamIndex <? 0 then ret (Some 0)
  else engine_call (SetLocalVideoCanvas streamIndex (viewId cv) (renderMode cv)) sdk_ret.

Definition leaveRoom : M unit := room_call LeaveRoom.

Definition destroyEngine : M unit :=
  leaveRoom ;;;
  room_call DestroyRoom ;;;
  set_room Null ;;;
  need_manager ;;; record DestroyRTCEngine ;;;
  set_engine Null.

(** [{ token, ...params }]: the [token] property first, then the own
    properties of [params] copied in order, overwriting any [token]. *)
Definition join_props (token : jstr) (params : props) : props :=
  fold_left (fun o kv => obj_set o (fst kv) (snd kv)) params (obj_literal [(js "token", JStr token)]).

Section WithHmac.
Context {hm : HmacSha256}.

Definition joinRoom (clk : clock) (params : props) : M (option unit) :=
  match tokenWithAppID [] [] (js "123456") (js "123456")
          (ctor_ms clk) (rand clk) (now_ms clk) (verify_ms clk) with
  | Err e => throw e
  | Ok token =>
      st <-- get ;;
      match room st with
      | Obj _ => record (JoinRoom (join_props token params)) ;;; ret (Some tt)
      | _ => ret None
      end
  end.

End WithHmac.

(** [this.room = this.engine?.createRTCRoom(roomId)]: without an engine
    the room becomes [undefined], whatever it was. *)
Definition createRoom (roomId : jstr) : M (slot Room) :=
  st <-- get ;;
  match engine st with
  | Obj e => record (CreateRTCRoom roomId) ;;; set_room (Obj (createRTCRoom e roomId)) ;;;
             ret (Obj (createRTCRoom e roomId))
  | _ => set_room Undefined ;;; ret Undefined
  end.

Section Machine.
Context {hm : HmacSha256}.

(** ** The client as a state machine

    Any method may be called at any time, in any order; [exec] runs one
    call and keeps the state it leaves, thrown exception or not. *)
Inductive op :=
| OpCreateEngine (appID : jstr)
| OpSetRTCVideoEventHandler
| OpSetRTCRoomEventHandler
| OpStartAudioCapture (sdk_ret : Z)
| OpStartVideoCapture (sdk_ret : Z)
| OpSetLocalVideoCanvas (streamIndex : Z) (cv : canvas) (sdk_ret : Z)
| OpDestroyEngine
| OpJoinRoom (clk : clock) (params : props)
| OpLeaveRoom
| OpCreateRoom (roomId : jstr).

Definition exec (o : op) (st : rtc_state) : rtc_state :=
  match o with
  | OpCreateEngine a => fst (createEngine a st)
  | OpSetRTCVideoEventHandler => fst (setRTCVideoEventHandler st)
  | OpSetRTCRoomEventHandler => fst (setRTCRoomEventHandler st)
  | OpStartAudioCapture r => fst (startAudioCapture r st)
  | OpStartVideoCapture r => fst (startVideoCapture r st)
  | OpSetLocalVideoCanvas i cv r => fst (setLocalVideoCanvas i cv r st)
  | OpDestroyEngine => fst (destroyEngine st)
  | OpJoinRoom clk p => fst (joinRoom clk p st)
  | OpLeaveRoom => fst (leaveRoom st)
  | OpCreateRoom r => fst (createRoom r st)
  end.

Inductive reachable : rtc_state -> Prop :=
| reach_new : reachable rtc_new
| reach_exec (o : op) (st : rtc_state) : reachable st -> reachable (exec o st).

(** The manager is always there, and a room object exists only while
    an engine object does. *)
Definition client_inv (st : rtc_state) : Prop :=
  manager st = true /\ (forall r, room st = Obj r -> exists e, engine st = Obj e).

(** Runs of the client: the calls in order, from a state. *)
Definition run_ops (ops : list op) (st : rtc_state) : rtc_state :=
  fold_left (fun st o => exec o st) ops st.

(** ** The session the client promises

    What the App relies on: whether an engine and a room are live.
    Creating an engine makes one live; creating a room makes a room
    live exactly when an engine is; destroying the engine ends both;
    every other call changes neither. *)
Record session := mkSession { s_engine : bool; s_room : bool }.

Definition live {A} (x : slot A) : bool := match x with Obj _ => true | _ => false end.

Definition abstract (st : rtc_state) : session := mkSession (live (engine st)) (live (room st)).

Definition session_step (o : op) (a : session) : session :=
  match o with
  | OpCreateEngine _ => mkSession true (s_room a)
  | OpCreateRoom _ => mkSession (s_engine a) (s_engine a)
  | OpDestroyEngine => mkSession false false
  | _ => a
  end.

Definition session_run (ops : list op) (a : session) : session :=
  fold_left (fun a o => session_step o a) ops a.

(** The engine and room references one call leaves, the manager set:
    the summary of [exec] the invariant and the refinement are proved
    from. *)
Definition exec_slots (o : op) (e : slot Engine) (r : slot Room) : slot Engine * slot Room :=
  match o with
  | OpCreateEngine a => (Obj (createRTCEngine a), r)
  | OpDestroyEngine => (Null, Null)
  | OpCreateRoom id => match e with Obj x => (e, Obj (createRTCRoom x id)) | _ => (e, Undefined) end
  | _ => (e, r)
  end.

(** The calls that keep a live engine live: all but [destroyEngine]. *)
Definition keeps_engine (o : op) : bool :=
  match o with OpDestroyEngine => false | _ => true end.

End Machine.

End Client.

(** The notations of [M], for the files that drive the client. *)
Declare Scope rtc_scope.
Delimit Scope rtc_scope with rtc.
Notation "x <-- m ;; k" := (bindM m (fun x => k))
  (at level 61, m at next level, right associativity) : rtc_scope.
Notation "m ;;; k" := (bindM m (fun _ => k))
  (at level 61, right associativity) : rtc_scope.

(** A concrete SDK for the witnesses: an engine is its [appID], a room
    its engine and room id; [STREAM_INDEX_MAIN] is [0] as in the SDK. *)
Definition demo_sdk : RtcSdk := {|
  Engine := jstr;
  Room := jstr * jstr;
  createRTCEngine := fun a => a;
  createRTCRoom := fun e r => (e, r);
  STREAM_INDEX_MAIN := 0;
  ByteRTCRenderModeFill := 1;
  stream_index_main_nonneg := Z.le_refl 0;
|}.

Definition demo_clock : clock := mkClock demo_ms (2 ^ 52) demo_ms demo_ms.

(** ** Theorems *)

Section Theorems.
Context {sdk : RtcSdk} {hm : HmacSha256}.

Lemma createEngine_spec (a : jstr) (st : rtc_state) :
  manager st = true ->
  createEngine a st =
  (mkState true (Obj (createRTCEngine a)) (room st) (calls st ++ [CreateRTCEngine a]), Ok tt).
Proof. destruct st as [m e r c]. cbn. intros ->. reflexivity. Qed.

Lemma engine_call_spec (c : sdk_call) (n : Z) (st : rtc_state) :
  engine_call c n st =
  match engine st with
  | Obj _ => (mkState (manager st) (engine st) (room st) (calls st ++ [c]), Ok (Some n))
  | _ => (st, Ok None)
  end.
Proof. destruct st as [m [] r cs]; reflexivity. Qed.

Lemma room_call_spec (c : sdk_call) (st : rtc_state) :
  room_call c st =
  match room st with
  | Obj _ => (mkState (manager st) (engine st) (room st) (calls st ++ [c]), Ok tt)
  | _ => (st, Ok tt)
  end.
Proof. destruct st as [m e [] cs]; reflexivity. Qed.

Lemma createRoom_spec (id : jstr) (st : rtc_state) :
  createRoom id st =
  match engine st with
  | Obj e => (mkState (manager st) (Obj e) (Obj (createRTCRoom e id)) (calls st ++ [CreateRTCRoom id]),
              Ok (Obj (createRTCRoom e id)))
  | _ => (mkState (manager st) (engine st) Undefined (calls st), Ok Undefined)
  end.
Proof. destruct st as [m [] r cs]; reflexivity. Qed.

Lemma destroyEngine_run (st : rtc_state) :
  manager st = true ->
  destroyEngine st =
  (mkState true Null Null
     (calls st ++ match room st with Obj _ => [LeaveRoom; DestroyRoom] | _ => [] end ++ [DestroyRTCEngine]),
   Ok tt).
Proof.
  destruct st as [m e [] cs]; cbn; intros ->;
    unfold need_manager, bindM, get, ret, record, set_engine; cbn; now rewrite <- ?app_assoc.
Qed.

(** C20: [destroyEngine] leaves and destroys the room if there is one, then
    destroys the engine; both references end [null]. *)
Theorem destroyEngine_spec (st : rtc_state) :
  manager st = true ->
  destroyEngine st =
  (mkState true Null Null
     (calls st ++ match room st with Obj _ => [LeaveRoom; DestroyRoom] | _ => [] end ++ [DestroyRTCEngine]),
   Ok tt).
Proof. intros. apply destroyEngine_run; assumption. Qed.

Lemma joinRoom_state (clk : clock) (p : props) (st : rtc_state) :
  exists cs, fst (joinRoom clk p st) = mkState (manager st) (engine st) (room st) (calls st ++ cs).
Proof.
  destruct st as [m e r c]. unfold joinRoom.
  destruct (tokenWithAppID _ _ _ _ _ _ _ _); [|exists []; cbn; now rewrite app_nil_r].
  destruct r; cbn; eauto; exists []; now rewrite app_nil_r.
Qed.

(** [calls_ext] closes [exists cs, st' = mkState .. (calls st ++ cs)]
    once the call has been computed. *)
Ltac calls_ext :=
  cbn; first [exists []; rewrite app_nil_r; reflexivity | eexists; reflexivity].

(** Every call, the manager set, keeps it, leaves the references
    [exec_slots] gives and only appends to the log of SDK calls. *)
Lemma exec_slots_spec (o : op) (st : rtc_state) :
  manager st = true ->
  exists cs, exec o st =
    mkState true (fst (exec_slots o (engine st) (room st))) (snd (exec_slots o (engine st) (room st)))
      (calls st ++ cs).
Proof.
  destruct st as [m e r c]. cbn. intros ->. destruct o; unfold exec.
  - rewrite createEngine_spec by reflexivity. calls_ext.
  - destruct e; calls_ext.
  - unfold setRTCRoomEventHandler. rewrite room_call_spec. destruct r; calls_ext.
  - unfold startAudioCapture. rewrite engine_call_spec. destruct e; calls_ext.
  - unfold startVideoCapture. rewrite engine_call_spec. destruct e; calls_ext.
  - unfold setLocalVideoCanvas. destruct (streamIndex <? 0); [calls_ext|].
    rewrite engine_call_spec. destruct e; calls_ext.
  - rewrite destroyEngine_run by reflexivity. calls_ext.
  - destruct (joinRoom_state clk params (mkState true e r c)) as [cs ->]. calls_ext.
  - unfold leaveRoom. rewrite room_call_spec. destruct r; calls_ext.
  - rewrite createRoom_spec. destruct e; calls_ext.
Qed.

Lemma exec_manager (o : op) (st : rtc_state) : manager st = true -> manager (exec o st) = true.
Proof. intros Hm. destruct (exec_slots_spec o st Hm) as [cs ->]. reflexivity. Qed.

Lemma exec_inv (o : op) (st : rtc_state) : client_inv st -> client_inv (exec o st).
Proof.
  intros [Hm Hr]. destruct (exec_slots_spec o st Hm) as [cs ->]. split; [reflexivity|]. cbn.
  intros x Hx. destruct o; cbn in *;
    first [exact (Hr x Hx) | destruct (engine st); cbn in *; try discriminate; eauto].
Qed.

(** C19: Every reachable state of the client has its manager, so [manager!]
    never throws, and has an engine whenever it has a room. *)
Theorem reachable_inv (st : rtc_state) : reachable st -> client_inv st.
Proof.
  induction 1 as [|o st _ IH]; [split; [reflexivity | discriminate]|]. now apply exec_inv.
Qed.

(** One call of the client moves its abstraction by one step of the
    session machine. *)
Lemma exec_abstract (o : op) (st : rtc_state) :
  manager st = true -> abstract (exec o st) = session_step o (abstract st).
Proof.
  intros Hm. destruct (exec_slots_spec o st Hm) as [cs ->]. unfold abstract.
  destruct o; cbn; try (destruct (engine st)); reflexivity.
Qed.

Lemma run_ops_abstract (ops : list op) (st : rtc_state) :
  manager st = true -> abstract (run_ops ops st) = session_run ops (abstract st).
Proof.
  revert st. induction ops as [|o ops IH]; intros st Hm; [reflexivity|].
  cbn [run_ops session_run fold_left]. fold (run_ops ops (exec o st)).
  rewrite IH by (apply exec_manager, Hm). rewrite exec_abstract by exact Hm. reflexivity.
Qed.

(** C33: The client refines the session machine: after any sequence of
    calls from a new client, whether an engine and a room are live is
    what the session machine computes for the same calls, exceptions
    included. *)
Theorem client_refines_session (ops : list op) :
  abstract (run_ops ops rtc_new) = session_run ops (mkSession false false).
Proof. apply run_ops_abstract. reflexivity. Qed.

Lemma session_keep (ops : list op) :
  forallb keeps_engine ops = true -> session_run ops (mkSession true true) = mkSession true true.
Proof.
  induction ops as [|o ops IH]; [reflexivity|]. cbn [forallb]. intros H.
  apply andb_true_iff in H as [Ho H]. destruct o; try discriminate; exact (IH H).
Qed.

(** C36: From every state whose manager is set, which every reachable
    state is, creating an engine and then a room makes both live, and
    both stay live through every later call that does not destroy the
    engine, whatever those calls throw. *)
Theorem session_live (st : rtc_state) (a id : jstr) (ops : list op) :
  manager st = true -> forallb keeps_engine ops = true ->
  abstract (run_ops (OpCreateEngine a :: OpCreateRoom id :: ops) st) = mkSession true true.
Proof.
  intros Hm Hk. rewrite run_ops_abstract by exact Hm. exact (session_keep ops Hk).
Qed.

(** [joinRoom] always throws [SyntaxError] from [tokenWithAppID],
    before the room is touched: no SDK call is made and the state is as
    it was. *)
Theorem joinRoom_throws (clk : clock) (p : props) (st : rtc_state) :
  clock_ok (ctor_ms clk) -> clock_ok (now_ms clk) -> 0 <= rand clk < 2 ^ 53 ->
  joinRoom clk p st = (st, Err SyntaxError).
Proof.
  intros Hc Hn Hr. unfold joinRoom.
  rewrite empty_appId_rejected by (apply wf_nil || reflexivity || assumption). reflexivity.
Qed.

(** C21: A negative stream index returns [0] without calling the SDK. *)
Theorem setLocalVideoCanvas_negative (i : Z) (cv : canvas) (n : Z) (st : rtc_state) :
  i < 0 -> setLocalVideoCanvas i cv n st = (st, Ok (Some 0)).
Proof. intros Hi. unfold setLocalVideoCanvas. now rewrite (proj2 (Z.ltb_lt _ _) Hi). Qed.

(** C23: Without an engine, [createRoom] drops the room reference it had,
    without leaving or destroying that room, and calls nothing. *)
Theorem createRoom_no_engine (id : jstr) (st : rtc_state) :
  (forall e, engine st <> Obj e) ->
  createRoom id st = (mkState (manager st) (engine st) Undefined (calls st), Ok Undefined).
Proof.
  intros He. rewrite createRoom_spec. destruct (engine st) as [| |e]; [reflexivity | reflexivity |].
  exfalso. exact (He e eq_refl).
Qed.

Lemma fold_obj_set_get (src o : props) (k : jstr) :
  NoDup (map fst src) ->
  obj_get (fold_left (fun o kv => obj_set o (fst kv) (snd kv)) src o) k =
  match obj_get src k with Some v => Some v | None => obj_get o k end.
Proof.
  revert o. induction src as [|[k' v'] src IH]; intros o Hd; [reflexivity|].
  inversion_clear Hd as [|? ? Hn Hd']. cbn [fold_left fst snd]. rewrite IH by exact Hd'.
  rewrite obj_get_set. cbn [obj_get].
  destruct (key_eqb_spec k' k) as [<-|]; [|reflexivity].
  destruct (obj_get src k') eqn:E; [|reflexivity].
  exfalso. apply Hn. apply obj_get_in in E. now apply (in_map fst) in E.
Qed.

(** C22: In [{ token, ...params }] a [token] property of [params] replaces
    the generated token. *)
Theorem join_props_token (token : jstr) (params : props) :
  NoDup (map fst params) ->
  obj_get (join_props token params) (js "token") =
  match obj_get params (js "token") with Some v => Some v | None => Some (JStr token) end.
Proof. intros Hd. unfold join_props. now rewrite fold_obj_set_get. Qed.

End Theorems.

(** ** Witnesses, on [demo_sdk] and [HmacFips] *)

#[local] Existing Instance demo_sdk.

Lemma demo_clock_ok :
  clock_ok (ctor_ms demo_clock) /\ clock_ok (now_ms demo_clock) /\ 0 <= rand demo_clock < 2 ^ 53.
Proof. unfold clock_ok, MAX_SAFE_INTEGER, demo_clock, demo_ms. cbn. lia. Qed.

Lemma reachable_inv_witness :
  client_inv (exec (OpCreateRoom (js "123456")) (exec (OpCreateEngine (js "app")) rtc_new)).
Proof. apply reachable_inv. apply reach_exec, reach_exec, reach_new. Defined.

Lemma destroyEngine_spec_witness :
  destroyEngine (fst (createRoom (js "1") (fst (createEngine (js "app") rtc_new)))) =
  (mkState true Null Null [CreateRTCEngine (js "app"); CreateRTCRoom (js "1"); LeaveRoom; DestroyRoom; DestroyRTCEngine],
   Ok tt).
Proof. apply destroyEngine_spec. reflexivity. Defined.

Lemma setLocalVideoCanvas_negative_witness :
  setLocalVideoCanvas (-1) (mkCanvas (js "view") 1) 7 rtc_new = (rtc_new, Ok (Some 0)).
Proof. apply setLocalVideoCanvas_negative. lia. Defined.

Lemma join_props_token_witness :
  obj_get (join_props (js "generated") [(js "token", JStr (js "mine"))]) (js "token") = Some (JStr (js "mine")).
Proof. apply join_props_token. repeat constructor. intros []. Defined.

Lemma createRoom_no_engine_witness :
  createRoom (js "1") (mkState true Null (Obj (js "app", js "0")) []) =
  (mkState true Null Undefined [], Ok Undefined).
Proof. apply createRoom_no_engine. intros e H. discriminate H. Defined.

Lemma session_live_witness :
  abstract (run_ops [OpCreateEngine (js "app"); OpCreateRoom (js "1"); OpLeaveRoom; OpStartAudioCapture 0] rctClient)
  = mkSession true true.
Proof. apply (session_live rctClient (js "app") (js "1") [OpLeaveRoom; OpStartAudioCapture 0]); reflexivity. Defined.
