(* ===== verification/App.v ===== *)
(** * The start-up of [src/App.tsx]

    [ExamplePage] builds the two sets of event listeners of
    [RCTHandler] on every render (lines 23-24) and, once the native view
    has loaded, runs [initialize] from an effect (lines 78-84).
    [initialize] (lines 40-76) first asks for the camera and microphone
    permissions (lines 26-34), awaiting each request, then drives the
    client [rctClient] of [RTCHelper]: engine, video handler, local
    canvas, room, room handler, [joinRoom], then both captures.

    [Platform.OS] is a string input; [request] of
    [react-native-permissions] is given by what each request's promise
    does, resolve (with a status the code ignores) or reject.  The
    client part runs in the monad [M] of [RTCClient]; the permissions
    asked are returned next to it, since every request precedes the
    first client call.  The element tree the page returns is data
    ([element]); mounting it loads its native views, whose [onLoad]
    starts the second render. *)

From Stdlib Require Import ZArith List Lia Bool String.
From S2P Require Import Prelude JsString JsObject Hmac HmacFips TokenIssue TokenWire Listeners RTCClient.
Import ListNotations.
Local Open Scope Z_scope.
Local Open Scope res_scope.
Local Open Scope rtc_scope.

(** ** Constants of the page *)

Definition viewId_app : jstr := js "my-view".
Definition APP_ID : jstr := js "68afed4e18ee8d017b08325f".

(** The [params] of the [joinRoom] call (lines 63-71): [userId] and
    [roomConfigs], whose content the client copies without reading. *)
Definition join_params (roomConfigs : jsval) : props :=
  obj_literal [(js "userId", JStr (js "123456")); (js "roomConfigs", roomConfigs)].

(** ** The permission requests (lines 26-34) *)

Inductive permission := IOS_CAMERA | IOS_MICROPHONE | ANDROID_CAMERA | ANDROID_RECORD_AUDIO.

(** The test [Platform.OS === 'ios'] (line 27): on ['ios'] the camera
    and the microphone, on any other platform the Android camera and
    audio recording. *)
Definition device_permissions (os : jstr) : permission * permission :=
  if key_eqb os (js "ios") then (IOS_CAMERA, IOS_MICROPHONE)
  else (ANDROID_CAMERA, ANDROID_RECORD_AUDIO).

(** The permissions asked, in order, and how the function's promise
    ends: a rejected request rejects it at once. *)
Definition requestDevicePermission (os : jstr) (request : permission -> result unit)
    : list permission * result unit :=
  let '(p1, p2) := device_permissions os in
  match request p1 with
  | Err e => ([p1], Err e)
  | Ok _ => ([p1; p2], request p2)
  end.

(** ** The element tree of the render (lines 86-104)

    The page returns a fragment holding a [KeyboardAvoidingView] whose
    [behavior] depends on the platform, around the one
    [NativeViewComponent] that shows the local video.  Its [onLoad]
    prop is [handleViewLoad] (lines 36-38), which sets [isViewLoaded]. *)

Inductive view_handler := HandleViewLoad.

(** [handleViewLoad]: [setViewLoaded(true)], whatever the state was. *)
Definition run_handler (h : view_handler) (isViewLoaded : bool) : bool :=
  match h with HandleViewLoad => true end.

(** [Platform.select({ android, ios })]: the value under the key of the
    running platform, and [undefined] on any other platform (the object
    has neither a [native] nor a [default] key).  The [!] after it is a
    TypeScript assertion and checks nothing at run time. *)
Definition platform_select (os : jstr) (android ios : jstr) : option jstr :=
  if key_eqb os (js "ios") then Some ios
  else if key_eqb os (js "android") then Some android
  else None.

Inductive element :=
| KeyboardAvoidingView (behavior : jstr) (children : list element)
| NativeViewComponent (viewId : jstr) (onLoad : view_handler) (kind : option jstr).

Definition page_view (os : jstr) : list element :=
  [KeyboardAvoidingView (if key_eqb os (js "ios") then js "padding" else js "height")
     [NativeViewComponent viewId_app HandleViewLoad
        (platform_select os (js "TextureView") (js "UIView"))]].

(** The native views of a tree, in document order, with their props. *)
Fixpoint element_views (e : element) : list (jstr * view_handler * option jstr) :=
  match e with
  | KeyboardAvoidingView _ cs =>
      (fix go (cs : list element) := match cs with [] => [] | c :: cs => element_views c ++ go cs end) cs
  | NativeViewComponent v h k => [(v, h, k)]
  end.

Definition native_views (t : list element) : list (jstr * view_handler * option jstr) :=
  flat_map element_views t.

(** Every native view of the tree loads and fires its [onLoad]; the
    resulting [isViewLoaded], from [false]. *)
Definition load_views (t : list element) : bool :=
  fold_left (fun b '(_, h, _) => run_handler h b) (native_views t) false.

(** ** [initialize] and the effect (lines 40-84) *)

Section App.
Context {sdk : RtcSdk} {hm : HmacSha256}.

(** Lines 44-75: the calls on [rctClient] once the permissions are
    granted.  The SDK's return values of the canvas and capture calls
    are passed in [rets]. *)
Definition start_client (clk : clock) (roomConfigs : jsval) (rets : Z * Z * Z) : M unit :=
  let '(r_canvas, r_video, r_audio) := rets in
  createEngine APP_ID ;;;
  setRTCVideoEventHandler ;;;
  setLocalVideoCanvas STREAM_INDEX_MAIN (mkCanvas viewId_app ByteRTCRenderModeFill) r_canvas ;;;
  createRoom (js "123456") ;;;
  setRTCRoomEventHandler ;;;
  joinRoom clk (join_params roomConfigs) ;;;
  startVideoCapture r_video ;;;
  startAudioCapture r_audio ;;;
  ret tt.

(** [initialize]: the permissions, then the client; a rejected request
    leaves the client untouched. *)
Definition initialize (os : jstr) (request : permission -> result unit)
    (clk : clock) (roomConfigs : jsval) (rets : Z * Z * Z) (st : rtc_state)
    : list permission * (rtc_state * result unit) :=
  let '(asked, r) := requestDevicePermission os request in
  match r with
  | Err e => (asked, (st, Err e))
  | Ok _ => (asked, start_client clk roomConfigs rets st)
  end.

(** The promise an [async] function returns, once settled. *)
Inductive promise := Fulfilled | Rejected (e : js_error).

(** Calling an [async] function: what its body throws, before or after
    an [await], rejects the promise it returns; the call expression
    itself completes normally with that promise. *)
Definition call_async (body : result unit) : result promise :=
  Ok (match body with Ok _ => Fulfilled | Err e => Rejected e end).

(** How the effect ends: the promise settled, its rejection unhandled,
    or an exception caught by the [catch] block. *)
Inductive effect_outcome := Resolved | UnhandledRejection (e : js_error) | Caught (e : js_error).

(** [try { s } catch {}]: an exception [s] throws is caught and
    discarded. *)
Definition try_catch {A} (r : result A) : A + js_error :=
  match r with Ok a => inl a | Err e => inr e end.

(** [useEffect(() => { if (isViewLoaded) { try { initialize(); } catch {} } })]:
    the statement in the [try] is the call [initialize()], whose value
    is the promise; nothing awaits it. *)
Definition view_effect (isViewLoaded : bool) (os : jstr) (request : permission -> result unit)
    (clk : clock) (roomConfigs : jsval) (rets : Z * Z * Z) (st : rtc_state)
    : list permission * rtc_state * effect_outcome :=
  if isViewLoaded then
    let '(asked, (st', r)) := initialize os request clk roomConfigs rets st in
    match try_catch (call_async r) with
    | inr e => (asked, st', Caught e)
    | inl Fulfilled => (asked, st', Resolved)
    | inl (Rejected e) => (asked, st', UnhandledRejection e)
    end
  else ([], st, Resolved).

(** The render of [ExamplePage] (lines 20-24): both hooks run, so the
    listeners are built on every render; [strict] tells whether the
    module code runs in strict mode. *)
Definition render (strict : bool) : result (list (jstr * listener) * list (jstr * listener)) :=
  engineEventListeners <- useRTCVideoListeners strict ;;
  roomEventListeners <- useRTCRoomListeners strict ;;
  Ok (engineEventListeners, roomEventListeners).

(** Mounting the page: the first render with [isViewLoaded = false], its
    effect, the native views of [page_view] loading and firing their
    [onLoad], then, since the state changed, the second render and its
    effect.  A render that throws stops the page. *)
Inductive page_outcome :=
| RenderFailed (e : js_error)
| Effect (asked : list permission) (st : rtc_state) (outcome : effect_outcome).

Definition mount_page (strict : bool) (os : jstr) (request : permission -> result unit)
    (clk : clock) (roomConfigs : jsval) (rets : Z * Z * Z) (st : rtc_state) : page_outcome :=
  match render strict with
  | Err e => RenderFailed e
  | Ok _ =>
      let '(_, st1, _) := view_effect false os request clk roomConfigs rets st in
      let loaded := load_views (page_view os) in
      if negb loaded then Effect [] st1 Resolved
      else
        match render strict with
        | Err e => RenderFailed e
        | Ok _ =>
            let '(asked, st2, out) := view_effect loaded os request clk roomConfigs rets st1 in
            Effect asked st2 out
        end
  end.

End App.

(** A permission library that grants every request. *)
Definition grant_all (p : permission) : result unit := Ok tt.

(** ** Theorems *)

Section Theorems.
Context {sdk : RtcSdk} {hm : HmacSha256}.

Lemma start_client_run (clk : clock) (roomConfigs : jsval) (rets : Z * Z * Z) :
  clock_ok (ctor_ms clk) -> clock_ok (now_ms clk) -> 0 <= rand clk < 2 ^ 53 ->
  let eng := createRTCEngine APP_ID in
  start_client clk roomConfigs rets rtc_new =
  (mkState true (Obj eng) (Obj (createRTCRoom eng (js "123456")))
     [CreateRTCEngine APP_ID; SetRtcVideoEventHandler;
      SetLocalVideoCanvas STREAM_INDEX_MAIN viewId_app ByteRTCRenderModeFill;
      CreateRTCRoom (js "123456"); SetRTCRoomEventHandler],
   Err SyntaxError).
Proof.
  intros Hc Hn Hr eng. destruct rets as [[rc rv] ra].
  pose proof stream_index_main_nonneg as Hs.
  unfold start_client, setLocalVideoCanvas. rewrite (proj2 (Z.ltb_ge _ _) Hs).
  unfold bindM at 1. rewrite createEngine_spec by reflexivity.
  cbn -[tokenWithAppID joinRoom]. unfold bindM at 1. rewrite joinRoom_throws by assumption. reflexivity.
Qed.

Lemma request_granted (os : jstr) (request : permission -> result unit) :
  (forall p, request p = Ok tt) ->
  requestDevicePermission os request =
  ([fst (device_permissions os); snd (device_permissions os)], Ok tt).
Proof. intros Hr. unfold requestDevicePermission. destruct (device_permissions os). now rewrite !Hr. Qed.

Lemma initialize_granted (os : jstr) (request : permission -> result unit)
    (clk : clock) (roomConfigs : jsval) (rets : Z * Z * Z) (st : rtc_state) :
  (forall p, request p = Ok tt) ->
  initialize os request clk roomConfigs rets st =
  ([fst (device_permissions os); snd (device_permissions os)], start_client clk roomConfigs rets st).
Proof. intros Hr. unfold initialize. now rewrite request_granted. Qed.

(** C2: The start-up sequence of [App.tsx] on a new client, the
    permissions granted: both permissions of the platform are asked,
    then the engine is created, the video handler and the canvas set,
    the room created and its handler set; then [joinRoom] throws, so
    neither capture is ever started. *)
Theorem initialize_fails (os : jstr) (request : permission -> result unit)
    (clk : clock) (roomConfigs : jsval) (rets : Z * Z * Z) :
  (forall p, request p = Ok tt) ->
  clock_ok (ctor_ms clk) -> clock_ok (now_ms clk) -> 0 <= rand clk < 2 ^ 53 ->
  let eng := createRTCEngine APP_ID in
  initialize os request clk roomConfigs rets rtc_new =
  ([fst (device_permissions os); snd (device_permissions os)],
   (mkState true (Obj eng) (Obj (createRTCRoom eng (js "123456")))
      [CreateRTCEngine APP_ID; SetRtcVideoEventHandler;
       SetLocalVideoCanvas STREAM_INDEX_MAIN viewId_app ByteRTCRenderModeFill;
       CreateRTCRoom (js "123456"); SetRTCRoomEventHandler],
    Err SyntaxError)).
Proof. intros Hr Hc Hn Hrand eng. rewrite initialize_granted by exact Hr. now rewrite start_client_run. Qed.


(** C31: A rejected permission request rejects [initialize] before the
    client is touched: no SDK call is made, the state is as it was, and
    the rejection is the one of the request. *)
Theorem permission_rejected (os : jstr) (request : permission -> result unit) (e : js_error)
    (clk : clock) (roomConfigs : jsval) (rets : Z * Z * Z) (st : rtc_state) :
  request (fst (device_permissions os)) = Err e \/
  (request (fst (device_permissions os)) = Ok tt /\ request (snd (device_permissions os)) = Err e) ->
  snd (initialize os request clk roomConfigs rets st) = (st, Err e).
Proof.
  unfold initialize, requestDevicePermission. destruct (device_permissions os) as [p1 p2]. cbn [fst snd].
  intros [H1 | [H1 H2]]; rewrite H1; [reflexivity | now rewrite H2].
Qed.

(** C32: Mounting the page: in strict mode code the first render throws
    [TypeError] from [logger] and nothing else runs; in sloppy mode, the
    permissions granted, the effect of the second render runs
    [initialize] on the new client and ends in the unhandled
    [SyntaxError] after the five client calls. *)
Theorem mount_page_outcome (os : jstr) (request : permission -> result unit)
    (clk : clock) (roomConfigs : jsval) (rets : Z * Z * Z) :
  (forall p, request p = Ok tt) ->
  clock_ok (ctor_ms clk) -> clock_ok (now_ms clk) -> 0 <= rand clk < 2 ^ 53 ->
  mount_page true os request clk roomConfigs rets rtc_new = RenderFailed TypeError /\
  exists st, mount_page false os request clk roomConfigs rets rtc_new =
    Effect [fst (device_permissions os); snd (device_permissions os)] st (UnhandledRejection SyntaxError) /\
    List.length (calls st) = 5%nat.
Proof.
  intros Hr Hc Hn Hrand. split; [reflexivity|].
  unfold mount_page. cbn [render useRTCVideoListeners useRTCRoomListeners logger bind].
  unfold view_effect at 1. cbv iota. unfold view_effect.
  rewrite initialize_granted, start_client_run by assumption. eexists. split; reflexivity.
Qed.

(** C34: The page renders exactly one native view, with the [viewId]
    of the page and [handleViewLoad] as its [onLoad]; its [kind], which
    the [!] assertion types as a string, is ['UIView'] on iOS,
    ['TextureView'] on Android and [undefined] on every other
    platform. *)
Theorem native_view_kind (os : jstr) :
  exists k, native_views (page_view os) = [(viewId_app, HandleViewLoad, k)] /\
    (os = js "ios" -> k = Some (js "UIView")) /\
    (os = js "android" -> k = Some (js "TextureView")) /\
    (os <> js "ios" -> os <> js "android" -> k = None).
Proof.
  eexists. split; [reflexivity|]. unfold platform_select.
  destruct (key_eqb_spec os (js "ios")) as [->|Hi];
    [|destruct (key_eqb_spec os (js "android")) as [->|Ha]];
    repeat split; intros H; try reflexivity; try congruence; vm_compute in H; discriminate.
Qed.

(** C35: The local canvas that [initialize] sets on a new client, the
    permissions granted, names a native view of the tree the page
    renders on the same platform, so the SDK draws into the view that
    fires [onLoad]. *)
Theorem canvas_names_page_view (os : jstr) (request : permission -> result unit)
    (clk : clock) (roomConfigs : jsval) (rets : Z * Z * Z) (i : Z) (v : jstr) (mode : Z) :
  (forall p, request p = Ok tt) ->
  clock_ok (ctor_ms clk) -> clock_ok (now_ms clk) -> 0 <= rand clk < 2 ^ 53 ->
  In (SetLocalVideoCanvas i v mode) (calls (fst (snd (initialize os request clk roomConfigs rets rtc_new)))) ->
  exists h k, In (v, h, k) (native_views (page_view os)).
Proof.
  intros Hr Hc Hn Hrand Hin. rewrite initialize_granted, start_client_run in Hin by assumption.
  cbn [calls fst snd In] in Hin.
  repeat destruct Hin as [Hin|Hin]; try discriminate; try contradiction.
  injection Hin as _ <- _. do 2 eexists. left. reflexivity.
Qed.

End Theorems.

(** ** Witnesses, on [demo_sdk] and [HmacFips] *)

#[local] Existing Instance demo_sdk.

Lemma initialize_fails_witness :
  initialize (js "ios") grant_all demo_clock JNull (0, 0, 0) rtc_new =
  ([IOS_CAMERA; IOS_MICROPHONE],
   (mkState true (Obj APP_ID) (Obj (APP_ID, js "123456"))
      [CreateRTCEngine APP_ID; SetRtcVideoEventHandler; SetLocalVideoCanvas 0 viewId_app 1;
       CreateRTCRoom (js "123456"); SetRTCRoomEventHandler],
    Err SyntaxError)).
Proof.
  destruct demo_clock_ok as [H1 [H2 H3]].
  exact (initialize_fails (js "ios") grant_all demo_clock JNull (0, 0, 0) (fun _ => eq_refl) H1 H2 H3).
Defined.


Lemma permission_rejected_witness :
  snd (initialize (js "ios") (fun p => match p with IOS_MICROPHONE => Err TypeError | _ => Ok tt end)
         demo_clock JNull (0, 0, 0) rtc_new) = (rtc_new, Err TypeError).
Proof. apply permission_rejected. right. split; reflexivity. Defined.

Lemma mount_page_outcome_witness :
  mount_page true (js "ios") grant_all demo_clock JNull (0, 0, 0) rtc_new = RenderFailed TypeError /\
  exists st, mount_page false (js "ios") grant_all demo_clock JNull (0, 0, 0) rtc_new =
    Effect [IOS_CAMERA; IOS_MICROPHONE] st (UnhandledRejection SyntaxError) /\
    List.length (calls st) = 5%nat.
Proof.
  destruct demo_clock_ok as [H1 [H2 H3]].
  exact (mount_page_outcome (js "ios") grant_all demo_clock JNull (0, 0, 0) (fun _ => eq_refl) H1 H2 H3).
Defined.

Lemma native_view_kind_witness :
  exists k, native_views (page_view (js "web")) = [(viewId_app, HandleViewLoad, k)] /\
    (js "web" = js "ios" -> k = Some (js "UIView")) /\
    (js "web" = js "android" -> k = Some (js "TextureView")) /\
    (js "web" <> js "ios" -> js "web" <> js "android" -> k = None).
Proof. exact (native_view_kind (js "web")). Defined.

Lemma canvas_names_page_view_witness :
  exists h k, In (viewId_app, h, k) (native_views (page_view (js "android"))).
Proof.
  destruct demo_clock_ok as [H1 [H2 H3]].
  apply (canvas_names_page_view (js "android") grant_all demo_clock JNull (0, 0, 0)
           STREAM_INDEX_MAIN viewId_app ByteRTCRenderModeFill (fun _ => eq_refl) H1 H2 H3).
  rewrite initialize_granted, start_client_run by (reflexivity || assumption). right. right. left. reflexivity.
Defined.
